(** * Spot optimizer agent: the migration engine and its periodic tasks

    A shallow embedding of [spot_agent_production_v2_final.py].  The agent
    talks to three outside parties (the EC2 / pricing SDK, the instance
    metadata service and the central server) and reads two clocks.  Every
    such call is a field of [World]; the agent itself is a state
    transformer over [Agent], which also records the calls it made, in
    order, in [trace].

    Conventions.
    - A Python [None] result is [None]; a call that raises is [None] (or
      [false]) at the SDK level, which is what every wrapper of the source
      turns an exception into.
    - Time stamps are [Z], in microseconds since the epoch (the resolution
      of [datetime]).  The wire format ([isoformat()]) is not modelled: a
      record holds the time stamp itself.
    - Prices are binary64 floats, as in Python. *)

From Stdlib Require Import ZArith Lia Ascii String PrimFloat.
From stdpp Require Import base list strings gmap functions relations.

Local Open Scope Z_scope.
Local Open Scope string_scope.

(** ** Python values *)

Definition price : Type := float.

(** [bool(x)] for a float: false exactly for [0.0] and [-0.0]. *)
Definition price_truthy (p : price) : bool := negb (PrimFloat.eqb p 0%float).

(** [bool(x)] for an [Optional[float]]. *)
Definition opt_price_truthy (o : option price) : bool :=
  match o with
  | Some p => price_truthy p
  | None => false
  end.

(** The literal [0.1] (its nearest binary64 value). *)
Definition placeholder_price : price := 0x1.999999999999ap-4%float.

(** [bool(x)] for an [Optional[str]]: [None] and the empty string are falsy. *)
Definition str_truthy (o : option string) : bool :=
  match o with
  | Some (String _ _) => true
  | _ => false
  end.

(** [s.replace('-', '')]. *)
Fixpoint remove_hyphens (s : string) : string :=
  match s with
  | EmptyString => EmptyString
  | String c r =>
      if Ascii.eqb c "-"%char then remove_hyphens r
      else String c (remove_hyphens r)
  end.

(** [f"{instance_type}_{az.replace('-', '')}"]. *)
Definition make_pool_id (instance_type az : string) : string :=
  instance_type ++ "_" ++ remove_hyphens az.

(** A Python [dict] with string keys, kept in insertion order. *)
Definition dict (V : Type) : Type := list (string * V).

Fixpoint dict_get {V} (d : dict V) (k : string) : option V :=
  match d with
  | [] => None
  | (k', v) :: r => if String.eqb k' k then Some v else dict_get r k
  end.

(** [d[k] = v]: an existing key keeps its position. *)
Fixpoint dict_set {V} (d : dict V) (k : string) (v : V) : dict V :=
  match d with
  | [] => [(k, v)]
  | (k', v') :: r =>
      if String.eqb k' k then (k', v) :: r else (k', v') :: dict_set r k v
  end.

(** [{k: v for (k, v) in kvs}]. *)
Definition dict_of_list {V} (kvs : list (string * V)) : dict V :=
  fold_left (fun d kv => dict_set d (fst kv) (snd kv)) kvs [].

(** ** SDK data *)

(** One entry of [instance['NetworkInterfaces']]; only
    [ni.get('Association', {}).get('PublicIp')] is looked at. *)
Record NetworkInterface := {
  ni_public_ip : option string
}.

(** One instance of a [describe_instances] response. *)
Record Instance := {
  InstanceId : string;
  InstanceType : string;
  StateName : string;
  InstanceLifecycle : option string;
  PlacementAvailabilityZone : string;
  SubnetId : option string;
  SecurityGroups : list string;          (* the GroupId of each group *)
  KeyName : option string;
  IamInstanceProfileArn : option string; (* .get('IamInstanceProfile', {}).get('Arn') *)
  Tags : list (string * string);
  NetworkInterfaces : list NetworkInterface;
  BlockDeviceMappings : list string
}.

(** The dictionary built by [get_instance_details]. *)
Record InstanceDetails := {
  d_instance_id : string;
  d_instance_type : string;
  d_state : string;
  d_lifecycle : string;
  d_az : string;
  d_subnet_id : option string;
  d_security_groups : list string;
  d_key_name : option string;
  d_iam_instance_profile : option string;
  d_tags : dict string;
  d_network_interfaces : list NetworkInterface;
  d_block_device_mappings : list string
}.

(** The [launch_config] dictionary of [execute_switch]. *)
Record LaunchConfig := {
  lc_ami_id : string;
  lc_instance_type : string;
  lc_key_name : option string;
  lc_security_groups : list string;
  lc_subnet_id : option string;
  lc_iam_instance_profile : option string;
  lc_tags : dict string;
  lc_network_interfaces : list NetworkInterface;
  lc_old_instance_id : string
}.

(** A tag value: a string, or the [isoformat()] of a time stamp. *)
Inductive TagValue :=
| TagStr (s : string)
| TagTime (t : Z).

Record NetworkInterfaceSpec := {
  DeviceIndex : Z;
  nis_SubnetId : option string;
  Groups : list string;
  AssociatePublicIpAddress : bool
}.

Record SpotOptions := {
  SpotInstanceType : string;
  InstanceInterruptionBehavior : string
}.

Record MarketOptions := {
  MarketType : string;
  mo_SpotOptions : SpotOptions
}.

(** The keyword arguments of [run_instances]; an absent key is [None]. *)
Record LaunchParams := {
  lp_ImageId : string;
  lp_InstanceType : string;
  lp_MinCount : Z;
  lp_MaxCount : Z;
  lp_Tags : list (string * TagValue);
  lp_KeyName : option string;
  lp_IamInstanceProfile : option string;
  lp_NetworkInterfaces : option (list NetworkInterfaceSpec);
  lp_SecurityGroupIds : option (list string);
  lp_SubnetId : option (option string);
  lp_InstanceMarketOptions : option MarketOptions
}.

(** One item of [response['SpotPriceHistory']].  [SpotPrice] is what
    [float(item['SpotPrice'])] gives, [None] when [float] raises. *)
Record SpotPriceItem := {
  AvailabilityZone : string;
  SpotPrice : option price
}.

(** One element of the list returned by [get_spot_prices]. *)
Record Pool := {
  az : string;
  pool_id : string;
  pool_price : price
}.

(** ** Controller data *)

(** One element of the pending-commands response, with the keys the loop
    reads ([id], [instance_id], [target_mode]) present. *)
Record Command := {
  cmd_id : Z;
  cmd_instance_id : string;
  cmd_target_mode : string;
  cmd_target_pool_id : option string
}.

Record InstanceSnapshot := {
  is_instance_id : string;
  is_mode : option string;
  is_pool_id : option string;
  is_instance_type : string;
  is_region : string;
  is_az : string;
  is_ami_id : string
}.

Record Prices := {
  on_demand : price;
  old_spot : price;
  new_spot : price
}.

Record Timing := {
  switch_initiated_at : Z;
  new_instance_ready_at : Z;
  traffic_switched_at : Z;
  old_instance_terminated_at : option Z
}.

(** The body of a switch-report. *)
Record SwitchReport := {
  old_instance : InstanceSnapshot;
  new_instance : InstanceSnapshot;
  snapshot_used : bool;
  snapshot_id : string;
  prices : Prices;
  timing : Timing;
  trigger : string
}.

Record InstanceData := {
  id_instance_id : string;
  id_instance_type : string;
  id_region : string;
  id_az : string;
  id_ami_id : string;
  id_current_mode : option string;
  id_current_pool_id : option string
}.

(** The body of a pricing-report. *)
Record PricingReport := {
  pr_instance : InstanceData;
  pr_on_demand_price : price;
  pr_source : string;
  pr_spot_pools : list Pool
}.

(** ** The outside world *)

(** Every call the agent makes.  The first argument of a field is the
    number of calls made before this one, so an answer may depend on
    everything that happened earlier. *)
Record World := {
  (* datetime.utcnow() and datetime.now() *)
  utcnow : nat -> Z;
  now : nat -> Z;
  (* ec2.describe_instances(InstanceIds=[id]): the instances of each
     reservation; None when the call raises *)
  ec2_describe_instances : nat -> string -> option (list (list Instance));
  (* ec2.create_image(InstanceId, Name=f"{prefix}-{timestamp}", ...): the
     ImageId; None when the call raises *)
  ec2_create_image : nat -> string -> string -> Z -> option string;
  (* the image_available waiter: false when it gives up (it raises) *)
  ec2_wait_image_available : nat -> string -> bool;
  (* ec2.run_instances with the launch parameters: the InstanceId of the
     first instance; None when the call raises *)
  ec2_run_instances : nat -> LaunchParams -> option string;
  (* the instance_running waiter *)
  ec2_wait_instance_running : nat -> string -> bool;
  (* ec2.terminate_instances(InstanceIds=[id]): false when it raises *)
  ec2_terminate_instances : nat -> string -> bool;
  (* ec2.describe_spot_price_history(InstanceTypes=[t], StartTime=...) *)
  ec2_describe_spot_price_history :
    nat -> string -> Z -> option (list SpotPriceItem);
  (* pricing.get_products(instanceType, location, ...): the PriceList *)
  pricing_get_products : nat -> string -> string -> option (list (option price));
  (* PUT of the metadata token: the body of a 200 answer *)
  imds_put_token : nat -> option string;
  (* GET of a metadata path with an optional token header: the stripped
     body of a 200 answer *)
  imds_get : nat -> string -> option string -> option string;
  (* GET pending-commands: the decoded list; None when the request fails *)
  http_pending_commands : nat -> option (list Command);
  (* the three POSTs: true when raise_for_status() passes *)
  http_mark_command_executed : nat -> Z -> bool;
  http_switch_report : nat -> SwitchReport -> bool;
  http_pricing_report : nat -> PricingReport -> bool
}.

Inductive Event :=
| EUtcNow
| ENow
| ESleep (seconds : Z)
| EDescribeInstances (instance_id : string)
| ECreateImage (instance_id name_prefix : string) (timestamp : Z)
| EWaitImageAvailable (ami_id : string)
| ERunInstances (params : LaunchParams)
| EWaitInstanceRunning (instance_id : string)
| ETerminateInstances (instance_id : string)
| EDescribeSpotPriceHistory (instance_type : string) (start_time : Z)
| EGetProducts (instance_type location : string)
| EPutToken
| EGetMetadata (path : string) (token : option string)
| EGetPendingCommands
| EMarkCommandExecuted (command_id : Z)
| ESwitchReport (report : SwitchReport)
| EPricingReport (report : PricingReport).

(** ** Agent state *)

Record AgentConfig := {
  region : string;
  instance_id : string;
  instance_type : string;
  availability_zone : string;
  ami_id : string;
  ondemand_price_interval : Z;
  enabled : bool;
  auto_switch_enabled : bool;
  auto_terminate_enabled : bool
}.

Record Agent := {
  config : AgentConfig;
  token : option string;               (* metadata_client.token *)
  token_expiry : option Z;             (* metadata_client.token_expiry *)
  last_ondemand_price : option price;
  last_ondemand_fetch : option Z;
  current_mode : option string;
  current_pool_id : option string;
  switching_in_progress : bool;
  trace : list Event                   (* calls made so far, oldest first *)
}.

Definition set_config (c : AgentConfig) (s : Agent) : Agent :=
  {| config := c; token := token s; token_expiry := token_expiry s;
     last_ondemand_price := last_ondemand_price s;
     last_ondemand_fetch := last_ondemand_fetch s;
     current_mode := current_mode s; current_pool_id := current_pool_id s;
     switching_in_progress := switching_in_progress s; trace := trace s |}.

Definition set_token (t : option string) (e : option Z) (s : Agent) : Agent :=
  {| config := config s; token := t; token_expiry := e;
     last_ondemand_price := last_ondemand_price s;
     last_ondemand_fetch := last_ondemand_fetch s;
     current_mode := current_mode s; current_pool_id := current_pool_id s;
     switching_in_progress := switching_in_progress s; trace := trace s |}.

Definition set_last_ondemand (p : option price) (t : option Z) (s : Agent) : Agent :=
  {| config := config s; token := token s; token_expiry := token_expiry s;
     last_ondemand_price := p; last_ondemand_fetch := t;
     current_mode := current_mode s; current_pool_id := current_pool_id s;
     switching_in_progress := switching_in_progress s; trace := trace s |}.

Definition set_mode (m p : option string) (s : Agent) : Agent :=
  {| config := config s; token := token s; token_expiry := token_expiry s;
     last_ondemand_price := last_ondemand_price s;
     last_ondemand_fetch := last_ondemand_fetch s;
     current_mode := m; current_pool_id := p;
     switching_in_progress := switching_in_progress s; trace := trace s |}.

Definition set_switching (b : bool) (s : Agent) : Agent :=
  {| config := config s; token := token s; token_expiry := token_expiry s;
     last_ondemand_price := last_ondemand_price s;
     last_ondemand_fetch := last_ondemand_fetch s;
     current_mode := current_mode s; current_pool_id := current_pool_id s;
     switching_in_progress := b; trace := trace s |}.

Definition emit (e : Event) (s : Agent) : Agent :=
  {| config := config s; token := token s; token_expiry := token_expiry s;
     last_ondemand_price := last_ondemand_price s;
     last_ondemand_fetch := last_ondemand_fetch s;
     current_mode := current_mode s; current_pool_id := current_pool_id s;
     switching_in_progress := switching_in_progress s;
     trace := trace s ++ [e] |}.

Definition with_instance_type (t : string) (c : AgentConfig) : AgentConfig :=
  {| region := region c; instance_id := instance_id c; instance_type := t;
     availability_zone := availability_zone c; ami_id := ami_id c;
     ondemand_price_interval := ondemand_price_interval c;
     enabled := enabled c; auto_switch_enabled := auto_switch_enabled c;
     auto_terminate_enabled := auto_terminate_enabled c |}.

(** The three assignments to [self.config] of step 9 of [execute_switch]. *)
Definition rebind (new_id new_type new_az : string) (c : AgentConfig) : AgentConfig :=
  {| region := region c; instance_id := new_id; instance_type := new_type;
     availability_zone := new_az; ami_id := ami_id c;
     ondemand_price_interval := ondemand_price_interval c;
     enabled := enabled c; auto_switch_enabled := auto_switch_enabled c;
     auto_terminate_enabled := auto_terminate_enabled c |}.

(** ** The state monad of the agent *)

Definition M (A : Type) : Type := Agent -> A * Agent.

Definition ret {A} (a : A) : M A := fun s => (a, s).

Definition bind {A B} (m : M A) (k : A -> M B) : M B :=
  fun s => let (a, s') := m s in k a s'.

Definition get : M Agent := fun s => (s, s).

Definition modify (f : Agent -> Agent) : M unit := fun s => (tt, f s).

Declare Scope agent_scope.
Delimit Scope agent_scope with agent.
Notation "'let!' x ':=' m 'in' k" := (bind m (fun x => k))
  (at level 10, x name, m at level 100, k at level 200) : agent_scope.
Notation "'let!' ' p ':=' m 'in' k" := (bind m (fun p => k))
  (at level 10, p pattern, m at level 100, k at level 200) : agent_scope.
Local Open Scope agent_scope.

(** A call to the outside: ask the world at the current position of the
    trace, then record the call. *)
Definition call {A} (ask : nat -> A) (e : Event) : M A :=
  fun s => (ask (length (trace s)), emit e s).

(** [for x in xs: body(x)]. *)
Fixpoint for_each {A} (xs : list A) (body : A -> M unit) : M unit :=
  match xs with
  | [] => ret tt
  | x :: r => let! _ := body x in for_each r body
  end.

(** ** Pure parts of the resource manager *)

(** The dictionary [get_instance_details] returns for one instance. *)
Definition details_of (instance : Instance) : InstanceDetails :=
  {| d_instance_id := InstanceId instance;
     d_instance_type := InstanceType instance;
     d_state := StateName instance;
     d_lifecycle := default "normal" (InstanceLifecycle instance);
     d_az := PlacementAvailabilityZone instance;
     d_subnet_id := SubnetId instance;
     d_security_groups := SecurityGroups instance;
     d_key_name := KeyName instance;
     d_iam_instance_profile := IamInstanceProfileArn instance;
     d_tags := dict_of_list (Tags instance);
     d_network_interfaces := NetworkInterfaces instance;
     d_block_device_mappings := BlockDeviceMappings instance |}.

(** [get_current_mode], after the call to [get_instance_details]. *)
Definition mode_of (details : option InstanceDetails) : string * option string :=
  match details with
  | None => ("unknown", None)
  | Some d =>
      if String.eqb (d_lifecycle d) "spot"
      then ("spot", Some (make_pool_id (d_instance_type d) (d_az d)))
      else ("ondemand", None)
  end.

Definition spot_market_options : MarketOptions :=
  {| MarketType := "spot";
     mo_SpotOptions := {| SpotInstanceType := "persistent";
                          InstanceInterruptionBehavior := "stop" |} |}.

(** The [launch_params] dictionary of [launch_instance]; [created] is the
    clock reading that goes into the [spot-optimizer-created] tag. *)
Definition launch_params (config : LaunchConfig) (target_mode : string)
    (created : Z) : LaunchParams :=
  let with_ni :=
    match lc_network_interfaces config with
    | ni :: _ => true
    | [] => false
    end in
  {| lp_ImageId := lc_ami_id config;
     lp_InstanceType := lc_instance_type config;
     lp_MinCount := 1;
     lp_MaxCount := 1;
     lp_Tags :=
       map (fun kv => (fst kv, TagStr (snd kv))) (lc_tags config)
       ++ [("spot-optimizer-managed", TagStr "true");
           ("spot-optimizer-parent", TagStr (lc_old_instance_id config));
           ("spot-optimizer-created", TagTime created)];
     lp_KeyName :=
       if str_truthy (lc_key_name config) then lc_key_name config else None;
     lp_IamInstanceProfile :=
       if str_truthy (lc_iam_instance_profile config)
       then lc_iam_instance_profile config else None;
     lp_NetworkInterfaces :=
       match lc_network_interfaces config with
       | ni :: _ =>
           Some [{| DeviceIndex := 0;
                    nis_SubnetId := lc_subnet_id config;
                    Groups := lc_security_groups config;
                    AssociatePublicIpAddress :=
                      match ni_public_ip ni with
                      | Some _ => true
                      | None => false
                      end |}]
       | [] => None
       end;
     lp_SecurityGroupIds :=
       if with_ni then None else Some (lc_security_groups config);
     lp_SubnetId := if with_ni then None else Some (lc_subnet_id config);
     lp_InstanceMarketOptions :=
       if String.eqb target_mode "spot" then Some spot_market_options
       else None |}.

(** The [for item in response['SpotPriceHistory']] loop of
    [get_spot_prices], with its two accumulators; [None] when
    [float(item['SpotPrice'])] raises. *)
Fixpoint spot_price_loop (instance_type : string) (items : list SpotPriceItem)
    (pools : list Pool) (seen_azs : gset string) : option (list Pool) :=
  match items with
  | [] => Some pools
  | item :: rest =>
      let az := AvailabilityZone item in
      if bool_decide (az ∈ seen_azs)
      then spot_price_loop instance_type rest pools seen_azs
      else
        match SpotPrice item with
        | None => None
        | Some p =>
            spot_price_loop instance_type rest
              (pools ++ [{| az := az;
                            pool_id := make_pool_id instance_type az;
                            pool_price := p |}])
              ({[az]} ∪ seen_azs)
        end
  end.

(** What [get_spot_prices] returns for a response ([None]: the call raised). *)
Definition spot_pools_of (instance_type : string)
    (response : option (list SpotPriceItem)) : list Pool :=
  match response with
  | None => []
  | Some items => default [] (spot_price_loop instance_type items [] ∅)
  end.

Definition region_map : dict string :=
  [("us-east-1", "US East (N. Virginia)");
   ("us-west-2", "US West (Oregon)");
   ("ap-south-1", "Asia Pacific (Mumbai)");
   ("eu-west-1", "EU (Ireland)");
   ("us-east-2", "US East (Ohio)");
   ("ap-southeast-1", "Asia Pacific (Singapore)")].

(** [region_map.get(self.region, self.region)]. *)
Definition location_of (region : string) : string :=
  default region (dict_get region_map region).

(** What [get_ondemand_price] returns for a response.  An element of
    [PriceList] is the price its JSON holds, [None] when decoding it
    raises. *)
Definition ondemand_price_of (response : option (list (option price)))
    : option price :=
  match response with
  | Some (Some p :: _) => Some p
  | _ => None
  end.

(** The sample price of [execute_switch], step 6:
    [0.0] unless the mode is ['spot'] and the pool is listed. *)
Definition spot_price_for (mode pool : option string) (spot_pools : list Pool)
    : price :=
  match mode, pool with
  | Some m, Some (String c r) =>
      if String.eqb m "spot" then
        match find (fun p => String.eqb (pool_id p) (String c r)) spot_pools with
        | Some p => pool_price p
        | None => 0%float
        end
      else 0%float
  | _, _ => 0%float
  end.

(** [target_mode = 'spot' if cmd['target_mode'] == 'pool' else cmd['target_mode']]. *)
Definition normalize_target_mode (target_mode : string) : string :=
  if String.eqb target_mode "pool" then "spot" else target_mode.

(** Seconds to microseconds. *)
Definition seconds (n : Z) : Z := n * 1000000.

(** The local variables of [execute_switch] at step 7. *)
Record SwitchLocals := {
  sl_old_instance_id : string;
  sl_old_mode : option string;
  sl_old_pool_id : option string;
  sl_instance_details : InstanceDetails;
  sl_ami_id : string;
  sl_timing_start : Z;
  sl_new_instance_id : string;
  sl_timing_ready : Z;
  sl_new_details : InstanceDetails;
  sl_new_mode : string;
  sl_new_pool_id : option string;
  sl_on_demand_price : price;
  sl_old_spot_price : price;
  sl_new_spot_price : price
}.

(** The arguments of [report_switch_event] in step 8. *)
Definition switch_report_of (l : SwitchLocals) (c : AgentConfig)
    (timing_switched : Z) (timing_terminated : option Z) (trigger : string)
    : SwitchReport :=
  {| old_instance :=
       {| is_instance_id := sl_old_instance_id l;
          is_mode := sl_old_mode l;
          is_pool_id := sl_old_pool_id l;
          is_instance_type := d_instance_type (sl_instance_details l);
          is_region := region c;
          is_az := d_az (sl_instance_details l);
          is_ami_id :=
            default (ami_id c)
                    (dict_get (d_tags (sl_instance_details l)) "ami-id") |};
     new_instance :=
       {| is_instance_id := sl_new_instance_id l;
          is_mode := Some (sl_new_mode l);
          is_pool_id := sl_new_pool_id l;
          is_instance_type := d_instance_type (sl_new_details l);
          is_region := region c;
          is_az := d_az (sl_new_details l);
          is_ami_id := sl_ami_id l |};
     snapshot_used := true;
     snapshot_id := sl_ami_id l;
     prices := {| on_demand := sl_on_demand_price l;
                  old_spot := sl_old_spot_price l;
                  new_spot := sl_new_spot_price l |};
     timing := {| switch_initiated_at := sl_timing_start l;
                  new_instance_ready_at := sl_timing_ready l;
                  traffic_switched_at := timing_switched;
                  old_instance_terminated_at := timing_terminated |};
     trigger := trigger |}.

(** The five assignments of step 9. *)
Definition rebind_agent (l : SwitchLocals) (s : Agent) : Agent :=
  set_mode (Some (sl_new_mode l)) (sl_new_pool_id l)
    (set_config
       (rebind (sl_new_instance_id l)
               (d_instance_type (sl_new_details l))
               (d_az (sl_new_details l)) (config s)) s).

(** ** The agent *)

Section Agent.

Context (w : World).

(** *** AWSMetadataClient *)

Definition _get_token : M (option string) :=
  let! s := get in
  let! cached :=
    match token s, token_expiry s with
    | Some (String c r), Some expiry =>
        let! t := call (now w) ENow in
        ret (if (t <? expiry)%Z then Some (String c r) else None)
    | _, _ => ret None
    end in
  match cached with
  | Some t => ret (Some t)
  | None =>
      let! response := call (imds_put_token w) EPutToken in
      match response with
      | Some text =>
          let! t := call (now w) ENow in
          let! _ := modify (set_token (Some text) (Some (t + seconds 21600))) in
          ret (Some text)
      | None => ret None
      end
  end.

Definition _fetch_metadata (path : string) : M (option string) :=
  let! token := _get_token in
  let header := if str_truthy token then token else None in
  call (fun n => imds_get w n path header) (EGetMetadata path header).

Definition get_instance_type : M (option string) :=
  _fetch_metadata "instance-type".

(** *** AWSResourceManager *)

Definition get_instance_details (instance_id : string)
    : M (option InstanceDetails) :=
  let! response :=
    call (fun n => ec2_describe_instances w n instance_id)
         (EDescribeInstances instance_id) in
  ret match response with
      | Some ((instance :: _) :: _) => Some (details_of instance)
      | _ => None
      end.

Definition get_current_mode (instance_id : string)
    : M (string * option string) :=
  let! details := get_instance_details instance_id in
  ret (mode_of details).

Definition create_ami_from_instance (instance_id name_prefix : string)
    : M (option string) :=
  let! timestamp := call (utcnow w) EUtcNow in
  let! response :=
    call (fun n => ec2_create_image w n instance_id name_prefix timestamp)
         (ECreateImage instance_id name_prefix timestamp) in
  match response with
  | None => ret None
  | Some ami_id =>
      let! available :=
        call (fun n => ec2_wait_image_available w n ami_id)
             (EWaitImageAvailable ami_id) in
      ret (if available then Some ami_id else None)
  end.

Definition launch_instance (config : LaunchConfig) (target_mode : string)
    (target_pool_id : option string) : M (option string) :=
  let! created := call (utcnow w) EUtcNow in
  let params := launch_params config target_mode created in
  let! response :=
    call (fun n => ec2_run_instances w n params) (ERunInstances params) in
  match response with
  | None => ret None
  | Some new_instance_id =>
      let! running :=
        call (fun n => ec2_wait_instance_running w n new_instance_id)
             (EWaitInstanceRunning new_instance_id) in
      ret (if running then Some new_instance_id else None)
  end.

Definition terminate_instance (instance_id : string) : M bool :=
  call (fun n => ec2_terminate_instances w n instance_id)
       (ETerminateInstances instance_id).

Definition get_spot_prices (instance_type : string) : M (list Pool) :=
  let! t := call (utcnow w) EUtcNow in
  let start_time := t - seconds 300 in
  let! response :=
    call (fun n => ec2_describe_spot_price_history w n instance_type start_time)
         (EDescribeSpotPriceHistory instance_type start_time) in
  ret (spot_pools_of instance_type response).

Definition get_ondemand_price (instance_type : string) : M (option price) :=
  let! s := get in
  let location := location_of (region (config s)) in
  let! response :=
    call (fun n => pricing_get_products w n instance_type location)
         (EGetProducts instance_type location) in
  ret (ondemand_price_of response).

(** *** CentralServerClient *)

Definition get_pending_commands : M (list Command) :=
  let! response := call (http_pending_commands w) EGetPendingCommands in
  ret (default [] response).

Definition mark_command_executed (command_id : Z) : M bool :=
  call (fun n => http_mark_command_executed w n command_id)
       (EMarkCommandExecuted command_id).

Definition report_switch_event (report : SwitchReport) : M bool :=
  call (fun n => http_switch_report w n report) (ESwitchReport report).

Definition send_pricing_report (report : PricingReport) : M bool :=
  call (fun n => http_pricing_report w n report) (EPricingReport report).

(** *** SpotOptimizerAgent *)

(** The first [if] of [_get_ondemand_price]: the cached price when there
    is one and it is fresh. *)
Definition cached_ondemand_price : M (option price) :=
  let! s := get in
  match last_ondemand_price s, last_ondemand_fetch s with
  | Some p, Some fetched =>
      if price_truthy p then
        let! t := call (utcnow w) EUtcNow in
        ret (if (t - fetched <? seconds (ondemand_price_interval (config s)))%Z
             then Some p else None)
      else ret None
  | _, _ => ret None
  end.

Definition _get_ondemand_price : M price :=
  let! cached := cached_ondemand_price in
  match cached with
  | Some p => ret p
  | None =>
      let! s := get in
      let! price := get_ondemand_price (instance_type (config s)) in
      let! _ :=
        if opt_price_truthy price then
          let! t := call (utcnow w) EUtcNow in
          modify (set_last_ondemand price (Some t))
        else ret tt in
      let! s' := get in
      ret (if opt_price_truthy (last_ondemand_price s')
           then default placeholder_price (last_ondemand_price s')
           else placeholder_price)
  end.

(** Step 7 of [execute_switch]. *)
Definition terminate_old (old_instance_id : string) : M (option Z) :=
  let! s := get in
  if auto_terminate_enabled (config s) then
    let! terminate_success := terminate_instance old_instance_id in
    if terminate_success then
      let! t := call (utcnow w) EUtcNow in
      ret (Some t)
    else ret None
  else ret None.

(** Steps 1 to 6 of [execute_switch]: the local variables that are live
    at step 7, or [None] where the source returns [False]. *)
Definition switch_gather (target_mode : string)
    (target_pool_id : option string) : M (option SwitchLocals) :=
  let! s0 := get in
  let old_instance_id := instance_id (config s0) in
  let old_mode := current_mode s0 in
  let old_pool_id := current_pool_id s0 in
  (* Step 1 *)
  let! instance_details := get_instance_details old_instance_id in
  match instance_details with
  | None => ret None
  | Some instance_details =>
  (* Step 2 *)
  let! ami :=
    create_ami_from_instance old_instance_id
      ("spot-optimizer-" ++ old_instance_id) in
  match ami with
  | None | Some EmptyString => ret None
  | Some ami =>
  (* Step 3 *)
  let launch_config :=
    {| lc_ami_id := ami;
       lc_instance_type := d_instance_type instance_details;
       lc_key_name := d_key_name instance_details;
       lc_security_groups := d_security_groups instance_details;
       lc_subnet_id := d_subnet_id instance_details;
       lc_iam_instance_profile := d_iam_instance_profile instance_details;
       lc_tags := d_tags instance_details;
       lc_network_interfaces := d_network_interfaces instance_details;
       lc_old_instance_id := old_instance_id |} in
  (* Step 4 *)
  let! timing_start := call (utcnow w) EUtcNow in
  let! new_instance_id :=
    launch_instance launch_config target_mode target_pool_id in
  match new_instance_id with
  | None | Some EmptyString => ret None
  | Some new_instance_id =>
  let! timing_ready := call (utcnow w) EUtcNow in
  (* Step 5 *)
  let! _ := call (fun _ => tt) (ESleep 5) in
  let! new_details := get_instance_details new_instance_id in
  match new_details with
  | None => ret None
  | Some new_details =>
  let! new_mode := get_current_mode new_instance_id in
  (* Step 6 *)
  let! on_demand_price := _get_ondemand_price in
  let! s1 := get in
  let! spot_pools := get_spot_prices (instance_type (config s1)) in
  ret (Some
    {| sl_old_instance_id := old_instance_id;
       sl_old_mode := old_mode;
       sl_old_pool_id := old_pool_id;
       sl_instance_details := instance_details;
       sl_ami_id := ami;
       sl_timing_start := timing_start;
       sl_new_instance_id := new_instance_id;
       sl_timing_ready := timing_ready;
       sl_new_details := new_details;
       sl_new_mode := fst new_mode;
       sl_new_pool_id := snd new_mode;
       sl_on_demand_price := on_demand_price;
       sl_old_spot_price := spot_price_for old_mode old_pool_id spot_pools;
       sl_new_spot_price :=
         spot_price_for (Some (fst new_mode)) (snd new_mode) spot_pools |})
  end end end end.

(** The [try] block of [execute_switch]. *)
Definition switch_steps (target_mode : string) (target_pool_id : option string)
    (trigger : string) : M bool :=
  let! locals := switch_gather target_mode target_pool_id in
  match locals with
  | None => ret false
  | Some l =>
      (* Step 7 *)
      let! timing_switched := call (utcnow w) EUtcNow in
      let! timing_terminated := terminate_old (sl_old_instance_id l) in
      (* Step 8 *)
      let! s := get in
      let! report_success :=
        report_switch_event
          (switch_report_of l (config s) timing_switched timing_terminated
             trigger) in
      (* Step 9 *)
      let! _ := modify (rebind_agent l) in
      ret true
  end.

Definition execute_switch (target_mode : string)
    (target_pool_id : option string) (trigger : string) : M bool :=
  let! s := get in
  if switching_in_progress s then ret false
  else
    let! _ := modify (set_switching true) in
    let! result := switch_steps target_mode target_pool_id trigger in
    let! _ := modify (set_switching false) in
    ret result.

(** The body of [for cmd in commands] in [_command_processor_loop]. *)
Definition process_command (cmd : Command) : M unit :=
  let! s := get in
  if String.eqb (cmd_instance_id cmd) (instance_id (config s)) then
    let target_mode := normalize_target_mode (cmd_target_mode cmd) in
    let! success :=
      execute_switch target_mode (cmd_target_pool_id cmd) "manual" in
    let! _ := mark_command_executed (cmd_id cmd) in
    ret tt
  else ret tt.

(** One turn of the [while] loop of [_command_processor_loop], without the
    final wait. *)
Definition command_tick : M unit :=
  let! s := get in
  if negb (enabled (config s)) || negb (auto_switch_enabled (config s))
  then ret tt
  else if switching_in_progress s then ret tt
  else
    let! commands := get_pending_commands in
    for_each commands process_command.

(** One turn of [_spot_price_monitor], without the final wait. *)
Definition spot_price_tick : M unit :=
  let! current_type := get_instance_type in
  let! s := get in
  let! _ :=
    if str_truthy current_type
       && negb (String.eqb (default "" current_type) (instance_type (config s)))
    then modify (set_config
                   (with_instance_type (default "" current_type) (config s)))
    else ret tt in
  let! s := get in
  let! spot_pools := get_spot_prices (instance_type (config s)) in
  match spot_pools with
  | [] => ret tt
  | _ :: _ =>
      let! on_demand_price := _get_ondemand_price in
      let! s := get in
      let! '(mode, pool) := get_current_mode (instance_id (config s)) in
      let! _ := modify (set_mode (Some mode) pool) in
      let! s := get in
      let! success :=
        send_pricing_report
          {| pr_instance :=
               {| id_instance_id := instance_id (config s);
                  id_instance_type := instance_type (config s);
                  id_region := region (config s);
                  id_az := availability_zone (config s);
                  id_ami_id := ami_id (config s);
                  id_current_mode := current_mode s;
                  id_current_pool_id := current_pool_id s |};
             pr_on_demand_price := on_demand_price;
             pr_source := "api";
             pr_spot_pools := spot_pools |} in
      ret tt
  end.

(** One turn of [_ondemand_price_monitor], without the final wait. *)
Definition ondemand_price_tick : M unit :=
  let! s := get in
  let! price := get_ondemand_price (instance_type (config s)) in
  if opt_price_truthy price then
    let! t := call (utcnow w) EUtcNow in
    modify (set_last_ondemand price (Some t))
  else ret tt.

End Agent.

(** ** Threads entering [execute_switch]

    The sequential functions above say what one call does.  What several
    threads calling [execute_switch] can do to [switch_lock] and
    [switching_in_progress] is a transition system: one transition per
    read or write of the two, interleaved in any order.  Thread names are
    numbers. *)

Module Threads.

(** Where a thread is in [execute_switch]. *)
Inductive pc :=
| Outside               (* not in a call *)
| Waiting               (* at [with self.switch_lock], lock not yet held *)
| Testing               (* lock held, about to read the flag *)
| Rejecting             (* lock held, read True, about to [return False] *)
| Setting               (* lock held, read False, about to write True *)
| Leaving               (* lock held, flag written, about to release *)
| Migrating (n : nat)   (* in the [try] block, [n] steps done *)
| Clearing (r : bool)   (* in [finally], result [r], about to write False *)
| Returned (r : bool).  (* back at the caller with [r] *)

Record system := {
  lock : option nat;    (* the holder of [switch_lock] *)
  flag : bool;          (* [switching_in_progress] *)
  pcs : nat -> pc
}.

Definition initial : system :=
  {| lock := None; flag := false; pcs := fun _ => Outside |}.

Definition move (t : nat) (p : pc) (l : option nat) (f : bool) (σ : system)
    : system :=
  {| lock := l; flag := f; pcs := <[t := p]> (pcs σ) |}.

Inductive step : system -> system -> Prop :=
| step_call t σ :
    pcs σ t = Outside ->
    step σ (move t Waiting (lock σ) (flag σ) σ)
| step_acquire t σ :
    pcs σ t = Waiting -> lock σ = None ->
    step σ (move t Testing (Some t) (flag σ) σ)
| step_test t σ :
    pcs σ t = Testing ->
    step σ (move t (if flag σ then Rejecting else Setting) (lock σ) (flag σ) σ)
| step_reject t σ :
    pcs σ t = Rejecting ->
    step σ (move t (Returned false) None (flag σ) σ)
| step_set t σ :
    pcs σ t = Setting ->
    step σ (move t Leaving (lock σ) true σ)
| step_release t σ :
    pcs σ t = Leaving ->
    step σ (move t (Migrating 0) None (flag σ) σ)
| step_migrate t n σ :
    pcs σ t = Migrating n ->
    step σ (move t (Migrating (S n)) (lock σ) (flag σ) σ)
| step_finish t n r σ :
    pcs σ t = Migrating n ->
    step σ (move t (Clearing r) (lock σ) (flag σ) σ)
| step_clear t r σ :
    pcs σ t = Clearing r ->
    step σ (move t (Returned r) (lock σ) false σ)
| step_return t r σ :
    pcs σ t = Returned r ->
    step σ (move t Outside (lock σ) (flag σ) σ).

Definition reachable (σ : system) : Prop := rtc step initial σ.

(** The thread is inside the migration engine proper. *)
Definition in_engine (p : pc) : bool :=
  match p with
  | Migrating _ | Clearing _ => true
  | _ => false
  end.

(** The thread is between its write of True and its write of False. *)
Definition owns_flag (p : pc) : bool :=
  match p with
  | Leaving | Migrating _ | Clearing _ => true
  | _ => false
  end.

Definition holds_lock (p : pc) : bool :=
  match p with
  | Testing | Rejecting | Setting | Leaving => true
  | _ => false
  end.

Record invariant (σ : system) : Prop := {
  inv_lock : forall t, holds_lock (pcs σ t) = true <-> lock σ = Some t;
  inv_owner : forall t1 t2,
    owns_flag (pcs σ t1) = true -> owns_flag (pcs σ t2) = true -> t1 = t2;
  inv_flag : flag σ = true <-> exists t, owns_flag (pcs σ t) = true;
  inv_setting : forall t, pcs σ t = Setting -> flag σ = false
}.

End Threads.

(** ** Acknowledgements of one command-drain turn *)

(** The command ids of the [mark_command_executed] calls among [evs]. *)
Definition acks (evs : list Event) : list Z :=
  flat_map (fun e =>
    match e with
    | EMarkCommandExecuted i => [i]
    | _ => []
    end) evs.

(** The switch-reports among [evs]. *)
Definition reports (evs : list Event) : list SwitchReport :=
  flat_map (fun e =>
    match e with
    | ESwitchReport r => [r]
    | _ => []
    end) evs.

(** The command is addressed to the instance the agent describes now. *)
Definition addressed (c : Command) (s : Agent) : bool :=
  String.eqb (cmd_instance_id c) (instance_id (config s)).

(** The ids of the commands of [cmds] that are addressed to the agent at
    the moment the loop reaches them, the agent starting in [s]. *)
Fixpoint acknowledged (w : World) (cmds : list Command) (s : Agent) : list Z :=
  match cmds with
  | [] => []
  | c :: rest =>
      (if addressed c s then [cmd_id c] else [])
      ++ acknowledged w rest (snd (process_command w c s))
  end.

(** The report [r] with another termination time stamp. *)
Definition with_terminated (t : option Z) (r : SwitchReport) : SwitchReport :=
  {| old_instance := old_instance r;
     new_instance := new_instance r;
     snapshot_used := snapshot_used r;
     snapshot_id := snapshot_id r;
     prices := prices r;
     timing := {| switch_initiated_at := switch_initiated_at (timing r);
                  new_instance_ready_at := new_instance_ready_at (timing r);
                  traffic_switched_at := traffic_switched_at (timing r);
                  old_instance_terminated_at := t |};
     trigger := trigger r |}.

Definition with_auto_terminate (b : bool) (c : AgentConfig) : AgentConfig :=
  {| region := region c; instance_id := instance_id c;
     instance_type := instance_type c;
     availability_zone := availability_zone c; ami_id := ami_id c;
     ondemand_price_interval := ondemand_price_interval c;
     enabled := enabled c; auto_switch_enabled := auto_switch_enabled c;
     auto_terminate_enabled := b |}.

Definition set_auto_terminate (b : bool) (s : Agent) : Agent :=
  set_config (with_auto_terminate b (config s)) s.

(** The clock never runs backwards from one reading to a later one. *)
Definition monotone_clock (w : World) : Prop :=
  forall i j : nat, (i <= j)%nat -> utcnow w i <= utcnow w j.

(** ** A scripted world

    A controller and a cloud for the scenarios: two zones of [m5.large],
    instance [i-A] (reclaimable unless [old_fixed]) whose image becomes
    [ami-1] and whose successor is [i-B]; the successor is reclaimable
    exactly when market options were asked for. *)

Definition instance_A (old_fixed : bool) : Instance :=
  {| InstanceId := "i-A";
     InstanceType := "m5.large";
     StateName := "running";
     InstanceLifecycle := if old_fixed then None else Some "spot";
     PlacementAvailabilityZone := "ap-south-1a";
     SubnetId := Some "subnet-1";
     SecurityGroups := ["sg-1"];
     KeyName := Some "key";
     IamInstanceProfileArn := None;
     Tags := [("Name", "worker")];
     NetworkInterfaces := [{| ni_public_ip := Some "203.0.113.7" |}];
     BlockDeviceMappings := [] |}.

Definition instance_B (spot : bool) (zone : string) : Instance :=
  {| InstanceId := "i-B";
     InstanceType := "m5.large";
     StateName := "running";
     InstanceLifecycle := if spot then Some "spot" else None;
     PlacementAvailabilityZone := zone;
     SubnetId := Some "subnet-1";
     SecurityGroups := ["sg-1"];
     KeyName := Some "key";
     IamInstanceProfileArn := None;
     Tags := [("Name", "worker")];
     NetworkInterfaces := [];
     BlockDeviceMappings := [] |}.

Definition demo_history : list SpotPriceItem :=
  [ {| AvailabilityZone := "ap-south-1a"; SpotPrice := Some 0.03125%float |};
    {| AvailabilityZone := "ap-south-1b"; SpotPrice := Some 0.046875%float |};
    {| AvailabilityZone := "ap-south-1a"; SpotPrice := Some 0.0625%float |} ].

Record Script := {
  old_fixed : bool;                 (* the predecessor is a fixed lease *)
  successor_spot : bool;            (* the successor comes up reclaimable *)
  successor_zone : string;
  image_available : bool;           (* the image reaches "available" *)
  catalog : option (list (option price));
  queued : list Command
}.

Definition scripted (sc : Script) : World :=
  {| utcnow := fun n => seconds (Z.of_nat n);
     now := fun n => seconds (Z.of_nat n);
     ec2_describe_instances := fun _ id =>
       if String.eqb id "i-A" then Some [[instance_A (old_fixed sc)]]
       else if String.eqb id "i-B"
       then Some [[instance_B (successor_spot sc) (successor_zone sc)]]
       else Some [];
     ec2_create_image := fun _ _ _ _ => Some "ami-1";
     ec2_wait_image_available := fun _ _ => image_available sc;
     ec2_run_instances := fun _ _ => Some "i-B";
     ec2_wait_instance_running := fun _ _ => true;
     ec2_terminate_instances := fun _ _ => true;
     ec2_describe_spot_price_history := fun _ _ _ => Some demo_history;
     pricing_get_products := fun _ _ _ => catalog sc;
     imds_put_token := fun _ => Some "token";
     imds_get := fun _ path _ =>
       if String.eqb path "instance-type" then Some "m5.large" else None;
     http_pending_commands := fun _ => Some (queued sc);
     http_mark_command_executed := fun _ _ => true;
     http_switch_report := fun _ _ => true;
     http_pricing_report := fun _ _ => true |}.

Definition demo_config (id : string) (terminate : bool) : AgentConfig :=
  {| region := "ap-south-1";
     instance_id := id;
     instance_type := "m5.large";
     availability_zone := "ap-south-1a";
     ami_id := "ami-0";
     ondemand_price_interval := 3600;
     enabled := true;
     auto_switch_enabled := true;
     auto_terminate_enabled := terminate |}.

Definition demo_agent (id : string) (mode pool : option string)
    (terminate : bool) : Agent :=
  {| config := demo_config id terminate;
     token := None;
     token_expiry := None;
     last_ondemand_price := None;
     last_ondemand_fetch := None;
     current_mode := mode;
     current_pool_id := pool;
     switching_in_progress := false;
     trace := [] |}.

(** Scenario 1: reclaimable to fixed. *)
Definition script1 : Script :=
  {| old_fixed := false; successor_spot := false;
     successor_zone := "ap-south-1a"; image_available := true;
     catalog := Some [Some 0.09375%float];
     queued := [ {| cmd_id := 7; cmd_instance_id := "i-A";
                    cmd_target_mode := "ondemand";
                    cmd_target_pool_id := None |} ] |}.

Definition agent1 : Agent :=
  demo_agent "i-A" (Some "spot") (Some "m5.large_apsouth1a") true.

(** Scenario 2: fixed to reclaimable, with the legacy token. *)
Definition script2 : Script :=
  {| old_fixed := true; successor_spot := true;
     successor_zone := "ap-south-1b"; image_available := true;
     catalog := Some [Some 0.09375%float];
     queued := [ {| cmd_id := 8; cmd_instance_id := "i-A";
                    cmd_target_mode := "pool";
                    cmd_target_pool_id := Some "m5.large_apsouth1b" |} ] |}.

Definition agent2 : Agent := demo_agent "i-A" (Some "ondemand") None true.

(** Scenario 3: as scenario 1, auto-terminate disabled. *)
Definition agent3 : Agent :=
  demo_agent "i-A" (Some "spot") (Some "m5.large_apsouth1a") false.

(** Scenario 4: a stale command. *)
Definition script4 : Script :=
  {| old_fixed := false; successor_spot := false;
     successor_zone := "ap-south-1a"; image_available := true;
     catalog := Some [Some 0.09375%float];
     queued := [ {| cmd_id := 9; cmd_instance_id := "i-OLD";
                    cmd_target_mode := "ondemand";
                    cmd_target_pool_id := None |} ] |}.

Definition agent4 : Agent := demo_agent "i-X" (Some "ondemand") None true.

(** Scenario 5: the image never becomes available. *)
Definition script5 : Script :=
  {| old_fixed := false; successor_spot := false;
     successor_zone := "ap-south-1a"; image_available := false;
     catalog := Some [Some 0.09375%float];
     queued := queued script1 |}.

(** Scenario 1 with a price catalog that cannot be reached. *)
Definition script_no_catalog : Script :=
  {| old_fixed := false; successor_spot := false;
     successor_zone := "ap-south-1a"; image_available := true;
     catalog := None;
     queued := queued script1 |}.

(** [p] is the sample of the first item of [items] quoted for its zone. *)
Definition first_sample (items : list SpotPriceItem) (p : Pool) : Prop :=
  exists (before : list SpotPriceItem) item after,
    items = (before ++ item :: after)%list
    /\ AvailabilityZone item = az p
    /\ SpotPrice item = Some (pool_price p)
    /\ Forall (fun it => AvailabilityZone it <> az p) before.

(** The sample is named after the instance type and its own zone. *)
Definition well_named (instance_type : string) (p : Pool) : Prop :=
  pool_id p = make_pool_id instance_type (az p).

(** ** Runs that leave the identity alone *)

(** [s'] is [s] after some calls, all in [P], with the same
    configuration, lease class, pool and in-progress flag. *)
Definition quiet (P : Event -> Prop) (s s' : Agent) : Prop :=
  config s' = config s
  /\ current_mode s' = current_mode s
  /\ current_pool_id s' = current_pool_id s
  /\ switching_in_progress s' = switching_in_progress s
  /\ exists evs, trace s' = (trace s ++ evs)%list /\ Forall P evs.

Definition local (P : Event -> Prop) {A} (m : M A) : Prop :=
  forall s, quiet P s (snd (m s)).

(** The calls of steps 1 and 2. *)
Definition snapshot_event (e : Event) : Prop :=
  match e with
  | EUtcNow | EDescribeInstances _ | ECreateImage _ _ _
  | EWaitImageAvailable _ => True
  | _ => False
  end.

(** The calls of steps 1 to 6, launching under [target_mode]. *)
Definition gather_event (target_mode : string) (e : Event) : Prop :=
  match e with
  | EUtcNow | ESleep _ | EDescribeInstances _ | ECreateImage _ _ _
  | EWaitImageAvailable _ | EWaitInstanceRunning _
  | EDescribeSpotPriceHistory _ _ | EGetProducts _ _ => True
  | ERunInstances p => exists lc t, p = launch_params lc target_mode t
  | _ => False
  end.

(** The calls of step 7. *)
Definition terminate_event (e : Event) : Prop :=
  match e with
  | ETerminateInstances _ | EUtcNow => True
  | _ => False
  end.

(** The calls of one [execute_switch]. *)
Definition switch_event (target_mode : string) (e : Event) : Prop :=
  match e with
  | ETerminateInstances _ | ESwitchReport _ => True
  | _ => gather_event target_mode e
  end.

(** The call does not look at [auto_terminate_enabled]. *)
Definition oblivious {A} (m : M A) : Prop :=
  forall b s, m (set_auto_terminate b s)
              = (fst (m s), set_auto_terminate b (snd (m s))).

(** The cached fixed price [p] is fresh: it is a price, and it was fetched
    less than [ondemand_price_interval] seconds before the clock reading
    that [_get_ondemand_price] is about to take. *)
Definition fresh_cache (w : World) (s : Agent) (p : price) : Prop :=
  last_ondemand_price s = Some p
  /\ price_truthy p = true
  /\ exists fetched,
       last_ondemand_fetch s = Some fetched
       /\ utcnow w (length (trace s)) - fetched
          < seconds (ondemand_price_interval (config s)).

(** The pricing reports among [evs]. *)
Definition pricing_reports (evs : list Event) : list PricingReport :=
  flat_map (fun e =>
    match e with
    | EPricingReport r => [r]
    | _ => []
    end) evs.

(** A cached fixed price is never zero. *)
Definition cache_truthy (s : Agent) : Prop :=
  forall p, last_ondemand_price s = Some p -> price_truthy p = true.

Definition keeps_cache {A} (m : M A) : Prop :=
  forall s, cache_truthy s -> cache_truthy (snd (m s)).

(** ** Startup, heartbeat and shutdown

    The rest of [AWSMetadataClient], [CentralServerClient] and
    [SpotOptimizerAgent].  These functions read and write fields of
    [AgentConfig] that the migration engine never looks at, and call the
    controller and the host in ways of their own; both are kept in
    [Supervisor], around the [Agent]. *)

(** [s.startswith(p)]. *)
Fixpoint startswith (p s : string) : bool :=
  match p with
  | EmptyString => true
  | String c p' =>
      match s with
      | EmptyString => false
      | String d s' => Ascii.eqb c d && startswith p' s'
      end
  end.

(** The [json=data] of [register_agent]. *)
Record RegisterRequest := {
  rq_client_token : string;
  rq_hostname : string;
  rq_instance_id : string;
  rq_instance_type : string;
  rq_region : string;
  rq_az : string;
  rq_ami_id : string;
  rq_agent_version : string
}.

(** The keys [register_agent] and [_heartbeat_loop] read in a flags
    object; an absent key is [None]. *)
Record ConfigResponse := {
  cf_enabled : option bool;
  cf_auto_switch_enabled : option bool;
  cf_auto_terminate_enabled : option bool
}.

(** The answer to a registration: [result['agent_id']], absent when the
    key is, and [result.get('config', {})]. *)
Record RegisterResponse := {
  rs_agent_id : option string;
  rs_config : ConfigResponse
}.

(** The calls of the supervisor that are not in [World]; the first
    argument counts all calls made so far, of either kind. *)
Record Host := {
  (* socket.gethostname() *)
  socket_gethostname : nat -> string;
  (* AWSResourceManager(region): false when a client cannot be built *)
  boto3_clients : nat -> string -> bool;
  (* POST register: the decoded answer; None when the request fails *)
  http_register : nat -> RegisterRequest -> option RegisterResponse;
  (* POST heartbeat with status and monitored instances *)
  http_heartbeat : nat -> string -> list string -> bool;
  (* GET config: the decoded flags object; None when the request fails *)
  http_get_config : nat -> option ConfigResponse
}.

Inductive ControlEvent :=
| CGetHostname
| CBoto3Clients (region : string)
| CRegister (request : RegisterRequest)
| CHeartbeat (status : string) (monitored_instances : list string)
| CGetConfig.

Record Supervisor := {
  agent : Agent;
  client_token : string;     (* config.client_token *)
  hostname : string;         (* config.hostname *)
  agent_id : string;         (* config.agent_id *)
  is_ec2 : bool;             (* config.is_ec2 *)
  control : list ControlEvent
}.

Definition set_agent (a : Agent) (sv : Supervisor) : Supervisor :=
  {| agent := a; client_token := client_token sv; hostname := hostname sv;
     agent_id := agent_id sv; is_ec2 := is_ec2 sv; control := control sv |}.

Definition set_hostname (h : string) (sv : Supervisor) : Supervisor :=
  {| agent := agent sv; client_token := client_token sv; hostname := h;
     agent_id := agent_id sv; is_ec2 := is_ec2 sv; control := control sv |}.

Definition set_agent_id (i : string) (sv : Supervisor) : Supervisor :=
  {| agent := agent sv; client_token := client_token sv;
     hostname := hostname sv; agent_id := i; is_ec2 := is_ec2 sv;
     control := control sv |}.

Definition set_is_ec2 (b : bool) (sv : Supervisor) : Supervisor :=
  {| agent := agent sv; client_token := client_token sv;
     hostname := hostname sv; agent_id := agent_id sv; is_ec2 := b;
     control := control sv |}.

Definition record_control (e : ControlEvent) (sv : Supervisor) : Supervisor :=
  {| agent := agent sv; client_token := client_token sv;
     hostname := hostname sv; agent_id := agent_id sv; is_ec2 := is_ec2 sv;
     control := control sv ++ [e] |}.

(** The three flags, each replaced where the flags object has the key. *)
Definition with_flags (c : ConfigResponse) (dflt : AgentConfig -> bool -> bool)
    (cfg : AgentConfig) : AgentConfig :=
  {| region := region cfg; instance_id := instance_id cfg;
     instance_type := instance_type cfg;
     availability_zone := availability_zone cfg; ami_id := ami_id cfg;
     ondemand_price_interval := ondemand_price_interval cfg;
     enabled := default (dflt cfg (enabled cfg)) (cf_enabled c);
     auto_switch_enabled :=
       default (dflt cfg (auto_switch_enabled cfg)) (cf_auto_switch_enabled c);
     auto_terminate_enabled :=
       default (dflt cfg (auto_terminate_enabled cfg))
               (cf_auto_terminate_enabled c) |}.

(** The four assignments of [initialize] from the metadata; a [None] is
    kept as the empty string, which is as falsy. *)
Definition with_identity (id type az ami : option string) (cfg : AgentConfig)
    : AgentConfig :=
  {| region := region cfg; instance_id := default "" id;
     instance_type := default "" type;
     availability_zone := default "" az; ami_id := default "" ami;
     ondemand_price_interval := ondemand_price_interval cfg;
     enabled := enabled cfg; auto_switch_enabled := auto_switch_enabled cfg;
     auto_terminate_enabled := auto_terminate_enabled cfg |}.

(** How [initialize], [run] and [main] end: the threads are started, or
    the process exits with a code. *)
Inductive Startup :=
| Started
| Exited (code : Z).

Definition SM (A : Type) : Type := Supervisor -> A * Supervisor.

Definition sret {A} (a : A) : SM A := fun sv => (a, sv).

Definition sbind {A B} (m : SM A) (k : A -> SM B) : SM B :=
  fun sv => let (a, sv') := m sv in k a sv'.

Definition sget : SM Supervisor := fun sv => (sv, sv).

Definition smodify (f : Supervisor -> Supervisor) : SM unit :=
  fun sv => (tt, f sv).

(** Run a call of the agent inside the supervisor. *)
Definition lift {A} (m : M A) : SM A :=
  fun sv => let (a, s') := m (agent sv) in (a, set_agent s' sv).

(** A call to the host or the controller. *)
Definition scall {A} (ask : nat -> A) (e : ControlEvent) : SM A :=
  fun sv =>
    (ask (length (trace (agent sv)) + length (control sv))%nat,
     record_control e sv).

Declare Scope supervisor_scope.
Delimit Scope supervisor_scope with supervisor.
Notation "'let!' x ':=' m 'in' k" := (sbind m (fun x => k))
  (at level 10, x name, m at level 100, k at level 200) : supervisor_scope.

Section Supervisor.

Context (w : World) (h : Host).

Local Open Scope supervisor_scope.

(** *** AWSMetadataClient, the rest *)

Definition get_instance_id : M (option string) :=
  _fetch_metadata w "instance-id".

Definition get_availability_zone : M (option string) :=
  _fetch_metadata w "placement/availability-zone".

Definition get_ami_id : M (option string) := _fetch_metadata w "ami-id".

Definition check_ec2_environment : M bool :=
  bind get_instance_id (fun instance_id =>
    ret (str_truthy instance_id && startswith "i-" (default "" instance_id))).

Definition get_hostname : SM string :=
  let! name := lift (_fetch_metadata w "hostname") in
  if str_truthy name then sret (default "" name)
  else scall (socket_gethostname h) CGetHostname.

(** *** CentralServerClient, the rest *)

(** [register_agent]; [None] where the source re-raises. *)
Definition register_agent : SM (option RegisterResponse) :=
  let! sv := sget in
  let cfg := config (agent sv) in
  let data :=
    {| rq_client_token := client_token sv;
       rq_hostname := hostname sv;
       rq_instance_id := instance_id cfg;
       rq_instance_type := instance_type cfg;
       rq_region := region cfg;
       rq_az := availability_zone cfg;
       rq_ami_id := ami_id cfg;
       rq_agent_version := "2.0.0" |} in
  let! result := scall (fun n => http_register h n data) (CRegister data) in
  match result with
  | None => sret None
  | Some result =>
      match rs_agent_id result with
      | None => sret None
      | Some id =>
          let! _ := smodify (set_agent_id id) in
          let! _ :=
            smodify (fun sv =>
              set_agent
                (set_config
                   (with_flags (rs_config result) (fun _ _ => true)
                      (config (agent sv)))
                   (agent sv)) sv) in
          sret (Some result)
      end
  end.

Definition send_heartbeat (status : string) (monitored_instances : list string)
    : SM bool :=
  scall (fun n => http_heartbeat h n status monitored_instances)
        (CHeartbeat status monitored_instances).

Definition get_config : SM (option ConfigResponse) :=
  scall (http_get_config h) CGetConfig.

(** *** SpotOptimizerAgent, the rest *)

Definition initialize : SM Startup :=
  let! on_ec2 := lift check_ec2_environment in
  let! _ := smodify (set_is_ec2 on_ec2) in
  if negb on_ec2 then sret (Exited 1)
  else
    let! id := lift get_instance_id in
    let! type := lift (get_instance_type w) in
    let! az := lift get_availability_zone in
    let! ami := lift get_ami_id in
    let! name := get_hostname in
    let! _ := smodify (set_hostname name) in
    let! _ :=
      lift (modify (fun s =>
              set_config (with_identity id type az ami (config s)) s)) in
    if negb (str_truthy id && str_truthy type && str_truthy az
             && str_truthy ami)
    then sret (Exited 1)
    else
      let! sv := sget in
      let! built :=
        scall (fun n => boto3_clients h n (region (config (agent sv))))
              (CBoto3Clients (region (config (agent sv)))) in
      if negb built then sret (Exited 1)
      else
        let! mode :=
          lift (get_current_mode w (instance_id (config (agent sv)))) in
        let! _ := lift (modify (set_mode (Some (fst mode)) (snd mode))) in
        let! registered := register_agent in
        match registered with
        | None => sret (Exited 1)
        | Some _ => sret Started
        end.

(** One turn of [_heartbeat_loop], without the final wait. *)
Definition heartbeat_tick : SM unit :=
  let! sv := sget in
  let! success :=
    send_heartbeat "online" [instance_id (config (agent sv))] in
  if success then
    let! answer := get_config in
    match answer with
    | Some flags =>
        smodify (fun sv =>
          set_agent
            (set_config
               (with_flags flags (fun _ current => current)
                  (config (agent sv)))
               (agent sv)) sv)
    | None => sret tt
    end
  else sret tt.

(** [shutdown], up to the joins. *)
Definition shutdown : SM unit :=
  let! _ := send_heartbeat "offline" [] in
  sret tt.

(** [run] until the threads are started; an exit inside [initialize]
    still goes through the [finally]. *)
Definition run : SM Startup :=
  let! outcome := initialize in
  match outcome with
  | Started => sret Started
  | Exited code =>
      let! _ := shutdown in
      sret (Exited code)
  end.

(** [main], given the two variables it reads from the environment. *)
Definition main (central_server_url : string) : SM Startup :=
  let! sv := sget in
  if negb (str_truthy (Some (client_token sv))) then sret (Exited 1)
  else if negb (str_truthy (Some central_server_url)) then sret (Exited 1)
  else run.

End Supervisor.

(** ** More observations on a trace *)

(** The launch requests among [evs]. *)
Definition launches (evs : list Event) : list LaunchParams :=
  flat_map (fun e =>
    match e with
    | ERunInstances p => [p]
    | _ => []
    end) evs.

(** The instances asked to terminate among [evs]. *)
Definition terminations (evs : list Event) : list string :=
  flat_map (fun e =>
    match e with
    | ETerminateInstances id => [id]
    | _ => []
    end) evs.

(** The calls of the pricing probes. *)
Definition pricing_event (e : Event) : Prop :=
  match e with
  | EUtcNow | EDescribeSpotPriceHistory _ _ | EGetProducts _ _ => True
  | _ => False
  end.

(** The calls of the metadata client. *)
Definition metadata_event (e : Event) : Prop :=
  match e with
  | ENow | EPutToken | EGetMetadata _ _ => True
  | _ => False
  end.

(** The calls of steps 1 to 6 other than the launch request. *)
Definition preparation_event (e : Event) : Prop :=
  match e with
  | EUtcNow | ESleep _ | EDescribeInstances _ | ECreateImage _ _ _
  | EWaitImageAvailable _ | EWaitInstanceRunning _
  | EDescribeSpotPriceHistory _ _ | EGetProducts _ _ => True
  | _ => False
  end.

(** The registrations and the heartbeats among the controller calls. *)
Definition registrations (evs : list ControlEvent) : list RegisterRequest :=
  flat_map (fun e =>
    match e with
    | CRegister r => [r]
    | _ => []
    end) evs.

Definition heartbeats (evs : list ControlEvent) : list (string * list string) :=
  flat_map (fun e =>
    match e with
    | CHeartbeat status monitored => [(status, monitored)]
    | _ => []
    end) evs.

(** The tag keys [launch_instance] adds to those of the predecessor. *)
Definition operator_tag_keys : list string :=
  ["spot-optimizer-managed"; "spot-optimizer-parent"; "spot-optimizer-created"].

(** [s'] is [s] after some metadata calls: only the token, its expiry and
    the trace may differ. *)
Definition fetched (s s' : Agent) : Prop :=
  config s' = config s
  /\ last_ondemand_price s' = last_ondemand_price s
  /\ last_ondemand_fetch s' = last_ondemand_fetch s
  /\ current_mode s' = current_mode s
  /\ current_pool_id s' = current_pool_id s
  /\ switching_in_progress s' = switching_in_progress s
  /\ exists evs, trace s' = (trace s ++ evs)%list /\ Forall metadata_event evs.

(** The [launch_config] that step 3 builds from the described
    predecessor, the new image and the predecessor's id. *)
Definition launch_config_of (d : InstanceDetails) (ami old_instance_id : string)
    : LaunchConfig :=
  {| lc_ami_id := ami;
     lc_instance_type := d_instance_type d;
     lc_key_name := d_key_name d;
     lc_security_groups := d_security_groups d;
     lc_subnet_id := d_subnet_id d;
     lc_iam_instance_profile := d_iam_instance_profile d;
     lc_tags := d_tags d;
     lc_network_interfaces := d_network_interfaces d;
     lc_old_instance_id := old_instance_id |}.

(** The launch request [p] is the one step 4 makes for the agent in state
    [s]: built from the first instance the provider described under the
    agent's instance id and from an image the provider created from that
    instance under the agent's prefix. *)
Definition launched_from (w : World) (s : Agent) (target_mode : string)
    (p : LaunchParams) : Prop :=
  let old := instance_id (config s) in
  exists n instance others reservations m timestamp ami created,
    ec2_describe_instances w n old = Some ((instance :: others) :: reservations)
    /\ ec2_create_image w m old ("spot-optimizer-" ++ old) timestamp = Some ami
    /\ ami <> ""
    /\ p = launch_params (launch_config_of (details_of instance) ami old)
             target_mode created.

(** The world [w] with another answer to [describe_instances]. *)
Definition with_describe
    (f : nat -> string -> option (list (list Instance))) (w : World) : World :=
  {| utcnow := utcnow w;
     now := now w;
     ec2_describe_instances := f;
     ec2_create_image := ec2_create_image w;
     ec2_wait_image_available := ec2_wait_image_available w;
     ec2_run_instances := ec2_run_instances w;
     ec2_wait_instance_running := ec2_wait_instance_running w;
     ec2_terminate_instances := ec2_terminate_instances w;
     ec2_describe_spot_price_history := ec2_describe_spot_price_history w;
     pricing_get_products := pricing_get_products w;
     imds_put_token := imds_put_token w;
     imds_get := imds_get w;
     http_pending_commands := http_pending_commands w;
     http_mark_command_executed := http_mark_command_executed w;
     http_switch_report := http_switch_report w;
     http_pricing_report := http_pricing_report w |}.

(** Scenario 1, except that the successor cannot be described once it
    runs. *)
Definition lost_successor : World :=
  with_describe
    (fun _ id => if String.eqb id "i-A" then Some [[instance_A false]]
                 else Some [])
    (scripted script1).

(** Scenario 1 with a cloud that answers no [describe_instances]. *)
Definition cloud_down : World :=
  with_describe (fun _ _ => None) (scripted script1).

(** An instance that this agent launched earlier: it carries the operator
    tags already. *)
Definition instance_relaunched : Instance :=
  {| InstanceId := "i-A";
     InstanceType := "m5.large";
     StateName := "running";
     InstanceLifecycle := None;
     PlacementAvailabilityZone := "ap-south-1a";
     SubnetId := Some "subnet-1";
     SecurityGroups := ["sg-1"];
     KeyName := Some "key";
     IamInstanceProfileArn := None;
     Tags := [("Name", "worker");
              ("spot-optimizer-managed", "true");
              ("spot-optimizer-parent", "i-0");
              ("spot-optimizer-created", "2024-01-01T00:00:00")];
     NetworkInterfaces := [];
     BlockDeviceMappings := [] |}.

(** Scenario 2 for a predecessor that is itself a successor. *)
Definition second_generation : World :=
  with_describe
    (fun _ id => if String.eqb id "i-A" then Some [[instance_relaunched]]
                 else Some [[instance_B true "ap-south-1b"]])
    (scripted script2).

(** The calls of one command-drain turn after the fetch. *)
Definition drain_event (e : Event) : Prop :=
  match e with
  | EMarkCommandExecuted _ | ETerminateInstances _ | ESwitchReport _
  | ERunInstances _ => True
  | _ => preparation_event e
  end.

(** The commands of [cmds] addressed to the instance [id]. *)
Definition addressed_to (id : string) (cmds : list Command) : list Command :=
  filter (fun c => cmd_instance_id c = id) cmds.

(** ** Observations on a startup *)

(** The calls the agent makes while it starts. *)
Definition startup_event (e : Event) : Prop :=
  match e with
  | ENow | EPutToken | EGetMetadata _ _ | EDescribeInstances _ => True
  | _ => False
  end.

(** [sv'] is [sv] after some steps of [initialize] before the
    registration: the client token, the agent id, the region, the refresh
    interval, the three flags, the price cache and the in-progress flag
    are as they were; the agent has asked for metadata and descriptions
    only; the controller has seen neither a registration nor a
    heartbeat. *)
Definition starting (sv sv' : Supervisor) : Prop :=
  client_token sv' = client_token sv
  /\ agent_id sv' = agent_id sv
  /\ with_identity None None None None (config (agent sv'))
     = with_identity None None None None (config (agent sv))
  /\ last_ondemand_price (agent sv') = last_ondemand_price (agent sv)
  /\ last_ondemand_fetch (agent sv') = last_ondemand_fetch (agent sv)
  /\ switching_in_progress (agent sv') = switching_in_progress (agent sv)
  /\ (exists evs, trace (agent sv') = (trace (agent sv) ++ evs)%list
                  /\ Forall startup_event evs)
  /\ (exists cs, control sv' = (control sv ++ cs)%list
                 /\ registrations cs = [] /\ heartbeats cs = []).

(** The four identity fields that [initialize] requires. *)
Definition complete_identity (cfg : AgentConfig) : Prop :=
  instance_id cfg <> "" /\ instance_type cfg <> ""
  /\ availability_zone cfg <> "" /\ ami_id cfg <> "".

(** The lease class is one [get_current_mode] returns, with a pool exactly
    for [spot]. *)
Definition known_lease (s : Agent) : Prop :=
  exists mode,
    current_mode s = Some mode
    /\ (mode = "spot" \/ mode = "ondemand" \/ mode = "unknown")
    /\ (mode = "spot" <-> current_pool_id s <> None).

(** The registration request of a supervisor in state [sv]. *)
Definition registration_of (sv : Supervisor) : RegisterRequest :=
  {| rq_client_token := client_token sv;
     rq_hostname := hostname sv;
     rq_instance_id := instance_id (config (agent sv));
     rq_instance_type := instance_type (config (agent sv));
     rq_region := region (config (agent sv));
     rq_az := availability_zone (config (agent sv));
     rq_ami_id := ami_id (config (agent sv));
     rq_agent_version := "2.0.0" |}.

(** The world [w] with another metadata service. *)
Definition with_metadata
    (f : nat -> string -> option string -> option string) (w : World) : World :=
  {| utcnow := utcnow w;
     now := now w;
     ec2_describe_instances := ec2_describe_instances w;
     ec2_create_image := ec2_create_image w;
     ec2_wait_image_available := ec2_wait_image_available w;
     ec2_run_instances := ec2_run_instances w;
     ec2_wait_instance_running := ec2_wait_instance_running w;
     ec2_terminate_instances := ec2_terminate_instances w;
     ec2_describe_spot_price_history := ec2_describe_spot_price_history w;
     pricing_get_products := pricing_get_products w;
     imds_put_token := imds_put_token w;
     imds_get := f;
     http_pending_commands := http_pending_commands w;
     http_mark_command_executed := http_mark_command_executed w;
     http_switch_report := http_switch_report w;
     http_pricing_report := http_pricing_report w |}.

(** Scenario 1 seen from instance [i-A]; the metadata service knows no
    host name. *)
Definition on_instance_A : World :=
  with_metadata
    (fun _ path _ =>
       dict_get [("instance-id", "i-A"); ("instance-type", "m5.large");
                 ("placement/availability-zone", "ap-south-1a");
                 ("ami-id", "ami-0")] path)
    (scripted script1).

(** A controller that answers a registration with [answer], accepts every
    heartbeat and then disables the agent. *)
Definition demo_host (answer : option RegisterResponse) : Host :=
  {| socket_gethostname := fun _ => "worker-1";
     boto3_clients := fun _ _ => true;
     http_register := fun _ _ => answer;
     http_heartbeat := fun _ _ _ => true;
     http_get_config := fun _ =>
       Some {| cf_enabled := Some false;
               cf_auto_switch_enabled := None;
               cf_auto_terminate_enabled := None |} |}.

Definition demo_answer : RegisterResponse :=
  {| rs_agent_id := Some "agent-1";
     rs_config := {| cf_enabled := None;
                     cf_auto_switch_enabled := Some false;
                     cf_auto_terminate_enabled := None |} |}.

(** The process as [main] creates it: [AgentConfig()] and the fields that
    [SpotOptimizerAgent.__init__] sets. *)
Definition unstarted (secret : string) : Supervisor :=
  {| agent :=
       {| config :=
            {| region := "ap-south-1"; instance_id := ""; instance_type := "";
               availability_zone := ""; ami_id := "";
               ondemand_price_interval := 3600;
               enabled := true; auto_switch_enabled := true;
               auto_terminate_enabled := true |};
          token := None; token_expiry := None;
          last_ondemand_price := None; last_ondemand_fetch := None;
          current_mode := None; current_pool_id := None;
          switching_in_progress := false; trace := [] |};
     client_token := secret; hostname := ""; agent_id := "";
     is_ec2 := true; control := [] |}.

(** The world [w] with another wall clock. *)
Definition with_utcnow (f : nat -> Z) (w : World) : World :=
  {| utcnow := f;
     now := now w;
     ec2_describe_instances := ec2_describe_instances w;
     ec2_create_image := ec2_create_image w;
     ec2_wait_image_available := ec2_wait_image_available w;
     ec2_run_instances := ec2_run_instances w;
     ec2_wait_instance_running := ec2_wait_instance_running w;
     ec2_terminate_instances := ec2_terminate_instances w;
     ec2_describe_spot_price_history := ec2_describe_spot_price_history w;
     pricing_get_products := pricing_get_products w;
     imds_put_token := imds_put_token w;
     imds_get := imds_get w;
     http_pending_commands := http_pending_commands w;
     http_mark_command_executed := http_mark_command_executed w;
     http_switch_report := http_switch_report w;
     http_pricing_report := http_pricing_report w |}.

(** Scenario 1 on a host whose clock is one hour fast and is set right
    while the successor is being launched: the first five calls read
    3600 s + n, the later ones n. *)
Definition clock_set_back : World :=
  with_utcnow
    (fun n => if (n <? 5)%nat then seconds (3600 + Z.of_nat n)
              else seconds (Z.of_nat n))
    (scripted script1).

(** * Properties *)

(** ** Pool samples *)

Section SpotPrices.

Variable instance_type : string.

Lemma first_sample_later item items p :
  AvailabilityZone item <> az p ->
  first_sample items p -> first_sample (item :: items) p.
Proof.
  intros Hne (before & it & after & -> & Haz & Hprice & Hbefore).
  exists (item :: before), it, after.
  repeat split; auto.
Qed.

(** What the loop adds to its accumulator. *)
Lemma spot_price_loop_adds items :
  forall pools seen_azs res,
    spot_price_loop instance_type items pools seen_azs = Some res ->
    exists added,
      res = (pools ++ added)%list
      /\ Forall (well_named instance_type) added
      /\ Forall (fun p => az p ∉ seen_azs) added
      /\ NoDup (map az added)
      /\ Forall (first_sample items) added.
Proof.
  induction items as [|item rest IH]; intros pools seen_azs res; simpl.
  - intros [= <-]. exists []. rewrite app_nil_r.
    repeat split; constructor.
  - case_bool_decide as Hseen.
    + intros Hloop. destruct (IH _ _ _ Hloop) as (added & -> & Hn & Hs & Hd & Hf).
      exists added. repeat split; auto.
      rewrite Forall_forall in Hs, Hf. apply Forall_forall. intros p Hin.
      apply first_sample_later; [|auto].
      intros Heq. apply (Hs p Hin). rewrite <- Heq. exact Hseen.
    + destruct (SpotPrice item) as [price0|] eqn:Hprice; [|discriminate].
      intros Hloop. destruct (IH _ _ _ Hloop) as (added & -> & Hn & Hs & Hd & Hf).
      set (p0 := {| az := AvailabilityZone item;
                    pool_id := make_pool_id instance_type (AvailabilityZone item);
                    pool_price := price0 |}).
      exists (p0 :: added). rewrite <- app_assoc. simpl.
      repeat split.
      * constructor; [reflexivity|exact Hn].
      * constructor; [exact Hseen|].
        eapply Forall_impl; [exact Hs|]. intros p Hp. set_solver.
      * constructor; [|exact Hd].
        rewrite list_elem_of_fmap. intros (p & Heq & Hin).
        rewrite Forall_forall in Hs. specialize (Hs p Hin).
        simpl in Heq. rewrite Heq in Hs. set_solver.
      * constructor.
        -- exists [], item, rest. repeat split; auto.
        -- rewrite Forall_forall in Hs, Hf. apply Forall_forall. intros p Hin.
           apply first_sample_later; [|auto].
           specialize (Hs p Hin). set_solver.
Qed.

Lemma spot_pools_of_spec response :
  let pools := spot_pools_of instance_type response in
  Forall (well_named instance_type) pools
  /\ NoDup (map az pools)
  /\ forall items, response = Some items -> Forall (first_sample items) pools.
Proof.
  destruct response as [items|]; simpl.
  - destruct (spot_price_loop instance_type items [] ∅) as [res|] eqn:Hloop; simpl.
    + apply spot_price_loop_adds in Hloop as (added & -> & Hn & _ & Hd & Hf).
      simpl. split; [exact Hn|]. split; [exact Hd|]. intros ? [= <-]. exact Hf.
    + split; [constructor|]. split; [constructor|]. intros; constructor.
  - split; [constructor|]. split; [constructor|]. discriminate.
Qed.

(** The zones the loop adds are the zones of the items it has not seen. *)
Lemma spot_price_loop_zones items :
  forall pools seen_azs res,
    spot_price_loop instance_type items pools seen_azs = Some res ->
    exists added,
      res = (pools ++ added)%list
      /\ forall z, z ∈ map az added
                   <-> z ∈ map AvailabilityZone items /\ z ∉ seen_azs.
Proof.
  induction items as [|item rest IH]; intros pools seen_azs res; simpl.
  - intros [= <-]. exists []. rewrite app_nil_r. split; [reflexivity|].
    intros z. simpl. rewrite !elem_of_nil. tauto.
  - case_bool_decide as Hseen.
    + intros Hloop. destruct (IH _ _ _ Hloop) as (added & -> & Hzones).
      exists added. split; [reflexivity|].
      intros z. rewrite Hzones, elem_of_cons.
      split; [tauto|]. intros [[-> | Hin] Hnot]; [contradiction|auto].
    + destruct (SpotPrice item) as [price0|]; [|discriminate].
      intros Hloop. destruct (IH _ _ _ Hloop) as (added & -> & Hzones).
      eexists (_ :: added). rewrite <- app_assoc.
      split; [reflexivity|].
      intros z. cbn [map az]. rewrite !elem_of_cons, Hzones.
      rewrite not_elem_of_union, not_elem_of_singleton.
      destruct (decide (z = AvailabilityZone item)) as [-> | Hne]; tauto.
Qed.

(** The loop raises only on an item whose price cannot be read. *)
Lemma spot_price_loop_none items :
  forall pools seen_azs,
    spot_price_loop instance_type items pools seen_azs = None ->
    exists item, item ∈ items /\ SpotPrice item = None.
Proof.
  induction items as [|item rest IH]; intros pools seen_azs; simpl;
    [discriminate|].
  case_bool_decide as Hseen.
  - intros Hloop. destruct (IH _ _ Hloop) as (it & Hin & Hnone).
    exists it. split; [apply elem_of_cons; auto|exact Hnone].
  - destruct (SpotPrice item) as [price0|] eqn:Hprice.
    + intros Hloop. destruct (IH _ _ Hloop) as (it & Hin & Hnone).
      exists it. split; [apply elem_of_cons; auto|exact Hnone].
    + intros _. exists item. split; [apply elem_of_cons; auto|exact Hprice].
Qed.

(** Every zone of the history has its sample, unless a price could not be
    read and the whole answer is empty. *)
Lemma spot_pools_of_complete items :
  let pools := spot_pools_of instance_type (Some items) in
  (forall z, z ∈ map AvailabilityZone items <-> z ∈ map az pools)
  \/ (pools = [] /\ exists item, item ∈ items /\ SpotPrice item = None).
Proof.
  cbv zeta. unfold spot_pools_of.
  destruct (spot_price_loop instance_type items [] ∅) as [res|] eqn:Hloop.
  - left. apply spot_price_loop_zones in Hloop as (added & -> & Hzones).
    intros z. cbn [default app]. rewrite Hzones. split; [|tauto].
    intros Hin. split; [exact Hin|]. apply not_elem_of_empty.
  - right. split; [reflexivity|]. exact (spot_price_loop_none _ _ _ Hloop).
Qed.

End SpotPrices.

(** C7.  Every sample returned by [get_spot_prices] is named
    [{instance_type}_{zone without hyphens}] after its own zone, no two
    samples share a zone, and the sample of a zone is taken from the first
    item of the provider's history that quotes that zone.  Every zone of
    the history has its sample: the zones returned are exactly the zones
    quoted, unless the price of some item cannot be read as a number, and
    then nothing is returned; so a history whose prices are all numbers
    gives one sample for each of its zones, the first. *)
Theorem get_spot_prices_samples (w : World) (instance_type : string) (s : Agent) :
  let pools := fst (get_spot_prices w instance_type s) in
  let asked := utcnow w (length (trace s)) - seconds 300 in
  Forall (fun p => pool_id p = instance_type ++ "_" ++ remove_hyphens (az p)) pools
  /\ NoDup (map az pools)
  /\ forall items,
       ec2_describe_spot_price_history w (length (trace s ++ [EUtcNow]))
         instance_type asked = Some items ->
       Forall (first_sample items) pools
       /\ ((forall z, z ∈ map AvailabilityZone items <-> z ∈ map az pools)
           \/ (pools = []
               /\ exists item, item ∈ items /\ SpotPrice item = None))
       /\ (Forall (fun item => SpotPrice item <> None) items ->
           forall z, z ∈ map AvailabilityZone items <-> z ∈ map az pools).
Proof.
  cbv zeta. unfold get_spot_prices, bind, call, ret. cbn [fst snd trace emit].
  destruct (spot_pools_of_spec instance_type
              (ec2_describe_spot_price_history w
                 (length (trace s ++ [EUtcNow])) instance_type
                 (utcnow w (length (trace s)) - seconds 300)))
    as (Hnamed & Hdistinct & Hfirst).
  split; [exact Hnamed|]. split; [exact Hdistinct|].
  intros items Hresponse. split; [exact (Hfirst items Hresponse)|].
  rewrite Hresponse.
  pose proof (spot_pools_of_complete instance_type items) as Hcomplete.
  cbv zeta in Hcomplete. split; [exact Hcomplete|].
  intros Hreadable.
  destruct Hcomplete as [Hzones | (_ & item & Hin & Hnone)]; [exact Hzones|].
  rewrite Forall_forall in Hreadable. destruct (Hreadable item Hin Hnone).
Qed.

(** The history of the scripted world quotes two zones, and both have
    their sample. *)
Example get_spot_prices_scripted :
  map az (fst (get_spot_prices (scripted script1) "m5.large" agent1))
  = ["ap-south-1a"; "ap-south-1b"].
Proof. vm_compute. reflexivity. Qed.

(** ** Rules for runs *)

Lemma bind_inv {A B} (m : M A) (k : A -> M B) s b s' :
  bind m k s = (b, s') -> exists a s1, m s = (a, s1) /\ k a s1 = (b, s').
Proof. unfold bind. destruct (m s) as [a s1]. eauto. Qed.

Lemma bind_run {A B} (m : M A) (k : A -> M B) s a s1 :
  m s = (a, s1) -> bind m k s = k a s1.
Proof. unfold bind. intros ->. reflexivity. Qed.

Lemma quiet_refl P s : quiet P s s.
Proof.
  repeat split. exists []. split; [symmetry; apply app_nil_r|constructor].
Qed.

Lemma quiet_trans P s1 s2 s3 : quiet P s1 s2 -> quiet P s2 s3 -> quiet P s1 s3.
Proof.
  intros (Hc & Hm & Hp & Hf & evs & Ht & HP) (Hc' & Hm' & Hp' & Hf' & evs' & Ht' & HP').
  repeat split; try congruence.
  exists (evs ++ evs')%list. split.
  - rewrite Ht', Ht. symmetry. apply app_assoc.
  - apply Forall_app; auto.
Qed.

Lemma quiet_weaken (P Q : Event -> Prop) s s' :
  (forall e, P e -> Q e) -> quiet P s s' -> quiet Q s s'.
Proof.
  intros HPQ (Hc & Hm & Hp & Hf & evs & Ht & HP).
  repeat split; auto. exists evs. split; [auto|].
  eapply Forall_impl; eauto.
Qed.

Lemma quiet_length P s s' : quiet P s s' -> (length (trace s) <= length (trace s'))%nat.
Proof.
  intros (_ & _ & _ & _ & evs & -> & _). rewrite length_app. lia.
Qed.

Lemma local_ret P {A} (a : A) : local P (ret a).
Proof. intros s. apply quiet_refl. Qed.

Lemma local_get P : local P get.
Proof. intros s. apply quiet_refl. Qed.

Lemma local_bind P {A B} (m : M A) (k : A -> M B) :
  local P m -> (forall a, local P (k a)) -> local P (bind m k).
Proof.
  intros Hm Hk s. unfold bind. specialize (Hm s).
  destruct (m s) as [a s1]. eapply quiet_trans; [exact Hm|apply Hk].
Qed.

Lemma local_call (P : Event -> Prop) {A} (ask : nat -> A) e :
  P e -> local P (call ask e).
Proof.
  intros He s. repeat split. exists [e]. split; [reflexivity|].
  constructor; [exact He|constructor].
Qed.

Lemma local_set_last_ondemand P p t : local P (modify (set_last_ondemand p t)).
Proof.
  intros s. repeat split. exists []. simpl.
  split; [symmetry; apply app_nil_r|constructor].
Qed.

Lemma local_inv (P : Event -> Prop) {A} (m : M A) s a s' :
  local P m -> m s = (a, s') -> quiet P s s'.
Proof. intros Hm Hrun. specialize (Hm s). rewrite Hrun in Hm. exact Hm. Qed.

Lemma local_weaken (P Q : Event -> Prop) {A} (m : M A) :
  (forall e, P e -> Q e) -> local P m -> local Q m.
Proof. intros HPQ Hm s. eapply quiet_weaken; eauto. Qed.

Lemma snapshot_event_gather tm e : snapshot_event e -> gather_event tm e.
Proof. destruct e; simpl; tauto. Qed.

Lemma gather_event_switch tm e : gather_event tm e -> switch_event tm e.
Proof. destruct e; simpl; tauto. Qed.

Lemma terminate_event_switch tm e : terminate_event e -> switch_event tm e.
Proof. destruct e; simpl; tauto. Qed.

(** Peel the binds of a run; what remains are the events to classify and
    the branches on what came back. *)
Ltac local_steps :=
  repeat lazymatch goal with
    | |- local _ (ret _) => apply local_ret
    | |- local _ get => apply local_get
    | |- local _ (modify (set_last_ondemand _ _)) =>
        apply local_set_last_ondemand
    | |- local _ (call _ _) => apply local_call; simpl; try exact I
    | |- local _ (bind _ _) => apply local_bind; [|intros ?]
    end.

(** *** The resource manager, call by call *)

Section Locality.

Context (w : World).

Lemma get_instance_details_local id :
  local snapshot_event (get_instance_details w id).
Proof. unfold get_instance_details. local_steps. Qed.

Lemma get_current_mode_local id :
  local snapshot_event (get_current_mode w id).
Proof.
  unfold get_current_mode. apply local_bind; [|intros ?; apply local_ret].
  apply get_instance_details_local.
Qed.

Lemma create_ami_from_instance_local id prefix :
  local snapshot_event (create_ami_from_instance w id prefix).
Proof.
  unfold create_ami_from_instance. local_steps.
  destruct a0; local_steps.
Qed.

Lemma launch_instance_local lc tm tp :
  local (gather_event tm) (launch_instance w lc tm tp).
Proof.
  unfold launch_instance. local_steps.
  - eauto.
  - destruct a0; local_steps.
Qed.

Lemma get_spot_prices_local tm itype :
  local (gather_event tm) (get_spot_prices w itype).
Proof. unfold get_spot_prices. local_steps. Qed.

Lemma get_ondemand_price_local tm itype :
  local (gather_event tm) (get_ondemand_price w itype).
Proof. unfold get_ondemand_price. local_steps. Qed.

Lemma cached_ondemand_price_local tm :
  local (gather_event tm) (cached_ondemand_price w).
Proof.
  unfold cached_ondemand_price. local_steps.
  destruct (last_ondemand_price a) as [p|], (last_ondemand_fetch a) as [f|];
    try destruct (price_truthy p); local_steps.
Qed.

Lemma _get_ondemand_price_local tm :
  local (gather_event tm) (_get_ondemand_price w).
Proof.
  unfold _get_ondemand_price.
  apply local_bind; [apply cached_ondemand_price_local|intros cached].
  destruct cached; [apply local_ret|].
  apply local_bind; [apply local_get|intros s].
  apply local_bind; [apply get_ondemand_price_local|intros price0].
  local_steps. destruct (opt_price_truthy price0); local_steps.
Qed.

Lemma switch_gather_local tm tp :
  local (gather_event tm) (switch_gather w tm tp).
Proof.
  unfold switch_gather.
  apply local_bind; [apply local_get|intros s0].
  apply local_bind; [|intros details].
  { eapply local_weaken; [apply snapshot_event_gather|].
    apply get_instance_details_local. }
  destruct details as [details|]; [|apply local_ret].
  apply local_bind; [|intros ami].
  { eapply local_weaken; [apply snapshot_event_gather|].
    apply create_ami_from_instance_local. }
  destruct ami as [[|c ami]|]; try apply local_ret.
  apply local_bind; [apply local_call; exact I|intros timing_start].
  apply local_bind; [apply launch_instance_local|intros new_id].
  destruct new_id as [[|c' new_id]|]; try apply local_ret.
  apply local_bind; [apply local_call; exact I|intros timing_ready].
  apply local_bind; [apply local_call; exact I|intros _].
  apply local_bind; [|intros new_details].
  { eapply local_weaken; [apply snapshot_event_gather|].
    apply get_instance_details_local. }
  destruct new_details as [new_details|]; [|apply local_ret].
  apply local_bind; [|intros new_mode].
  { eapply local_weaken; [apply snapshot_event_gather|].
    apply get_current_mode_local. }
  apply local_bind; [apply _get_ondemand_price_local|intros price0].
  apply local_bind; [apply local_get|intros s1].
  apply local_bind; [apply get_spot_prices_local|intros pools].
  apply local_ret.
Qed.

End Locality.

(** *** Steps 1 to 6 do not read [auto_terminate_enabled] *)

Lemma oblivious_ret {A} (a : A) : oblivious (ret a).
Proof. intros b s. reflexivity. Qed.

Lemma oblivious_call {A} (ask : nat -> A) e : oblivious (call ask e).
Proof. intros b s. reflexivity. Qed.

Lemma oblivious_set_last_ondemand p t :
  oblivious (modify (set_last_ondemand p t)).
Proof. intros b s. reflexivity. Qed.

Lemma oblivious_bind {A B} (m : M A) (k : A -> M B) :
  oblivious m -> (forall a, oblivious (k a)) -> oblivious (bind m k).
Proof.
  intros Hm Hk b s. unfold bind. rewrite Hm.
  destruct (m s) as [a s1]. simpl. apply Hk.
Qed.

(** Reading the agent is harmless when the continuation is the same for
    either value of the flag. *)
Lemma oblivious_get {B} (k : Agent -> M B) :
  (forall b s, k (set_auto_terminate b s) = k s) ->
  (forall s, oblivious (k s)) -> oblivious (bind get k).
Proof.
  intros Hsame Hk b s. unfold bind, get. rewrite Hsame. apply Hk.
Qed.

Ltac oblivious_steps :=
  repeat lazymatch goal with
    | |- oblivious (ret _) => apply oblivious_ret
    | |- oblivious (call _ _) => apply oblivious_call
    | |- oblivious (modify (set_last_ondemand _ _)) =>
        apply oblivious_set_last_ondemand
    | |- oblivious (bind get _) => apply oblivious_get; [reflexivity|intros ?]
    | |- oblivious (bind _ _) => apply oblivious_bind; [|intros ?]
    end.

Section Oblivious.

Context (w : World).

Lemma get_instance_details_oblivious id :
  oblivious (get_instance_details w id).
Proof. unfold get_instance_details. oblivious_steps. Qed.

Lemma get_current_mode_oblivious id : oblivious (get_current_mode w id).
Proof.
  unfold get_current_mode.
  apply oblivious_bind; [apply get_instance_details_oblivious|].
  intros; apply oblivious_ret.
Qed.

Lemma create_ami_from_instance_oblivious id prefix :
  oblivious (create_ami_from_instance w id prefix).
Proof.
  unfold create_ami_from_instance. oblivious_steps.
  destruct a0; oblivious_steps.
Qed.

Lemma launch_instance_oblivious lc tm tp :
  oblivious (launch_instance w lc tm tp).
Proof.
  unfold launch_instance. oblivious_steps. destruct a0; oblivious_steps.
Qed.

Lemma get_spot_prices_oblivious itype : oblivious (get_spot_prices w itype).
Proof. unfold get_spot_prices. oblivious_steps. Qed.

Lemma get_ondemand_price_oblivious itype :
  oblivious (get_ondemand_price w itype).
Proof. unfold get_ondemand_price. oblivious_steps. Qed.

Lemma cached_ondemand_price_oblivious : oblivious (cached_ondemand_price w).
Proof.
  unfold cached_ondemand_price.
  apply oblivious_get; [reflexivity|intros s].
  destruct (last_ondemand_price s) as [p|], (last_ondemand_fetch s) as [f|];
    try destruct (price_truthy p); oblivious_steps.
Qed.

Lemma _get_ondemand_price_oblivious : oblivious (_get_ondemand_price w).
Proof.
  unfold _get_ondemand_price.
  apply oblivious_bind; [apply cached_ondemand_price_oblivious|intros cached].
  destruct cached; [apply oblivious_ret|].
  apply oblivious_get; [reflexivity|intros s].
  apply oblivious_bind; [apply get_ondemand_price_oblivious|intros price0].
  apply oblivious_bind; [|intros _].
  - destruct (opt_price_truthy price0); oblivious_steps.
  - oblivious_steps.
Qed.

Lemma switch_gather_oblivious tm tp : oblivious (switch_gather w tm tp).
Proof.
  unfold switch_gather.
  apply oblivious_get; [reflexivity|intros s0].
  apply oblivious_bind; [apply get_instance_details_oblivious|intros details].
  destruct details as [details|]; [|apply oblivious_ret].
  apply oblivious_bind; [apply create_ami_from_instance_oblivious|intros ami].
  destruct ami as [[|c ami]|]; try apply oblivious_ret.
  apply oblivious_bind; [apply oblivious_call|intros timing_start].
  apply oblivious_bind; [apply launch_instance_oblivious|intros new_id].
  destruct new_id as [[|c' new_id]|]; try apply oblivious_ret.
  apply oblivious_bind; [apply oblivious_call|intros timing_ready].
  apply oblivious_bind; [apply oblivious_call|intros _].
  apply oblivious_bind; [apply get_instance_details_oblivious|intros new_details].
  destruct new_details as [new_details|]; [|apply oblivious_ret].
  apply oblivious_bind; [apply get_current_mode_oblivious|intros new_mode].
  apply oblivious_bind; [apply _get_ondemand_price_oblivious|intros price0].
  apply oblivious_get; [reflexivity|intros s1].
  apply oblivious_bind; [apply get_spot_prices_oblivious|intros pools].
  apply oblivious_ret.
Qed.

End Oblivious.

(** *** The migration engine, piece by piece *)

Lemma acks_app (l1 l2 : list Event) : acks (l1 ++ l2) = (acks l1 ++ acks l2)%list.
Proof. apply flat_map_app. Qed.

Lemma reports_app (l1 l2 : list Event) :
  reports (l1 ++ l2) = (reports l1 ++ reports l2)%list.
Proof. apply flat_map_app. Qed.

Lemma gather_events_silent tm evs :
  Forall (gather_event tm) evs ->
  acks evs = [] /\ reports evs = []
  /\ forall id, ETerminateInstances id ∉ evs.
Proof.
  induction 1 as [|e evs He _ (IHa & IHr & IHt)]; simpl.
  - repeat split. intros id Hin. inversion Hin.
  - unfold acks, reports in *. simpl. rewrite IHa, IHr.
    destruct e; simpl in He; try contradiction; repeat split; auto;
      intros id Hin; apply elem_of_cons in Hin as [Heq|Hin];
      try discriminate; eapply IHt; eauto.
Qed.

Lemma terminate_events_unreported evs :
  Forall terminate_event evs -> reports evs = [].
Proof.
  induction 1 as [|e evs He _ IH]; [reflexivity|].
  unfold reports in *. simpl. rewrite IH.
  destruct e; simpl in He; try contradiction; reflexivity.
Qed.

Lemma switch_events_unacknowledged tm evs :
  Forall (switch_event tm) evs -> acks evs = [].
Proof.
  induction 1 as [|e evs He _ IH]; [reflexivity|].
  unfold acks in *. simpl. rewrite IH.
  destruct e; simpl in He; try contradiction; reflexivity.
Qed.

Lemma switch_events_launch tm evs p :
  Forall (switch_event tm) evs -> ERunInstances p ∈ evs ->
  exists lc t, p = launch_params lc tm t.
Proof.
  rewrite Forall_forall. intros Hall Hin. exact (Hall _ Hin).
Qed.

Section Engine.

Context (w : World).

Lemma terminate_old_inv id s t s' :
  terminate_old w id s = (t, s') ->
  quiet terminate_event s s'
  /\ (forall x, t = Some x ->
        exists n, x = utcnow w n /\ (length (trace s) <= n)%nat)
  /\ (auto_terminate_enabled (config s) = false -> t = None /\ s' = s).
Proof.
  unfold terminate_old, terminate_instance, bind, get, call, ret.
  destruct (auto_terminate_enabled (config s)) eqn:Hflag.
  - destruct (ec2_terminate_instances w (length (trace s)) id);
      intros [= <- <-]; (split; [|split]); try discriminate.
    + repeat split. exists [ETerminateInstances id; EUtcNow]. simpl.
      split; [rewrite <- app_assoc; reflexivity|repeat constructor].
    + intros x [= <-]. eexists. split; [reflexivity|].
      simpl. rewrite length_app. lia.
    + repeat split. exists [ETerminateInstances id].
      split; [reflexivity|repeat constructor].
  - intros [= <- <-]. split; [apply quiet_refl|]. split; [discriminate|auto].
Qed.

Lemma switch_gather_some tm tp s l s1 :
  switch_gather w tm tp s = (Some l, s1) ->
  sl_old_instance_id l = instance_id (config s)
  /\ sl_old_mode l = current_mode s
  /\ sl_old_pool_id l = current_pool_id s
  /\ exists n1 n2 : nat,
       sl_timing_start l = utcnow w n1 /\ sl_timing_ready l = utcnow w n2
       /\ (n1 <= n2 <= length (trace s1))%nat.
Proof.
  unfold switch_gather. intros H.
  apply bind_inv in H as (s0 & s0' & [= <- <-] & H).
  apply bind_inv in H as (details & sa & _ & H).
  destruct details as [details|]; [|discriminate].
  apply bind_inv in H as (ami & sb & _ & H).
  destruct ami as [[|c ami]|]; try discriminate.
  apply bind_inv in H as (timing_start & sc & [= <- <-] & H).
  apply bind_inv in H as (new_id & sd & Hlaunch & H).
  destruct new_id as [[|c' new_id]|]; try discriminate.
  apply bind_inv in H as (timing_ready & se & [= <- <-] & H).
  apply bind_inv in H as (u & sf & [= <- <-] & H).
  apply bind_inv in H as (new_details & sg & Hd & H).
  destruct new_details as [new_details|]; [|discriminate].
  apply bind_inv in H as (new_mode & sh & Hm & H).
  apply bind_inv in H as (price0 & si & Hp & H).
  apply bind_inv in H as (sj & sj' & [= <- <-] & H).
  apply bind_inv in H as (pools & sk & Hs & H).
  injection H as <- <-. simpl.
  repeat split.
  exists (length (trace sb)), (length (trace sd)).
  repeat split.
  - eapply local_inv in Hlaunch; [|apply launch_instance_local].
    apply quiet_length in Hlaunch. simpl in Hlaunch.
    rewrite length_app in Hlaunch. simpl in Hlaunch. lia.
  - eapply local_inv in Hd; [|apply get_instance_details_local].
    eapply local_inv in Hm; [|apply get_current_mode_local].
    eapply local_inv in Hp; [|apply (_get_ondemand_price_local w tm)].
    eapply local_inv in Hs; [|apply (get_spot_prices_local w tm)].
    apply quiet_length in Hd, Hm, Hp, Hs. simpl in Hd.
    rewrite !length_app in Hd. simpl in Hd. lia.
Qed.

Lemma switch_steps_inv tm tp trig s r s' :
  switch_steps w tm tp trig s = (r, s') ->
  exists locals s1,
    switch_gather w tm tp s = (locals, s1)
    /\ match locals with
       | None => r = false /\ s' = s1
       | Some l =>
           r = true
           /\ exists t s2,
                terminate_old w (sl_old_instance_id l) (emit EUtcNow s1) = (t, s2)
                /\ s' = rebind_agent l
                          (emit (ESwitchReport
                                   (switch_report_of l (config s2)
                                      (utcnow w (length (trace s1))) t trig))
                                s2)
       end.
Proof.
  unfold switch_steps. intros H.
  apply bind_inv in H as (locals & s1 & Hg & H).
  exists locals, s1. split; [exact Hg|].
  destruct locals as [l|].
  - apply bind_inv in H as (timing_switched & sa & [= <- <-] & H).
    apply bind_inv in H as (t & s2 & Ht & H).
    apply bind_inv in H as (sb & sb' & [= <- <-] & H).
    apply bind_inv in H as (ok & sc & [= <- <-] & H).
    apply bind_inv in H as (u & sd & [= <- <-] & H).
    injection H as <- <-. split; [reflexivity|].
    exists t, s2. split; [exact Ht|reflexivity].
  - injection H as <- <-. auto.
Qed.

Lemma execute_switch_inv tm tp trig s r s' :
  execute_switch w tm tp trig s = (r, s') ->
  if switching_in_progress s then r = false /\ s' = s
  else exists s1,
         switch_steps w tm tp trig (set_switching true s) = (r, s1)
         /\ s' = set_switching false s1.
Proof.
  unfold execute_switch. intros H.
  apply bind_inv in H as (s0 & s0' & [= <- <-] & H).
  destruct (switching_in_progress s).
  - injection H as <- <-. auto.
  - apply bind_inv in H as (u & sa & [= <- <-] & H).
    apply bind_inv in H as (res & s1 & Hs & H).
    apply bind_inv in H as (u' & sb & [= <- <-] & H).
    injection H as <- <-. eauto.
Qed.

(** Whatever happens, a call of [execute_switch] makes only the calls of a
    switch and hands the in-progress flag back as it found it; when it
    returns [False] the identity is as before and nothing was reported. *)
Lemma execute_switch_frame tm tp trig s r s' :
  execute_switch w tm tp trig s = (r, s') ->
  switching_in_progress s' = switching_in_progress s
  /\ exists evs,
       trace s' = (trace s ++ evs)%list
       /\ Forall (switch_event tm) evs
       /\ (r = false ->
             config s' = config s /\ current_mode s' = current_mode s
             /\ current_pool_id s' = current_pool_id s
             /\ Forall (gather_event tm) evs).
Proof.
  intros H. apply execute_switch_inv in H.
  destruct (switching_in_progress s) eqn:Hflag.
  - destruct H as [-> ->]. split; [exact Hflag|].
    exists []. rewrite app_nil_r. repeat split; auto; constructor.
  - destruct H as (s1 & H & ->). split; [reflexivity|].
    apply switch_steps_inv in H as (locals & sg & Hg & H).
    eapply local_inv in Hg; [|apply switch_gather_local].
    destruct Hg as (Qc & Qm & Qp & _ & evs & Qt & Qe).
    simpl in Qc, Qm, Qp, Qt.
    destruct locals as [l|].
    + destruct H as (-> & t & s2 & Ht & ->).
      apply terminate_old_inv in Ht as ((_ & _ & _ & _ & evs' & Ht & He') & _).
      simpl in Ht.
      exists (evs ++ [EUtcNow] ++ evs' ++ [ESwitchReport
                (switch_report_of l (config s2)
                   (utcnow w (length (trace sg))) t trig)])%list.
      simpl. rewrite Ht, Qt. split; [|split; [|discriminate]].
      * rewrite <- !app_assoc. reflexivity.
      * apply Forall_app. split.
        { eapply Forall_impl; [exact Qe|apply gather_event_switch]. }
        constructor; [exact I|]. apply Forall_app. split.
        { eapply Forall_impl; [exact He'|apply terminate_event_switch]. }
        repeat constructor.
    + destruct H as (-> & ->). exists evs. simpl.
      repeat split; auto.
      eapply Forall_impl; [exact Qe|apply gather_event_switch].
Qed.

(** The shape of a successful switch. *)
Lemma execute_switch_true tm tp trig s s' :
  execute_switch w tm tp trig s = (true, s') ->
  switching_in_progress s = false
  /\ exists l sg t s2,
       switch_gather w tm tp (set_switching true s) = (Some l, sg)
       /\ terminate_old w (sl_old_instance_id l) (emit EUtcNow sg) = (t, s2)
       /\ s' = set_switching false
                 (rebind_agent l
                    (emit (ESwitchReport
                             (switch_report_of l (config s2)
                                (utcnow w (length (trace sg))) t trig))
                          s2)).
Proof.
  intros H. apply execute_switch_inv in H.
  destruct (switching_in_progress s); [destruct H; discriminate|].
  split; [reflexivity|].
  destruct H as (s1 & H & ->).
  apply switch_steps_inv in H as (locals & sg & Hg & H).
  destruct locals as [l|]; [|destruct H; discriminate].
  destruct H as (_ & t & s2 & Ht & ->).
  exists l, sg, t, s2. auto.
Qed.

(** The same, read forwards. *)
Lemma execute_switch_run tm tp trig s l sg t s2 :
  switching_in_progress s = false ->
  switch_gather w tm tp (set_switching true s) = (Some l, sg) ->
  terminate_old w (sl_old_instance_id l) (emit EUtcNow sg) = (t, s2) ->
  execute_switch w tm tp trig s
  = (true,
     set_switching false
       (rebind_agent l
          (emit (ESwitchReport
                   (switch_report_of l (config s2)
                      (utcnow w (length (trace sg))) t trig))
                s2))).
Proof.
  intros Hflag Hg Ht.
  unfold execute_switch, switch_steps, report_switch_event.
  unfold bind, get, modify, ret, call.
  rewrite Hflag, Hg, Ht. reflexivity.
Qed.

End Engine.

(** ** The migration engine *)

(** C9.  When [execute_switch] returns [False], wherever it stopped, the
    identity of the agent (instance id, instance type, availability zone,
    current mode and current pool id) is what it was before the call. *)
Theorem execute_switch_abort_keeps_identity
    (w : World) (tm : string) (tp : option string) (trig : string)
    (s s' : Agent) :
  execute_switch w tm tp trig s = (false, s') ->
  instance_id (config s') = instance_id (config s)
  /\ instance_type (config s') = instance_type (config s)
  /\ availability_zone (config s') = availability_zone (config s)
  /\ current_mode s' = current_mode s
  /\ current_pool_id s' = current_pool_id s.
Proof.
  intros H. apply execute_switch_frame in H as (_ & evs & _ & _ & Habort).
  destruct (Habort eq_refl) as (Hc & Hm & Hp & _).
  rewrite Hc. auto.
Qed.

Lemma execute_switch_abort_keeps_identity_witness :
  let w := scripted script5 in
  let s' := snd (execute_switch w "ondemand" None "manual" agent1) in
  execute_switch w "ondemand" None "manual" agent1 = (false, s')
  /\ instance_id (config s') = "i-A"
  /\ current_mode s' = Some "spot".
Proof.
  assert (H : execute_switch (scripted script5) "ondemand" None "manual" agent1
              = (false, snd (execute_switch (scripted script5) "ondemand" None
                               "manual" agent1)))
    by (vm_compute; reflexivity).
  split; [exact H|].
  destruct (execute_switch_abort_keeps_identity _ _ _ _ _ _ H)
    as (Hid & _ & _ & Hmode & _).
  split; [exact Hid|exact Hmode].
Defined.

(** ** The command-drain task *)

Section Drain.

Context (w : World).

Lemma process_command_skip c s :
  addressed c s = false -> process_command w c s = (tt, s).
Proof.
  unfold process_command, addressed, bind, get. intros ->. reflexivity.
Qed.

Lemma process_command_run c s :
  addressed c s = true ->
  exists r s1 evs,
    execute_switch w (normalize_target_mode (cmd_target_mode c))
      (cmd_target_pool_id c) "manual" s = (r, s1)
    /\ process_command w c s = (tt, emit (EMarkCommandExecuted (cmd_id c)) s1)
    /\ trace s1 = (trace s ++ evs)%list
    /\ Forall (switch_event (normalize_target_mode (cmd_target_mode c))) evs.
Proof.
  intros Haddr.
  destruct (execute_switch w (normalize_target_mode (cmd_target_mode c))
              (cmd_target_pool_id c) "manual" s) as [r s1] eqn:Hrun.
  pose proof (execute_switch_frame _ _ _ _ _ _ _ Hrun) as (_ & evs & Ht & He & _).
  exists r, s1, evs. repeat split; auto.
  unfold process_command, mark_command_executed.
  unfold addressed in Haddr. unfold bind, get, call, ret.
  rewrite Haddr, Hrun. reflexivity.
Qed.

Lemma process_command_acks c s :
  exists evs,
    trace (snd (process_command w c s)) = (trace s ++ evs)%list
    /\ acks evs = if addressed c s then [cmd_id c] else [].
Proof.
  destruct (addressed c s) eqn:Haddr.
  - destruct (process_command_run c s Haddr) as (r & s1 & evs & _ & -> & Ht & He).
    exists (evs ++ [EMarkCommandExecuted (cmd_id c)])%list. simpl.
    rewrite Ht, acks_app, (switch_events_unacknowledged _ _ He).
    split; [symmetry; apply app_assoc|reflexivity].
  - rewrite process_command_skip by exact Haddr.
    exists []. simpl. split; [symmetry; apply app_nil_r|reflexivity].
Qed.

Lemma for_each_acks cmds :
  forall s,
    exists evs,
      trace (snd (for_each cmds (process_command w) s)) = (trace s ++ evs)%list
      /\ acks evs = acknowledged w cmds s.
Proof.
  induction cmds as [|c rest IH]; intros s; simpl.
  - exists []. split; [symmetry; apply app_nil_r|reflexivity].
  - unfold bind.
    destruct (process_command_acks c s) as (evs1 & Ht1 & Ha1).
    destruct (process_command w c s) as [[] s1]. simpl in Ht1 |- *.
    destruct (IH s1) as (evs2 & Ht2 & Ha2).
    exists (evs1 ++ evs2)%list. rewrite Ht2, Ht1, acks_app, Ha1, Ha2.
    split; [symmetry; apply app_assoc|reflexivity].
Qed.

Lemma command_tick_busy s :
  switching_in_progress s = true -> command_tick w s = (tt, s).
Proof.
  unfold command_tick, bind, get, ret. intros ->.
  destruct (negb (enabled (config s)) || negb (auto_switch_enabled (config s)));
    reflexivity.
Qed.

Lemma command_tick_idle s :
  enabled (config s) = true -> auto_switch_enabled (config s) = true ->
  switching_in_progress s = false ->
  exists evs,
    trace (snd (command_tick w s))
    = (trace s ++ EGetPendingCommands :: evs)%list
    /\ acks evs
       = acknowledged w (default [] (http_pending_commands w (length (trace s))))
           (emit EGetPendingCommands s).
Proof.
  intros He Ha Hf.
  unfold command_tick, get_pending_commands, bind, get, call, ret.
  rewrite He, Ha, Hf. simpl.
  destruct (for_each_acks
              (default [] (http_pending_commands w (length (trace s))))
              (emit EGetPendingCommands s)) as (evs & Ht & Hacks).
  exists evs. rewrite Ht. simpl. rewrite <- app_assoc. auto.
Qed.

End Drain.

(** A stale command, as in scenario 4, is fetched and never acknowledged. *)
Lemma stale_command_unacknowledged :
  let w := scripted script4 in
  let s' := snd (command_tick w agent4) in
  http_pending_commands w 0 = Some (queued script4)
  /\ map cmd_id (queued script4) = [9]
  /\ trace s' = [EGetPendingCommands]
  /\ count_occ Z.eq_dec (acks (trace s')) 9 <> 1%nat.
Proof. vm_compute. repeat split; auto; discriminate. Qed.

(** C1, amended.  In one command-drain turn a command is acknowledged
    exactly when it is addressed to the instance the agent describes at
    the moment the loop reaches it: such a command runs the migration
    engine once, under the normalized target, and is followed by exactly
    one [mark_command_executed] with its id, whether the switch succeeded
    or not; any other command changes nothing and sends nothing.  So the
    acknowledgements of a turn are, in order, the ids of the addressed
    commands. *)
Theorem command_acknowledgements (w : World) (s : Agent) :
  enabled (config s) = true -> auto_switch_enabled (config s) = true ->
  switching_in_progress s = false ->
  (exists evs,
     trace (snd (command_tick w s))
     = (trace s ++ EGetPendingCommands :: evs)%list
     /\ acks evs
        = acknowledged w
            (default [] (http_pending_commands w (length (trace s))))
            (emit EGetPendingCommands s))
  /\ (forall c s0, addressed c s0 = false -> process_command w c s0 = (tt, s0))
  /\ (forall c s0, addressed c s0 = true ->
        exists r s1 evs,
          execute_switch w (normalize_target_mode (cmd_target_mode c))
            (cmd_target_pool_id c) "manual" s0 = (r, s1)
          /\ process_command w c s0
             = (tt, emit (EMarkCommandExecuted (cmd_id c)) s1)
          /\ trace s1 = (trace s0 ++ evs)%list
          /\ acks evs = []).
Proof.
  intros He Ha Hf. split; [apply command_tick_idle; assumption|].
  split; [apply process_command_skip|].
  intros c s0 Haddr.
  destruct (process_command_run w c s0 Haddr) as (r & s1 & evs & Hrun & Hp & Ht & Hev).
  exists r, s1, evs. repeat split; auto.
  eapply switch_events_unacknowledged; eauto.
Qed.

Lemma command_acknowledgements_witness :
  let w := scripted script1 in
  enabled (config agent1) = true
  /\ auto_switch_enabled (config agent1) = true
  /\ switching_in_progress agent1 = false
  /\ exists evs,
       trace (snd (command_tick w agent1))
       = (trace agent1 ++ EGetPendingCommands :: evs)%list
       /\ acks evs = [7].
Proof.
  repeat split.
  destruct (command_acknowledgements (scripted script1) agent1
              eq_refl eq_refl eq_refl) as ((evs & Ht & Hacks) & _).
  exists evs. split; [exact Ht|].
  rewrite Hacks. vm_compute. reflexivity.
Defined.

(** ** Outcomes of a switch *)

(** C3.  If [create_ami_from_instance] fails when step 2 calls it, then
    [execute_switch] returns [False] having made only the calls of steps
    1 and 2: no instance is launched and no switch-report is sent.  The
    in-progress flag is cleared and the identity is untouched, so the next
    command-drain turn fetches the pending commands as usual. *)
Theorem image_failure_aborts_at_snapshot
    (w : World) (tm : string) (tp : option string) (trig : string) (s : Agent) :
  switching_in_progress s = false ->
  (let id := instance_id (config s) in
   fst (create_ami_from_instance w id ("spot-optimizer-" ++ id)
          (emit (EDescribeInstances id) (set_switching true s))) = None) ->
  let s' := snd (execute_switch w tm tp trig s) in
  fst (execute_switch w tm tp trig s) = false
  /\ switching_in_progress s' = false
  /\ config s' = config s
  /\ (exists evs,
        trace s' = (trace s ++ evs)%list
        /\ Forall snapshot_event evs
        /\ (forall p, ERunInstances p ∉ evs)
        /\ (forall r, ESwitchReport r ∉ evs))
  /\ (enabled (config s) = true -> auto_switch_enabled (config s) = true ->
      exists evs,
        trace (snd (command_tick w s'))
        = (trace s' ++ EGetPendingCommands :: evs)%list).
Proof.
  intros Hflag Hami. cbv zeta in Hami |- *.
  destruct (execute_switch w tm tp trig s) as [r s'] eqn:Hrun. simpl.
  pose proof (execute_switch_frame _ _ _ _ _ _ _ Hrun) as (Hflag' & _).
  apply execute_switch_inv in Hrun. rewrite Hflag in Hrun.
  destruct Hrun as (s1 & Hsteps & ->).
  apply switch_steps_inv in Hsteps as (locals & sg & Hg & Hsteps).
  assert (Hnone : locals = None
                  /\ quiet snapshot_event (set_switching true s) sg).
  { unfold switch_gather in Hg.
    apply bind_inv in Hg as (s0 & s0' & [= <- <-] & Hg).
    apply bind_inv in Hg as (details & sa & Hd & Hg).
    assert (sa = emit (EDescribeInstances (instance_id (config s)))
                   (set_switching true s)) as Hsa.
    { unfold get_instance_details, bind, call, ret in Hd.
      injection Hd as _ <-. reflexivity. }
    eapply local_inv in Hd; [|apply get_instance_details_local].
    destruct details as [details|].
    - apply bind_inv in Hg as (ami & sb & Ha & Hg).
      simpl in Ha. rewrite Hsa in Ha. rewrite Ha in Hami. simpl in Hami.
      subst ami. injection Hg as <- <-.
      eapply local_inv in Ha; [|apply create_ami_from_instance_local].
      split; [reflexivity|].
      eapply quiet_trans; [exact Hd|]. rewrite Hsa. exact Ha.
    - injection Hg as <- <-. auto. }
  destruct Hnone as (-> & Hc & _ & _ & _ & evs & Ht & Hev).
  destruct Hsteps as (-> & ->). simpl in Hc, Ht |- *.
  split; [reflexivity|]. split; [reflexivity|]. split; [exact Hc|].
  split.
  - exists evs. split; [exact Ht|]. split; [exact Hev|].
    rewrite Forall_forall in Hev.
    split; intros x Hin; exact (Hev _ Hin).
  - intros He Ha.
    destruct (command_tick_idle w (set_switching false sg)) as (evs' & Ht' & _);
      simpl; try congruence.
    exists evs'. exact Ht'.
Qed.

Lemma image_failure_aborts_at_snapshot_witness :
  let w := scripted script5 in
  let s' := snd (execute_switch w "ondemand" None "manual" agent1) in
  fst (execute_switch w "ondemand" None "manual" agent1) = false
  /\ switching_in_progress s' = false
  /\ trace s' = [EDescribeInstances "i-A"; EUtcNow;
                 ECreateImage "i-A" "spot-optimizer-i-A" (seconds 1);
                 EWaitImageAvailable "ami-1"].
Proof.
  destruct (image_failure_aborts_at_snapshot (scripted script5) "ondemand"
              None "manual" agent1 eq_refl eq_refl)
    as (Hr & Hf & _).
  split; [exact Hr|]. split; [exact Hf|].
  vm_compute. reflexivity.
Defined.

(** The four time stamps are readings of [datetime.utcnow()], the wall
    clock of the host.  When that clock is set back between two readings,
    the record of a successful switch has them out of order: here the
    switch is initiated at 3604 s and the successor is ready at 8 s. *)
Lemma clock_set_back_breaks_order :
  let w := clock_set_back in
  let s' := snd (execute_switch w "ondemand" None "manual" agent1) in
  execute_switch w "ondemand" None "manual" agent1 = (true, s')
  /\ exists evs report,
       trace s' = (trace agent1 ++ evs)%list
       /\ reports evs = [report]
       /\ switch_initiated_at (timing report) = seconds 3604
       /\ new_instance_ready_at (timing report) = seconds 8
       /\ ~ (switch_initiated_at (timing report)
             <= new_instance_ready_at (timing report)).
Proof.
  cbv zeta. split; [vm_compute; reflexivity|].
  eexists _, _. split; [vm_compute; reflexivity|].
  split; [vm_compute; reflexivity|].
  split; [vm_compute; reflexivity|].
  split; [vm_compute; reflexivity|].
  vm_compute. intros Hle. apply Hle. reflexivity.
Qed.

(** C4, amended.  Under a clock that does not run backwards, a successful
    [execute_switch] emits one record, whose time stamps satisfy
    initiated <= new_instance_ready <= traffic_switched and, when the
    termination time stamp is present, traffic_switched <= terminated. *)
Theorem switch_report_timestamps_ordered
    (w : World) (tm : string) (tp : option string) (trig : string)
    (s s' : Agent) :
  monotone_clock w ->
  execute_switch w tm tp trig s = (true, s') ->
  exists evs report,
    trace s' = (trace s ++ evs)%list
    /\ reports evs = [report]
    /\ switch_initiated_at (timing report) <= new_instance_ready_at (timing report)
    /\ new_instance_ready_at (timing report) <= traffic_switched_at (timing report)
    /\ forall t, old_instance_terminated_at (timing report) = Some t ->
                 traffic_switched_at (timing report) <= t.
Proof.
  intros Hclock Hrun.
  apply execute_switch_true in Hrun as (_ & l & sg & t & s2 & Hg & Ht & ->).
  destruct (switch_gather_some _ _ _ _ _ _ Hg)
    as (_ & _ & _ & n1 & n2 & Hstart & Hready & Hn).
  eapply local_inv in Hg; [|apply switch_gather_local].
  destruct Hg as (_ & _ & _ & _ & pre & Hpre & Hgather).
  apply terminate_old_inv in Ht
    as ((_ & _ & _ & _ & post & Hpost & Hquiet) & Hterm & _).
  simpl in Hpre, Hpost.
  eexists (pre ++ [EUtcNow] ++ post ++ [ESwitchReport _])%list, _.
  split; [|split].
  - simpl. rewrite Hpost, Hpre, <- !app_assoc. reflexivity.
  - rewrite !reports_app.
    destruct (gather_events_silent _ _ Hgather) as (_ & -> & _).
    rewrite (terminate_events_unreported _ Hquiet). reflexivity.
  - simpl. rewrite Hstart, Hready. repeat split.
    + apply Hclock. lia.
    + apply Hclock. rewrite <- ?Hpre. lia.
    + intros x ->. destruct (Hterm x eq_refl) as (n & -> & Hle).
      apply Hclock. simpl in Hle. rewrite length_app in Hle. simpl in Hle.
      rewrite <- ?Hpre. lia.
Qed.

Lemma switch_report_timestamps_ordered_witness :
  let w := scripted script1 in
  let s' := snd (execute_switch w "ondemand" None "manual" agent1) in
  monotone_clock w
  /\ execute_switch w "ondemand" None "manual" agent1 = (true, s')
  /\ exists evs report,
       trace s' = (trace agent1 ++ evs)%list
       /\ reports evs = [report]
       /\ switch_initiated_at (timing report)
          <= traffic_switched_at (timing report).
Proof.
  assert (Hclock : monotone_clock (scripted script1)).
  { intros i j Hij. unfold scripted, seconds. simpl. nia. }
  assert (Hrun : execute_switch (scripted script1) "ondemand" None "manual" agent1
                 = (true, snd (execute_switch (scripted script1) "ondemand"
                                 None "manual" agent1)))
    by (vm_compute; reflexivity).
  split; [exact Hclock|]. split; [exact Hrun|].
  destruct (switch_report_timestamps_ordered _ _ _ _ _ _ Hclock Hrun)
    as (evs & report & Ht & Hr & H1 & H2 & _).
  exists evs, report. split; [exact Ht|]. split; [exact Hr|]. lia.
Defined.

(** C5.  A command addressed to the agent whose target is [pool] or [spot]
    runs the engine with target [spot], one whose target is [ondemand]
    runs it with [ondemand]; and every launch request made for the command
    carries the spot market options exactly in the first case. *)
Theorem legacy_token_normalization (w : World) (c : Command) (s : Agent) :
  addressed c s = true ->
  cmd_target_mode c = "pool" \/ cmd_target_mode c = "spot"
  \/ cmd_target_mode c = "ondemand" ->
  let reclaimable := negb (String.eqb (cmd_target_mode c) "ondemand") in
  let target := if reclaimable then "spot" else "ondemand" in
  normalize_target_mode (cmd_target_mode c) = target
  /\ (exists r s1,
        execute_switch w target (cmd_target_pool_id c) "manual" s = (r, s1)
        /\ process_command w c s
           = (tt, emit (EMarkCommandExecuted (cmd_id c)) s1))
  /\ exists evs,
       trace (snd (process_command w c s)) = (trace s ++ evs)%list
       /\ forall p, ERunInstances p ∈ evs ->
            lp_InstanceMarketOptions p
            = if reclaimable then Some spot_market_options else None.
Proof.
  intros Haddr Hmode. cbv zeta.
  destruct (process_command_run w c s Haddr) as (r & s1 & evs & Hrun & Hp & Ht & Hev).
  assert (Hnorm : normalize_target_mode (cmd_target_mode c)
                  = if negb (String.eqb (cmd_target_mode c) "ondemand")
                    then "spot" else "ondemand").
  { destruct Hmode as [-> | [-> | ->]]; reflexivity. }
  rewrite Hnorm in Hrun, Hev.
  split; [exact Hnorm|]. split; [eauto|].
  exists (evs ++ [EMarkCommandExecuted (cmd_id c)])%list.
  rewrite Hp. simpl. rewrite Ht. split; [symmetry; apply app_assoc|].
  intros p Hin. apply elem_of_app in Hin as [Hin|Hin].
  - destruct (switch_events_launch _ _ _ Hev Hin) as (lc & t & ->).
    destruct Hmode as [-> | [-> | ->]]; reflexivity.
  - apply list_elem_of_singleton in Hin. discriminate.
Qed.

Lemma legacy_token_normalization_witness :
  let w := scripted script2 in
  let c := {| cmd_id := 8; cmd_instance_id := "i-A"; cmd_target_mode := "pool";
              cmd_target_pool_id := Some "m5.large_apsouth1b" |} in
  addressed c agent2 = true
  /\ exists evs p,
       trace (snd (process_command w c agent2)) = (trace agent2 ++ evs)%list
       /\ ERunInstances p ∈ evs
       /\ lp_InstanceMarketOptions p = Some spot_market_options.
Proof.
  split; [reflexivity|].
  destruct (legacy_token_normalization (scripted script2)
              {| cmd_id := 8; cmd_instance_id := "i-A";
                 cmd_target_mode := "pool";
                 cmd_target_pool_id := Some "m5.large_apsouth1b" |}
              agent2 eq_refl (or_introl eq_refl))
    as (_ & _ & evs & Ht & Hlaunch).
  assert (Hin : exists p, ERunInstances p ∈ evs).
  { vm_compute in Ht. subst evs. eexists. do 6 apply list_elem_of_further.
    apply list_elem_of_here. }
  destruct Hin as (p & Hin).
  exists evs, p. split; [exact Ht|]. split; [exact Hin|].
  exact (Hlaunch p Hin).
Defined.

(** C6.  With [auto_terminate_enabled] false, a successful
    [execute_switch] never asks to terminate an instance, and the one
    record it emits has no termination time stamp.  The same call with the
    flag true also succeeds, and its record differs from this one in the
    termination time stamp at most. *)
Theorem auto_terminate_disabled_keeps_predecessor
    (w : World) (tm : string) (tp : option string) (trig : string)
    (s s' : Agent) :
  auto_terminate_enabled (config s) = false ->
  execute_switch w tm tp trig s = (true, s') ->
  exists evs report,
    trace s' = (trace s ++ evs)%list
    /\ (forall id, ETerminateInstances id ∉ evs)
    /\ reports evs = [report]
    /\ old_instance_terminated_at (timing report) = None
    /\ exists s'' evs'' t,
         execute_switch w tm tp trig (set_auto_terminate true s) = (true, s'')
         /\ trace s'' = (trace s ++ evs'')%list
         /\ reports evs'' = [with_terminated t report].
Proof.
  intros Hoff Hrun.
  apply execute_switch_true in Hrun as (Hflag & l & sg & t & s2 & Hg & Ht & ->).
  pose proof (local_inv _ _ _ _ _ (switch_gather_local w tm tp) Hg)
    as (Hc & _ & _ & _ & pre & Hpre & Hgather).
  simpl in Hc, Hpre.
  destruct (gather_events_silent _ _ Hgather) as (_ & Hsilent & Hnoterm).
  apply terminate_old_inv in Ht as (_ & _ & Hskip).
  destruct Hskip as [-> ->]; [simpl; congruence|].
  (* the run with the flag set *)
  pose proof (switch_gather_oblivious w tm tp true (set_switching true s)) as Hg'.
  rewrite Hg in Hg'. simpl fst in Hg'. simpl snd in Hg'.
  destruct (terminate_old w (sl_old_instance_id l)
              (emit EUtcNow (set_auto_terminate true sg))) as [t' s2'] eqn:Ht'.
  pose proof (execute_switch_run w tm tp trig (set_auto_terminate true s)
                l _ t' s2' Hflag Hg' Ht') as Hrun'.
  apply terminate_old_inv in Ht'
    as ((Hc' & _ & _ & _ & post & Hpost & Hquiet) & _ & _).
  simpl in Hc', Hpost.
  eexists (pre ++ [EUtcNow; ESwitchReport _])%list, _.
  split; [|split; [|split; [|split]]].
  - simpl. rewrite Hpre, <- !app_assoc. reflexivity.
  - intros id Hin. apply elem_of_app in Hin as [Hin|Hin].
    + exact (Hnoterm id Hin).
    + apply elem_of_cons in Hin as [Hin|Hin]; [discriminate|].
      apply list_elem_of_singleton in Hin. discriminate.
  - rewrite reports_app, Hsilent. reflexivity.
  - reflexivity.
  - eexists _, (pre ++ [EUtcNow] ++ post ++ [ESwitchReport _])%list, t'.
    split; [exact Hrun'|]. split.
    + simpl. rewrite Hpost, Hpre, <- !app_assoc. reflexivity.
    + rewrite !reports_app, Hsilent, (terminate_events_unreported _ Hquiet).
      simpl. rewrite Hc'. reflexivity.
Qed.

Lemma auto_terminate_disabled_keeps_predecessor_witness :
  let w := scripted script1 in
  let s' := snd (execute_switch w "ondemand" None "manual" agent3) in
  auto_terminate_enabled (config agent3) = false
  /\ execute_switch w "ondemand" None "manual" agent3 = (true, s')
  /\ exists evs report,
       trace s' = (trace agent3 ++ evs)%list
       /\ (forall id, ETerminateInstances id ∉ evs)
       /\ reports evs = [report]
       /\ old_instance_terminated_at (timing report) = None.
Proof.
  assert (Hrun : execute_switch (scripted script1) "ondemand" None "manual" agent3
                 = (true, snd (execute_switch (scripted script1) "ondemand"
                                 None "manual" agent3)))
    by (vm_compute; reflexivity).
  split; [reflexivity|]. split; [exact Hrun|].
  destruct (auto_terminate_disabled_keeps_predecessor (scripted script1)
              "ondemand" None "manual" agent3 _ eq_refl Hrun)
    as (evs & report & Ht & Hno & Hr & Hnull & _).
  exists evs, report. auto.
Defined.

(** What step 9 rebinds.  After a successful switch the instance id, the
    instance type, the zone, the mode and the pool of the agent are those
    of the successor, as the record describes it; the image id of the
    configuration is not written. *)
Lemma execute_switch_rebinds
    (w : World) (tm : string) (tp : option string) (trig : string)
    (s s' : Agent) :
  execute_switch w tm tp trig s = (true, s') ->
  exists evs report,
    trace s' = (trace s ++ evs)%list
    /\ reports evs = [report]
    /\ instance_id (config s') = is_instance_id (new_instance report)
    /\ instance_type (config s') = is_instance_type (new_instance report)
    /\ availability_zone (config s') = is_az (new_instance report)
    /\ current_mode s' = is_mode (new_instance report)
    /\ current_pool_id s' = is_pool_id (new_instance report)
    /\ ami_id (config s') = ami_id (config s).
Proof.
  intros Hrun.
  apply execute_switch_true in Hrun as (_ & l & sg & t & s2 & Hg & Ht & ->).
  eapply local_inv in Hg; [|apply switch_gather_local].
  destruct Hg as (Hc & _ & _ & _ & pre & Hpre & Hgather).
  apply terminate_old_inv in Ht
    as ((Hc' & _ & _ & _ & post & Hpost & Hquiet) & _ & _).
  simpl in Hc, Hc', Hpre, Hpost.
  eexists (pre ++ [EUtcNow] ++ post ++ [ESwitchReport _])%list, _.
  split; [|split].
  - simpl. rewrite Hpost, Hpre, <- !app_assoc. reflexivity.
  - rewrite !reports_app.
    destruct (gather_events_silent _ _ Hgather) as (_ & -> & _).
    rewrite (terminate_events_unreported _ Hquiet). reflexivity.
  - simpl. rewrite Hc', Hc. repeat split.
Qed.

(** C2, at scenario 1.  The command [{id: 7, instance_id: i-A,
    target_mode: ondemand}] is carried out: the successor [i-B] is
    reported with image [ami-1], and the agent then describes [i-B],
    [m5.large], [ap-south-1a], mode [ondemand], no pool; but the image id
    of its identity is still [ami-0]. *)
Theorem scenario1_identity_keeps_old_image :
  let w := scripted script1 in
  let s' := snd (command_tick w agent1) in
  (instance_id (config s'), instance_type (config s'),
   availability_zone (config s'), ami_id (config s'),
   current_mode s', current_pool_id s')
  = ("i-B", "m5.large", "ap-south-1a", "ami-0", Some "ondemand", None)
  /\ map (fun r => (is_instance_id (new_instance r), is_ami_id (new_instance r)))
         (reports (trace s'))
     = [("i-B", "ami-1")]
  /\ acks (trace s') = [7].
Proof. vm_compute. repeat split. Qed.

(** ** The fixed-price accessor *)

Section FixedPrice.

Context (w : World).

Lemma get_ondemand_price_run itype s :
  get_ondemand_price w itype s
  = (ondemand_price_of
       (pricing_get_products w (length (trace s)) itype
          (location_of (region (config s)))),
     emit (EGetProducts itype (location_of (region (config s)))) s).
Proof. reflexivity. Qed.

Lemma cached_ondemand_price_fresh s p :
  fresh_cache w s p -> cached_ondemand_price w s = (Some p, emit EUtcNow s).
Proof.
  intros (Hp & Htruthy & fetched & Hf & Hage).
  unfold cached_ondemand_price, bind, get, call, ret.
  rewrite Hp, Hf, Htruthy.
  apply Z.ltb_lt in Hage. rewrite Hage. reflexivity.
Qed.

Lemma cached_ondemand_price_inv s c s1 :
  cached_ondemand_price w s = (c, s1) ->
  (s1 = s \/ s1 = emit EUtcNow s)
  /\ match c with
     | Some p => fresh_cache w s p
     | None => True
     end.
Proof.
  unfold cached_ondemand_price, bind, get, call, ret, fresh_cache.
  destruct (last_ondemand_price s) as [p|] eqn:Hp;
    [|intros [= <- <-]; auto].
  destruct (last_ondemand_fetch s) as [fetched|] eqn:Hf;
    [|intros [= <- <-]; auto].
  destruct (price_truthy p) eqn:Htruthy; [|intros [= <- <-]; auto].
  destruct (utcnow w (length (trace s)) - fetched
            <? seconds (ondemand_price_interval (config s)))%Z eqn:Hage;
    intros [= <- <-]; (split; [auto|]); [|exact I].
  apply Z.ltb_lt in Hage. eauto.
Qed.

Lemma or_placeholder_truthy (o : option price) :
  price_truthy (if opt_price_truthy o then default placeholder_price o
                else placeholder_price) = true.
Proof.
  destruct o as [p|]; simpl; [|reflexivity].
  destruct (price_truthy p) eqn:Hp; [exact Hp|reflexivity].
Qed.

Lemma _get_ondemand_price_truthy s :
  price_truthy (fst (_get_ondemand_price w s)) = true.
Proof.
  destruct (_get_ondemand_price w s) as [p s'] eqn:Hrun. simpl.
  unfold _get_ondemand_price in Hrun.
  apply bind_inv in Hrun as (cached & s1 & Hc & Hrun).
  apply cached_ondemand_price_inv in Hc as (_ & Hc).
  destruct cached as [q|].
  - injection Hrun as <- <-. apply Hc.
  - apply bind_inv in Hrun as (s2 & s2' & [= <- <-] & Hrun).
    apply bind_inv in Hrun as (price0 & s3 & _ & Hrun).
    apply bind_inv in Hrun as (u & s4 & _ & Hrun).
    apply bind_inv in Hrun as (s5 & s5' & [= <- <-] & Hrun).
    injection Hrun as <- <-. apply or_placeholder_truthy.
Qed.

Lemma _get_ondemand_price_stale s :
  (forall p, ~ fresh_cache w s p) ->
  exists pre post,
    trace (snd (_get_ondemand_price w s))
    = (trace s ++ pre
       ++ EGetProducts (instance_type (config s))
            (location_of (region (config s))) :: post)%list.
Proof.
  intros Hstale. unfold _get_ondemand_price, bind at 1.
  destruct (cached_ondemand_price w s) as [cached s1] eqn:Hc.
  apply cached_ondemand_price_inv in Hc as (Hs1 & Hc).
  destruct cached as [p|]; [destruct (Hstale p Hc)|].
  unfold bind at 1. unfold get at 1. unfold bind at 1.
  rewrite get_ondemand_price_run. unfold bind at 1.
  assert (Hcfg : config s1 = config s) by (destruct Hs1 as [-> | ->]; reflexivity).
  rewrite Hcfg.
  assert (Hpre : exists pre, trace s1 = (trace s ++ pre)%list).
  { destruct Hs1 as [-> | ->];
      [exists []; symmetry; apply app_nil_r|exists [EUtcNow]; reflexivity]. }
  destruct Hpre as (pre & Hpre).
  destruct (opt_price_truthy _); unfold bind, get, call, modify, ret; simpl;
    rewrite Hpre, <- !app_assoc; eauto.
Qed.

Lemma _get_ondemand_price_placeholder s :
  last_ondemand_price s = None ->
  opt_price_truthy
    (fst (get_ondemand_price w (instance_type (config s)) s)) = false ->
  _get_ondemand_price w s
  = (placeholder_price,
     emit (EGetProducts (instance_type (config s))
             (location_of (region (config s)))) s).
Proof.
  intros Hnone Hfail. rewrite get_ondemand_price_run in Hfail. simpl in Hfail.
  unfold _get_ondemand_price, cached_ondemand_price.
  unfold bind at 1. unfold bind at 1. unfold get at 1. rewrite Hnone.
  unfold ret at 1. unfold bind at 1. unfold get at 1. unfold bind at 1.
  rewrite get_ondemand_price_run, Hfail.
  unfold bind, get, ret. simpl. rewrite Hnone. reflexivity.
Qed.

End FixedPrice.

(** *** What the cache holds *)

Lemma keeps_ret {A} (a : A) : keeps_cache (ret a).
Proof. intros s Hs. exact Hs. Qed.

Lemma keeps_get : keeps_cache get.
Proof. intros s Hs. exact Hs. Qed.

Lemma keeps_call {A} (ask : nat -> A) e : keeps_cache (call ask e).
Proof. intros s Hs. exact Hs. Qed.

Lemma keeps_bind {A B} (m : M A) (k : A -> M B) :
  keeps_cache m -> (forall a, keeps_cache (k a)) -> keeps_cache (bind m k).
Proof.
  intros Hm Hk s Hs. unfold bind. specialize (Hm s Hs).
  destruct (m s) as [a s1]. apply Hk, Hm.
Qed.

Lemma keeps_modify (f : Agent -> Agent) :
  (forall s, last_ondemand_price (f s) = last_ondemand_price s) ->
  keeps_cache (modify f).
Proof. intros Hf s Hs p. simpl. rewrite Hf. apply Hs. Qed.

Lemma keeps_set_last_ondemand p t :
  opt_price_truthy p = true -> keeps_cache (modify (set_last_ondemand p t)).
Proof. intros Hp s _ q. simpl. intros ->. exact Hp. Qed.

Ltac keeps_steps :=
  repeat lazymatch goal with
    | |- keeps_cache (ret _) => apply keeps_ret
    | |- keeps_cache get => apply keeps_get
    | |- keeps_cache (call _ _) => apply keeps_call
    | |- keeps_cache (modify (set_last_ondemand _ _)) =>
        apply keeps_set_last_ondemand; assumption
    | |- keeps_cache (modify _) => apply keeps_modify; reflexivity
    | |- keeps_cache (bind _ _) => apply keeps_bind; [|intros ?]
    | |- keeps_cache (match ?x with _ => _ end) => destruct x eqn:?
    | |- keeps_cache (if ?x then _ else _) => destruct x eqn:?
    end.

Section Cache.

Context (w : World).

Lemma get_instance_details_keeps id : keeps_cache (get_instance_details w id).
Proof. unfold get_instance_details. keeps_steps. Qed.

Lemma get_current_mode_keeps id : keeps_cache (get_current_mode w id).
Proof.
  unfold get_current_mode.
  apply keeps_bind; [apply get_instance_details_keeps|intros; apply keeps_ret].
Qed.

Lemma create_ami_from_instance_keeps id prefix :
  keeps_cache (create_ami_from_instance w id prefix).
Proof. unfold create_ami_from_instance. keeps_steps. Qed.

Lemma launch_instance_keeps lc tm tp : keeps_cache (launch_instance w lc tm tp).
Proof. unfold launch_instance. keeps_steps. Qed.

Lemma get_spot_prices_keeps itype : keeps_cache (get_spot_prices w itype).
Proof. unfold get_spot_prices. keeps_steps. Qed.

Lemma get_ondemand_price_keeps itype : keeps_cache (get_ondemand_price w itype).
Proof. unfold get_ondemand_price. keeps_steps. Qed.

Lemma _get_ondemand_price_keeps : keeps_cache (_get_ondemand_price w).
Proof.
  unfold _get_ondemand_price, cached_ondemand_price.
  apply keeps_bind; [keeps_steps|intros cached].
  destruct cached; [apply keeps_ret|].
  apply keeps_bind; [apply keeps_get|intros s].
  apply keeps_bind; [apply get_ondemand_price_keeps|intros price0].
  keeps_steps.
Qed.

Lemma ondemand_price_tick_keeps : keeps_cache (ondemand_price_tick w).
Proof.
  unfold ondemand_price_tick.
  apply keeps_bind; [apply keeps_get|intros s].
  apply keeps_bind; [apply get_ondemand_price_keeps|intros price0].
  keeps_steps.
Qed.

Lemma switch_gather_keeps tm tp : keeps_cache (switch_gather w tm tp).
Proof.
  unfold switch_gather.
  apply keeps_bind; [apply keeps_get|intros s0].
  apply keeps_bind; [apply get_instance_details_keeps|intros details].
  destruct details as [details|]; [|apply keeps_ret].
  apply keeps_bind; [apply create_ami_from_instance_keeps|intros ami].
  destruct ami as [[|c ami]|]; try apply keeps_ret.
  apply keeps_bind; [apply keeps_call|intros timing_start].
  apply keeps_bind; [apply launch_instance_keeps|intros new_id].
  destruct new_id as [[|c' new_id]|]; try apply keeps_ret.
  apply keeps_bind; [apply keeps_call|intros timing_ready].
  apply keeps_bind; [apply keeps_call|intros _].
  apply keeps_bind; [apply get_instance_details_keeps|intros new_details].
  destruct new_details as [new_details|]; [|apply keeps_ret].
  apply keeps_bind; [apply get_current_mode_keeps|intros new_mode].
  apply keeps_bind; [apply _get_ondemand_price_keeps|intros price0].
  apply keeps_bind; [apply keeps_get|intros s1].
  apply keeps_bind; [apply get_spot_prices_keeps|intros pools].
  apply keeps_ret.
Qed.

Lemma execute_switch_keeps tm tp trig :
  keeps_cache (execute_switch w tm tp trig).
Proof.
  unfold execute_switch.
  apply keeps_bind; [apply keeps_get|intros s].
  destruct (switching_in_progress s); [apply keeps_ret|].
  apply keeps_bind; [apply keeps_modify; reflexivity|intros _].
  apply keeps_bind; [|intros r; keeps_steps].
  unfold switch_steps.
  apply keeps_bind; [apply switch_gather_keeps|intros locals].
  destruct locals as [l|]; [|apply keeps_ret].
  unfold terminate_old, terminate_instance, report_switch_event.
  keeps_steps.
Qed.

Lemma command_tick_keeps : keeps_cache (command_tick w).
Proof.
  unfold command_tick, get_pending_commands.
  apply keeps_bind; [apply keeps_get|intros s].
  destruct (_ || _); [apply keeps_ret|].
  destruct (switching_in_progress s); [apply keeps_ret|].
  apply keeps_bind; [keeps_steps|intros cmds].
  induction cmds as [|c rest IH]; simpl; [apply keeps_ret|].
  apply keeps_bind; [|intros _; exact IH].
  unfold process_command, mark_command_executed.
  apply keeps_bind; [apply keeps_get|intros s0].
  destruct (String.eqb _ _); [|apply keeps_ret].
  apply keeps_bind; [apply execute_switch_keeps|intros r]. keeps_steps.
Qed.

Lemma spot_price_tick_keeps : keeps_cache (spot_price_tick w).
Proof.
  unfold spot_price_tick, get_instance_type, _fetch_metadata, _get_token.
  apply keeps_bind; [keeps_steps|intros current_type].
  apply keeps_bind; [apply keeps_get|intros s].
  apply keeps_bind; [keeps_steps|intros _].
  apply keeps_bind; [apply keeps_get|intros s1].
  apply keeps_bind; [apply get_spot_prices_keeps|intros pools].
  destruct pools as [|pool pools]; [apply keeps_ret|].
  apply keeps_bind; [apply _get_ondemand_price_keeps|intros price0].
  apply keeps_bind; [apply keeps_get|intros s2].
  apply keeps_bind; [apply get_current_mode_keeps|intros mode].
  unfold send_pricing_report. keeps_steps.
Qed.

End Cache.

(** C10.  [_get_ondemand_price] always returns a price, never zero.  A
    cached price is never zero either, whichever task wrote it; when it
    was fetched less than the poll interval ago the accessor returns it
    without asking the catalog; when there is none, or it is older, the
    accessor asks the catalog; and when that fails and nothing was ever
    cached the result is the placeholder 0.1.  With an unreachable catalog
    both the switch record and the pricing report of scenario 1 carry
    that placeholder as the fixed price. *)
Theorem fixed_price_never_absent :
  (forall w s, price_truthy (fst (_get_ondemand_price w s)) = true)
  /\ (forall w s,
        (last_ondemand_price s = None -> cache_truthy s)
        /\ (cache_truthy s ->
            cache_truthy (snd (_get_ondemand_price w s))
            /\ cache_truthy (snd (ondemand_price_tick w s))
            /\ cache_truthy (snd (spot_price_tick w s))
            /\ cache_truthy (snd (command_tick w s))))
  /\ (forall w s p fetched,
        cache_truthy s ->
        last_ondemand_price s = Some p ->
        last_ondemand_fetch s = Some fetched ->
        utcnow w (length (trace s)) - fetched
        < seconds (ondemand_price_interval (config s)) ->
        _get_ondemand_price w s = (p, emit EUtcNow s))
  /\ (forall w s,
        last_ondemand_price s = None \/ last_ondemand_fetch s = None
        \/ (exists fetched,
              last_ondemand_fetch s = Some fetched
              /\ seconds (ondemand_price_interval (config s))
                 <= utcnow w (length (trace s)) - fetched) ->
        exists pre post,
          trace (snd (_get_ondemand_price w s))
          = (trace s ++ pre
             ++ EGetProducts (instance_type (config s))
                  (location_of (region (config s))) :: post)%list)
  /\ (forall w s,
        last_ondemand_price s = None ->
        opt_price_truthy
          (fst (get_ondemand_price w (instance_type (config s)) s)) = false ->
        _get_ondemand_price w s
        = (placeholder_price,
           emit (EGetProducts (instance_type (config s))
                   (location_of (region (config s)))) s))
  /\ (let w := scripted script_no_catalog in
      map (fun r => on_demand (prices r))
          (reports (trace (snd (execute_switch w "ondemand" None "manual" agent1))))
      = [placeholder_price]
      /\ map pr_on_demand_price
             (pricing_reports (trace (snd (spot_price_tick w agent1))))
         = [placeholder_price]).
Proof.
  split; [exact _get_ondemand_price_truthy|].
  split.
  { intros w s. split.
    - intros Hnone p Hp. congruence.
    - intros Hs. split; [apply _get_ondemand_price_keeps, Hs|].
      split; [apply ondemand_price_tick_keeps, Hs|].
      split; [apply spot_price_tick_keeps, Hs|apply command_tick_keeps, Hs]. }
  split.
  { intros w s p fetched Hs Hp Hf Hage. unfold _get_ondemand_price, bind.
    rewrite (cached_ondemand_price_fresh w s p); [reflexivity|].
    split; [exact Hp|]. split; [exact (Hs p Hp)|]. eauto. }
  split.
  { intros w s Hstale. apply _get_ondemand_price_stale.
    intros p (Hp & _ & fetched & Hf & Hage).
    destruct Hstale as [Hnone|[Hnone|(fetched' & Hf' & Hold)]]; try congruence.
    rewrite Hf in Hf'. injection Hf' as <-. lia. }
  split; [exact _get_ondemand_price_placeholder|].
  vm_compute. split; reflexivity.
Qed.

(** ** One migration at a time *)

Module ThreadFacts.
Import Threads.

Lemma invariant_initial : invariant initial.
Proof.
  split; simpl.
  - intros t. split; discriminate.
  - discriminate.
  - split; [discriminate|]. intros (t & Ht). discriminate.
  - discriminate.
Qed.

(** One thread moves from [pcs σ t] to [p]; what the lock and the flag
    must do for the invariant to survive. *)
Lemma invariant_move σ t p l f :
  invariant σ ->
  (holds_lock p = true ->
   l = Some t /\ (holds_lock (pcs σ t) = true \/ lock σ = None)) ->
  (holds_lock p = false ->
   l = if holds_lock (pcs σ t) then None else lock σ) ->
  (owns_flag p = true ->
   f = true /\ (owns_flag (pcs σ t) = true \/ flag σ = false)) ->
  (owns_flag p = false ->
   f = if owns_flag (pcs σ t) then false else flag σ) ->
  (p = Setting -> f = false) ->
  (f = flag σ \/ f = false \/ holds_lock (pcs σ t) = true) ->
  invariant (move t p l f σ).
Proof.
  intros [Hl Ho Hf Hs] Hlock1 Hlock0 Hown1 Hown0 Hset Hother.
  assert (Hsole : forall t0, t0 <> t -> holds_lock (pcs σ t0) = true ->
                             holds_lock (pcs σ t) = false).
  { intros t0 Hne H0. destruct (holds_lock (pcs σ t)) eqn:Ht; [|reflexivity].
    apply Hl in H0, Ht. congruence. }
  assert (Hsole' : forall t0, t0 <> t -> owns_flag (pcs σ t0) = true ->
                              owns_flag (pcs σ t) = false).
  { intros t0 Hne H0. destruct (owns_flag (pcs σ t)) eqn:Ht; [|reflexivity].
    destruct Hne. eauto. }
  split; simpl.
  - intros t0. destruct (decide (t0 = t)) as [->|Hne].
    + rewrite fn_lookup_insert. destruct (holds_lock p) eqn:Hp.
      * destruct (Hlock1 eq_refl) as [-> _]. tauto.
      * rewrite (Hlock0 eq_refl). split; [discriminate|].
        destruct (holds_lock (pcs σ t)) eqn:Ht; [discriminate|].
        intros Heq. apply Hl in Heq. congruence.
    + rewrite fn_lookup_insert_ne by congruence. split.
      * intros H0. pose proof (Hsole t0 Hne H0) as Ht. apply Hl in H0.
        destruct (holds_lock p) eqn:Hp.
        -- destruct (Hlock1 eq_refl) as [_ [?|?]]; congruence.
        -- rewrite (Hlock0 eq_refl), Ht. exact H0.
      * intros Heq. destruct (holds_lock p) eqn:Hp.
        -- destruct (Hlock1 eq_refl) as [? _]. congruence.
        -- rewrite (Hlock0 eq_refl) in Heq.
           destruct (holds_lock (pcs σ t)); [discriminate|]. apply Hl, Heq.
  - intros t1 t2.
    destruct (decide (t1 = t)) as [->|Hne1], (decide (t2 = t)) as [->|Hne2];
      rewrite ?fn_lookup_insert, ?fn_lookup_insert_ne by congruence;
      auto; intros H1 H2.
    + destruct (Hown1 H1) as [_ [Ht|Hflag]].
      * eauto.
      * assert (flag σ = true) by (apply Hf; eauto). congruence.
    + destruct (Hown1 H2) as [_ [Ht|Hflag]].
      * eauto.
      * assert (flag σ = true) by (apply Hf; eauto). congruence.
  - split.
    + intros ->. destruct (owns_flag p) eqn:Hp.
      * exists t. rewrite fn_lookup_insert. exact Hp.
      * pose proof (Hown0 eq_refl) as Hflag.
        destruct (owns_flag (pcs σ t)) eqn:Ht; [discriminate|].
        symmetry in Hflag. apply Hf in Hflag as (t0 & H0).
        exists t0. rewrite fn_lookup_insert_ne; [exact H0|]. congruence.
    + intros (t0 & H0). destruct (decide (t0 = t)) as [->|Hne].
      * rewrite fn_lookup_insert in H0. apply Hown1, H0.
      * rewrite fn_lookup_insert_ne in H0 by congruence.
        destruct (owns_flag p) eqn:Hp; [apply Hown1; reflexivity|].
        rewrite (Hown0 eq_refl), (Hsole' t0 Hne H0). apply Hf. eauto.
  - intros t0. destruct (decide (t0 = t)) as [->|Hne].
    + rewrite fn_lookup_insert. exact Hset.
    + rewrite fn_lookup_insert_ne by congruence. intros H0.
      assert (holds_lock (pcs σ t0) = true) as Hheld by (rewrite H0; reflexivity).
      pose proof (Hsole t0 Hne Hheld). pose proof (Hs t0 H0).
      destruct Hother as [?|[?|?]]; congruence.
Qed.

Lemma invariant_step σ σ' : invariant σ -> step σ σ' -> invariant σ'.
Proof.
  intros Hinv Hstep. pose proof Hinv as [Hl Ho Hf Hs].
  inversion Hstep as [t ? Hpc|t ? Hpc Hfree|t ? Hpc|t ? Hpc|t ? Hpc|t ? Hpc
                      |t n ? Hpc|t n r ? Hpc|t r ? Hpc|t r ? Hpc];
    subst; clear Hstep.
  all: assert (Hheld : holds_lock (pcs σ t) = true -> lock σ = Some t)
         by apply Hl.
  all: assert (Howned : owns_flag (pcs σ t) = true -> flag σ = true)
         by (intros; apply Hf; eauto).
  all: pose proof (Hs t) as Hsetting.
  all: try (destruct (flag σ) eqn:Hflag).
  all: apply invariant_move; [exact Hinv|..]; rewrite Hpc in *; simpl in *;
       try discriminate; intros; auto.
  all: try (symmetry; auto; fail).
  all: try congruence.
  all: specialize (Hsetting eq_refl); discriminate.
Qed.

Lemma reachable_invariant σ : reachable σ -> invariant σ.
Proof.
  unfold reachable. revert σ. apply rtc_ind_r.
  - apply invariant_initial.
  - intros σ σ' _ Hstep IH. eapply invariant_step; eauto.
Qed.

(** A second call made while the first is migrating comes back with
    [False]. *)
Example second_call_rejected :
  exists σ,
    reachable σ /\ pcs σ 0%nat = Migrating 0 /\ pcs σ 1%nat = Returned false.
Proof.
  eexists. split; [|split].
  - unfold reachable.
    eapply rtc_l; [apply (step_call 0); reflexivity|].
    eapply rtc_l; [apply (step_acquire 0); reflexivity|].
    eapply rtc_l; [apply (step_test 0); reflexivity|].
    eapply rtc_l; [apply (step_set 0); reflexivity|].
    eapply rtc_l; [apply (step_release 0); reflexivity|].
    eapply rtc_l; [apply (step_call 1); reflexivity|].
    eapply rtc_l; [apply (step_acquire 1); reflexivity|].
    eapply rtc_l; [apply (step_test 1); reflexivity|].
    eapply rtc_l; [apply (step_reject 1); reflexivity|].
    apply rtc_refl.
  - reflexivity.
  - reflexivity.
Qed.

Lemma in_engine_owns p : in_engine p = true -> owns_flag p = true.
Proof. destruct p; simpl; auto. Qed.

(** C8.  In every state that threads calling [execute_switch] can reach,
    at most one thread is inside the migration engine.  A thread that
    tests the flag while another one is inside is rejected, and a rejected
    thread returns [False] without a migration step and without touching
    the flag.  Sequentially: a call made while the flag is set returns
    [False] and changes nothing, and a command-drain turn taken while the
    flag is set does nothing. *)
Theorem at_most_one_migration :
  (forall σ, reachable σ ->
     forall t1 t2, in_engine (pcs σ t1) = true -> in_engine (pcs σ t2) = true ->
                   t1 = t2)
  /\ (forall σ σ' t t1,
        reachable σ -> in_engine (pcs σ t1) = true -> pcs σ t = Testing ->
        step σ σ' -> pcs σ' t = Testing \/ pcs σ' t = Rejecting)
  /\ (forall σ σ' t,
        pcs σ t = Rejecting -> step σ σ' ->
        pcs σ' t = Rejecting \/ (pcs σ' t = Returned false /\ flag σ' = flag σ))
  /\ (forall w tm tp trig s,
        switching_in_progress s = true ->
        execute_switch w tm tp trig s = (false, s))
  /\ (forall w s, switching_in_progress s = true -> command_tick w s = (tt, s)).
Proof.
  split; [|split; [|split; [|split]]].
  - intros σ Hreach t1 t2 H1 H2.
    apply reachable_invariant in Hreach as [_ Ho _ _].
    apply Ho; apply in_engine_owns; assumption.
  - intros σ σ' t t1 Hreach H1 Hpc Hstep.
    apply reachable_invariant in Hreach as [_ _ Hf _].
    assert (Hflag : flag σ = true) by (apply Hf; eauto using in_engine_owns).
    inversion Hstep as [t0 ? Hpc0|t0 ? Hpc0 Hfree|t0 ? Hpc0|t0 ? Hpc0|t0 ? Hpc0
                        |t0 ? Hpc0|t0 n ? Hpc0|t0 n r ? Hpc0|t0 r ? Hpc0
                        |t0 r ? Hpc0]; subst; simpl;
      (destruct (decide (t = t0)) as [->|Hne];
       [rewrite fn_lookup_insert; try congruence
       |rewrite fn_lookup_insert_ne by congruence; auto]).
    rewrite Hflag. auto.
  - intros σ σ' t Hpc Hstep.
    inversion Hstep as [t0 ? Hpc0|t0 ? Hpc0 Hfree|t0 ? Hpc0|t0 ? Hpc0|t0 ? Hpc0
                        |t0 ? Hpc0|t0 n ? Hpc0|t0 n r ? Hpc0|t0 r ? Hpc0
                        |t0 r ? Hpc0]; subst; simpl;
      (destruct (decide (t = t0)) as [->|Hne];
       [rewrite fn_lookup_insert; try congruence
       |rewrite fn_lookup_insert_ne by congruence; auto]).
    auto.
  - intros w tm tp trig s Hflag.
    unfold execute_switch, bind, get, ret. rewrite Hflag. reflexivity.
  - intros w s Hflag. apply command_tick_busy, Hflag.
Qed.

End ThreadFacts.

(** * Further properties *)

(** ** Zone names and pool ids *)

Lemma remove_hyphens_free (s : string) :
  "-"%char ∉ list_ascii_of_string (remove_hyphens s).
Proof.
  induction s as [|c s IH]; simpl.
  - intros Hin. inversion Hin.
  - destruct (Ascii.eqb c "-") eqn:Hc; [exact IH|].
    simpl. intros Hin. apply elem_of_cons in Hin as [Heq|Hin]; [|auto].
    subst c. discriminate.
Qed.

Lemma remove_hyphens_fixed (s : string) :
  "-"%char ∉ list_ascii_of_string s -> remove_hyphens s = s.
Proof.
  induction s as [|c s IH]; simpl; [reflexivity|].
  intros Hnot. destruct (Ascii.eqb c "-") eqn:Hc.
  - apply Ascii.eqb_eq in Hc. subst c. destruct Hnot. apply list_elem_of_here.
  - f_equal. apply IH. intros Hin. apply Hnot. apply list_elem_of_further, Hin.
Qed.

(** X1.  [az.replace('-', '')] leaves no hyphen, changes nothing in a name
    without hyphens, and is therefore idempotent; so the pool id built
    from a zone is the pool id built from the zone with its hyphens
    already removed. *)
Theorem pool_id_ignores_hyphens (instance_type zone : string) :
  ("-"%char ∉ list_ascii_of_string (remove_hyphens zone))
  /\ remove_hyphens (remove_hyphens zone) = remove_hyphens zone
  /\ make_pool_id instance_type (remove_hyphens zone)
     = make_pool_id instance_type zone
  /\ (("-"%char ∉ list_ascii_of_string zone) ->
      make_pool_id instance_type zone = instance_type ++ "_" ++ zone).
Proof.
  split; [apply remove_hyphens_free|].
  assert (Hidem : remove_hyphens (remove_hyphens zone) = remove_hyphens zone)
    by apply remove_hyphens_fixed, remove_hyphens_free.
  split; [exact Hidem|]. split.
  - unfold make_pool_id. rewrite Hidem. reflexivity.
  - intros Hnot. unfold make_pool_id. rewrite remove_hyphens_fixed by exact Hnot.
    reflexivity.
Qed.

(** ** Tags *)

Lemma dict_get_set {V} (d : dict V) k v k' :
  dict_get (dict_set d k v) k'
  = if String.eqb k k' then Some v else dict_get d k'.
Proof.
  induction d as [|[k0 v0] d IH]; simpl.
  - reflexivity.
  - destruct (String.eqb k0 k) eqn:Hk0; simpl.
    + apply String.eqb_eq in Hk0. subst k0.
      destruct (String.eqb k k'); reflexivity.
    + rewrite IH. destruct (String.eqb k0 k') eqn:Hk0'; [|reflexivity].
      apply String.eqb_eq in Hk0'. subst k0.
      rewrite String.eqb_sym, Hk0. reflexivity.
Qed.

Lemma dict_set_keys {V} (d : dict V) k v :
  map fst (dict_set d k v)
  = if bool_decide (k ∈ map fst d) then map fst d else (map fst d ++ [k])%list.
Proof.
  induction d as [|[k0 v0] d IH]; simpl; [reflexivity|].
  destruct (String.eqb k0 k) eqn:Hk0; simpl.
  - apply String.eqb_eq in Hk0. subst k0.
    rewrite bool_decide_eq_true_2 by apply list_elem_of_here. reflexivity.
  - apply String.eqb_neq in Hk0. rewrite IH.
    destruct (bool_decide (k ∈ map fst d)) eqn:Hin.
    + apply bool_decide_eq_true_1 in Hin.
      rewrite bool_decide_eq_true_2 by (apply list_elem_of_further, Hin).
      reflexivity.
    + apply bool_decide_eq_false_1 in Hin.
      rewrite bool_decide_eq_false_2; [reflexivity|].
      intros H. apply elem_of_cons in H as [?|?]; [congruence|auto].
Qed.

Lemma dict_set_NoDup {V} (d : dict V) k v :
  NoDup (map fst d) -> NoDup (map fst (dict_set d k v)).
Proof.
  intros Hd. rewrite dict_set_keys. case_bool_decide as Hin; [exact Hd|].
  apply NoDup_app. split; [exact Hd|]. split.
  - intros x Hx Hk. apply list_elem_of_singleton in Hk. subst x. auto.
  - apply NoDup_singleton.
Qed.

Lemma dict_fold_spec {V} (kvs : list (string * V)) :
  forall d,
    NoDup (map fst d) ->
    let d' := fold_left (fun d kv => dict_set d (fst kv) (snd kv)) kvs d in
    NoDup (map fst d')
    /\ forall k, dict_get d' k
                 = match dict_get (rev kvs) k with
                   | Some v => Some v
                   | None => dict_get d k
                   end.
Proof.
  induction kvs as [|[k0 v0] kvs IH]; intros d Hd; simpl.
  - auto.
  - destruct (IH (dict_set d k0 v0) (dict_set_NoDup d k0 v0 Hd)) as [Hnd Hget].
    split; [exact Hnd|]. intros k. simpl in Hget. rewrite Hget.
    assert (Happ : forall (l1 l2 : dict V),
               dict_get (l1 ++ l2)%list k
               = match dict_get l1 k with
                 | Some v => Some v
                 | None => dict_get l2 k
                 end).
    { induction l1 as [|[k1 v1] l1 IH1]; intros l2; simpl; [reflexivity|].
      destruct (String.eqb k1 k); [reflexivity|apply IH1]. }
    rewrite Happ. destruct (dict_get (rev kvs) k); [reflexivity|].
    rewrite dict_get_set. simpl. destruct (String.eqb k0 k); reflexivity.
Qed.

(** X2.  The tag dictionary that [get_instance_details] builds has each
    key once, and looking a key up gives the value of the last tag of the
    response with that key. *)
Theorem instance_tags_last_wins (instance : Instance) (k : string) :
  NoDup (map fst (d_tags (details_of instance)))
  /\ dict_get (d_tags (details_of instance)) k
     = dict_get (rev (Tags instance)) k.
Proof.
  destruct (dict_fold_spec (Tags instance) [] (NoDup_nil_2)) as [Hnd Hget].
  split; [exact Hnd|].
  simpl in Hget |- *. unfold dict_of_list. rewrite Hget.
  destruct (dict_get (rev (Tags instance)) k); reflexivity.
Qed.

(** ** The launch request *)

(** A launch request names its network either by one interface (device
    0, with the subnet and security groups of the configuration, asking
    for a public address exactly when the predecessor's first interface
    had one) or by top-level security groups and subnet. *)
Lemma launch_params_network
    (lc : LaunchConfig) (target_mode : string) (created : Z) :
  let p := launch_params lc target_mode created in
  match lc_network_interfaces lc with
  | ni :: _ =>
      lp_NetworkInterfaces p
      = Some [{| DeviceIndex := 0;
                 nis_SubnetId := lc_subnet_id lc;
                 Groups := lc_security_groups lc;
                 AssociatePublicIpAddress :=
                   bool_decide (ni_public_ip ni <> None) |}]
      /\ lp_SecurityGroupIds p = None /\ lp_SubnetId p = None
  | [] =>
      lp_NetworkInterfaces p = None
      /\ lp_SecurityGroupIds p = Some (lc_security_groups lc)
      /\ lp_SubnetId p = Some (lc_subnet_id lc)
  end.
Proof.
  cbv zeta. unfold launch_params.
  destruct (lc_network_interfaces lc) as [|ni rest]; simpl; [auto|].
  repeat split. destruct (ni_public_ip ni); reflexivity.
Qed.

(** The tag keys of a launch request are those of the configuration
    followed by the three operator keys, and the parent tag names the
    predecessor.  When the configuration's keys are distinct, the request
    has a key twice exactly when the configuration already carries one of
    the operator keys. *)
Lemma launch_params_tags
    (lc : LaunchConfig) (target_mode : string) (created : Z) :
  let p := launch_params lc target_mode created in
  map fst (lp_Tags p) = (map fst (lc_tags lc) ++ operator_tag_keys)%list
  /\ ("spot-optimizer-parent", TagStr (lc_old_instance_id lc)) ∈ lp_Tags p
  /\ (NoDup (map fst (lc_tags lc)) ->
      NoDup (map fst (lp_Tags p))
      <-> forall k, k ∈ operator_tag_keys -> k ∉ map fst (lc_tags lc)).
Proof.
  cbv zeta.
  assert (Hkeys : map fst (lp_Tags (launch_params lc target_mode created))
                  = (map fst (lc_tags lc) ++ operator_tag_keys)%list).
  { unfold launch_params. simpl. rewrite map_app, map_map. reflexivity. }
  split; [exact Hkeys|]. split.
  - unfold launch_params. simpl. apply elem_of_app. right.
    apply list_elem_of_further, list_elem_of_here.
  - intros Hnd. rewrite Hkeys, NoDup_app. split.
    + intros (_ & Hdisj & _) k Hk Hin. exact (Hdisj k Hin Hk).
    + intros Hdisj. split; [exact Hnd|]. split.
      * intros k Hin Hk. exact (Hdisj k Hk Hin).
      * apply (bool_decide_unpack _). vm_compute. exact I.
Qed.

(** ** What a switch asks of the cloud *)

Lemma launches_app (l1 l2 : list Event) :
  launches (l1 ++ l2) = (launches l1 ++ launches l2)%list.
Proof. apply flat_map_app. Qed.

Lemma terminations_app (l1 l2 : list Event) :
  terminations (l1 ++ l2) = (terminations l1 ++ terminations l2)%list.
Proof. apply flat_map_app. Qed.

Lemma preparation_events_plain evs :
  Forall preparation_event evs ->
  launches evs = [] /\ terminations evs = [] /\ reports evs = []
  /\ acks evs = [].
Proof.
  induction 1 as [|e evs He _ (IHl & IHt & IHr & IHa)]; [auto|].
  unfold launches, terminations, reports, acks in *. simpl.
  rewrite IHl, IHt, IHr, IHa.
  destruct e; simpl in He; try contradiction; auto.
Qed.

Lemma snapshot_event_preparation e : snapshot_event e -> preparation_event e.
Proof. destruct e; simpl; tauto. Qed.

Lemma pricing_event_preparation e : pricing_event e -> preparation_event e.
Proof. destruct e; simpl; tauto. Qed.

Lemma preparation_event_gather tm e : preparation_event e -> gather_event tm e.
Proof. destruct e; simpl; tauto. Qed.

Section Requests.

Context (w : World).

Lemma get_spot_prices_pricing itype : local pricing_event (get_spot_prices w itype).
Proof. unfold get_spot_prices. local_steps. Qed.

Lemma _get_ondemand_price_pricing : local pricing_event (_get_ondemand_price w).
Proof.
  unfold _get_ondemand_price, cached_ondemand_price, get_ondemand_price.
  apply local_bind.
  - local_steps.
    destruct (last_ondemand_price a) as [p|], (last_ondemand_fetch a) as [f|];
      try destruct (price_truthy p); local_steps.
  - intros cached. destruct cached; [apply local_ret|]. local_steps.
    lazymatch goal with
    | |- local _ (if ?b then _ else _) => destruct b
    end; local_steps.
Qed.

Lemma get_instance_details_inv id s d s' :
  get_instance_details w id s = (Some d, s') ->
  s' = emit (EDescribeInstances id) s
  /\ exists instance others reservations,
       ec2_describe_instances w (length (trace s)) id
       = Some ((instance :: others) :: reservations)
       /\ d = details_of instance.
Proof.
  unfold get_instance_details, bind, call, ret.
  destruct (ec2_describe_instances w (length (trace s)) id)
    as [[|[|instance others] reservations]|]; intros [= <- <-]; eauto 6.
Qed.

Lemma create_ami_from_instance_inv id prefix s ami s' :
  create_ami_from_instance w id prefix s = (Some ami, s') ->
  ec2_create_image w (length (trace (emit EUtcNow s))) id prefix
    (utcnow w (length (trace s))) = Some ami.
Proof.
  unfold create_ami_from_instance, bind, call, ret.
  destruct (ec2_create_image w _ id prefix _) as [ami'|]; [|discriminate].
  destruct (ec2_wait_image_available w _ ami'); intros [= <- <-]. reflexivity.
Qed.

Lemma launch_instance_inv lc tm tp s r s' :
  launch_instance w lc tm tp s = (r, s') ->
  exists post,
    trace s'
    = (trace s ++ EUtcNow
       :: ERunInstances (launch_params lc tm (utcnow w (length (trace s))))
       :: post)%list
    /\ Forall preparation_event post.
Proof.
  unfold launch_instance, bind, call, ret.
  destruct (ec2_run_instances w _ _) as [id|]; intros [= <- <-]; simpl.
  - exists [EWaitInstanceRunning id]. rewrite <- !app_assoc.
    split; [reflexivity|repeat constructor].
  - exists []. rewrite <- !app_assoc. split; [reflexivity|constructor].
Qed.

(** Steps 1 to 6 make at most one launch request, and exactly one when
    they complete. *)
Lemma switch_gather_launch tm tp s locals s1 :
  switch_gather w tm tp s = (locals, s1) ->
  exists pre,
    Forall preparation_event pre
    /\ ((locals = None /\ trace s1 = (trace s ++ pre)%list)
        \/ exists p post,
             Forall preparation_event post
             /\ launched_from w s tm p
             /\ trace s1 = (trace s ++ pre ++ ERunInstances p :: post)%list).
Proof.
  unfold switch_gather. intros H.
  apply bind_inv in H as (s0 & s0' & [= <- <-] & H).
  apply bind_inv in H as (details & sa & Hd & H).
  pose proof (local_inv _ _ _ _ _ (get_instance_details_local w _) Hd)
    as (_ & _ & _ & _ & e1 & Ht1 & He1).
  destruct details as [details|].
  2:{ injection H as <- <-. exists e1. split.
      - eapply Forall_impl; [exact He1|apply snapshot_event_preparation].
      - left. auto. }
  apply get_instance_details_inv in Hd
    as (_ & instance & others & reservations & Hdescribe & ->).
  apply bind_inv in H as (ami & sb & Ha & H).
  pose proof (local_inv _ _ _ _ _ (create_ami_from_instance_local w _ _) Ha)
    as (_ & _ & _ & _ & e2 & Ht2 & He2).
  assert (Hpre2 : Forall preparation_event (e1 ++ e2)).
  { apply Forall_app. split;
      (eapply Forall_impl; [eassumption|apply snapshot_event_preparation]). }
  destruct ami as [[|c ami]|].
  2:{ apply create_ami_from_instance_inv in Ha.
      apply bind_inv in H as (timing_start & sc & [= <- <-] & H).
      apply bind_inv in H as (new_id & sd & Hl & H).
      apply launch_instance_inv in Hl as (e3 & Ht3 & He3). simpl in Ht3.
      exists (e1 ++ e2 ++ [EUtcNow; EUtcNow])%list. split.
      { rewrite app_assoc. apply Forall_app. split; [exact Hpre2|].
        repeat constructor. }
      right.
      assert (Hfrom : launched_from w s tm
                (launch_params
                   (launch_config_of (details_of instance) (String c ami)
                      (instance_id (config s)))
                   tm (utcnow w (length (trace sb ++ [EUtcNow]))))).
      { unfold launched_from. do 8 eexists.
        split; [exact Hdescribe|]. split; [exact Ha|].
        split; [discriminate|reflexivity]. }
      assert (Hshape : forall rest,
                (((trace sb ++ [EUtcNow]) ++ EUtcNow :: rest)
                 = trace s ++ (e1 ++ e2 ++ [EUtcNow; EUtcNow]) ++ rest)%list).
      { intros rest. rewrite Ht2, Ht1, <- !app_assoc. reflexivity. }
      destruct new_id as [[|c' new_id]|].
      2:{ apply bind_inv in H as (timing_ready & se & [= <- <-] & H).
          apply bind_inv in H as (u & sf & [= <- <-] & H).
          apply bind_inv in H as (new_details & sg & Hd2 & H).
          pose proof (local_inv _ _ _ _ _ (get_instance_details_local w _) Hd2)
            as (_ & _ & _ & _ & e4 & Ht4 & He4).
          simpl in Ht4.
          destruct new_details as [new_details|].
          2:{ injection H as <- <-.
              eexists _, (e3 ++ [EUtcNow; ESleep 5] ++ e4)%list.
              split; [|split; [exact Hfrom|]].
              - apply Forall_app. split; [exact He3|].
                apply Forall_app. split; [repeat constructor|].
                eapply Forall_impl; [exact He4|apply snapshot_event_preparation].
              - rewrite Ht4, Ht3, Hshape, <- !app_assoc. reflexivity. }
          apply bind_inv in H as (new_mode & sh & Hm & H).
          pose proof (local_inv _ _ _ _ _ (get_current_mode_local w _) Hm)
            as (_ & _ & _ & _ & e5 & Ht5 & He5).
          apply bind_inv in H as (price0 & si & Hp & H).
          pose proof (local_inv _ _ _ _ _ _get_ondemand_price_pricing Hp)
            as (_ & _ & _ & _ & e6 & Ht6 & He6).
          apply bind_inv in H as (sj & sj' & [= <- <-] & H).
          apply bind_inv in H as (pools & sk & Hs & H).
          pose proof (local_inv _ _ _ _ _ (get_spot_prices_pricing _) Hs)
            as (_ & _ & _ & _ & e7 & Ht7 & He7).
          injection H as <- <-.
          eexists _, (e3 ++ [EUtcNow; ESleep 5] ++ e4 ++ e5 ++ e6 ++ e7)%list.
          split; [|split; [exact Hfrom|]].
          - apply Forall_app. split; [exact He3|].
            apply Forall_app. split; [repeat constructor|].
            repeat (apply Forall_app; split);
              first
                [ eapply Forall_impl;
                  [eassumption|apply snapshot_event_preparation]
                | eapply Forall_impl;
                  [eassumption|apply pricing_event_preparation] ].
          - rewrite Ht7, Ht6, Ht5, Ht4, Ht3, Hshape, <- !app_assoc.
            reflexivity. }
      all: injection H as <- <-; eexists _, e3;
        (split; [exact He3|split; [exact Hfrom|]]);
        rewrite Ht3, Hshape, <- !app_assoc; reflexivity. }
  all: injection H as <- <-; exists (e1 ++ e2)%list;
    (split; [exact Hpre2|left; split; [reflexivity|]]);
    rewrite Ht2, Ht1, <- app_assoc; reflexivity.
Qed.

End Requests.

Lemma mode_of_cases (details : option InstanceDetails) :
  (fst (mode_of details) = "unknown" /\ snd (mode_of details) = None
   /\ details = None)
  \/ (fst (mode_of details) = "ondemand" /\ snd (mode_of details) = None
      /\ exists d, details = Some d /\ d_lifecycle d <> "spot")
  \/ (fst (mode_of details) = "spot"
      /\ exists d, details = Some d /\ d_lifecycle d = "spot"
                   /\ snd (mode_of details)
                      = Some (make_pool_id (d_instance_type d) (d_az d))).
Proof.
  destruct details as [d|]; simpl; [|auto].
  destruct (String.eqb (d_lifecycle d) "spot") eqn:Hspot; simpl.
  - apply String.eqb_eq in Hspot. right. right. eauto.
  - apply String.eqb_neq in Hspot. right. left. eauto.
Qed.

Section Outcome.

Context (w : World).

Lemma terminate_old_cases id s t s' :
  terminate_old w id s = (t, s') ->
  config s' = config s
  /\ exists post,
       trace s' = (trace s ++ post)%list
       /\ terminations post
          = (if auto_terminate_enabled (config s) then [id] else [])
       /\ launches post = [] /\ reports post = [] /\ acks post = [].
Proof.
  unfold terminate_old, terminate_instance, bind, get, call, ret.
  destruct (auto_terminate_enabled (config s)).
  - destruct (ec2_terminate_instances w (length (trace s)) id);
      intros [= <- <-]; (split; [reflexivity|]).
    + exists [ETerminateInstances id; EUtcNow]. simpl.
      rewrite <- app_assoc. auto.
    + exists [ETerminateInstances id]. auto.
  - intros [= <- <-]. split; [reflexivity|].
    exists []. rewrite app_nil_r. auto.
Qed.

(** What one call of [execute_switch] asks of the cloud and of the
    controller. *)
Lemma execute_switch_requests tm tp trig s r s' :
  execute_switch w tm tp trig s = (r, s') ->
  exists evs,
    trace s' = (trace s ++ evs)%list
    /\ (launches evs = [] /\ r = false
        \/ exists p, launches evs = [p] /\ launched_from w s tm p)
    /\ (r = true -> exists p, launches evs = [p])
    /\ terminations evs
       = (if r && auto_terminate_enabled (config s)
          then [instance_id (config s)] else [])
    /\ length (reports evs) = (if r then 1 else 0)%nat
    /\ acks evs = [].
Proof.
  intros H. apply execute_switch_inv in H.
  destruct (switching_in_progress s).
  { destruct H as [-> ->]. exists []. rewrite app_nil_r.
    split; [reflexivity|]. split; [left; auto|]. split; [discriminate|].
    auto. }
  destruct H as (s1 & H & ->).
  apply switch_steps_inv in H as (locals & sg & Hg & H).
  pose proof (fun l => switch_gather_some w tm tp (set_switching true s) l sg)
    as Hsome.
  pose proof (local_inv _ _ _ _ _ (switch_gather_local w tm tp) Hg)
    as (Hcfg & _).
  pose proof Hg as Hshape.
  apply switch_gather_launch in Hshape as (pre & Hpre & Hshape).
  destruct (preparation_events_plain _ Hpre) as (Hl0 & Ht0 & Hr0 & Ha0).
  simpl in Hshape, Hcfg.
  destruct locals as [l|].
  - destruct H as (-> & t & s2 & Ht & ->).
    destruct Hshape as [[Hnone _]|(p & post & Hpost & Hfrom & Htrace)];
      [discriminate|].
    destruct (preparation_events_plain _ Hpost) as (Hl1 & Ht1 & Hr1 & Ha1).
    apply terminate_old_cases in Ht as (Hcfg2 & post2 & Htrace2 & Ht2 & Hl2 & Hr2 & Ha2).
    simpl in Htrace2, Ht2, Hcfg2. rewrite Hcfg in Ht2.
    destruct (Hsome l Hg) as (Hold & _). simpl in Hold. rewrite Hold in Ht2.
    exists (pre ++ [ERunInstances p] ++ post ++ [EUtcNow] ++ post2
             ++ [ESwitchReport
                   (switch_report_of l (config s2)
                      (utcnow w (length (trace sg))) t trig)])%list.
    split.
    { simpl. rewrite Htrace2, Htrace. repeat (rewrite <- app_assoc; simpl).
      reflexivity. }
    rewrite !launches_app, !terminations_app, !reports_app, !acks_app.
    rewrite Hl0, Hl1, Hl2, Ht0, Ht1, Ht2, Hr0, Hr1, Hr2, Ha0, Ha1, Ha2.
    simpl. rewrite ?app_nil_r.
    split; [right; eauto|]. split; [eauto|]. auto.
  - destruct H as (-> & ->).
    destruct Hshape as [[_ Htrace]|(p & post & Hpost & Hfrom & Htrace)].
    + exists pre. split; [exact Htrace|]. split; [left; auto|].
      split; [discriminate|]. rewrite Ht0, Hr0, Ha0. auto.
    + destruct (preparation_events_plain _ Hpost) as (Hl1 & Ht1 & Hr1 & Ha1).
      exists (pre ++ [ERunInstances p] ++ post)%list.
      split; [exact Htrace|].
      rewrite !launches_app, !terminations_app, !reports_app, !acks_app.
      rewrite Hl0, Hl1, Ht0, Ht1, Hr0, Hr1, Ha0, Ha1. simpl.
      split; [right; eauto|]. split; [discriminate|]. auto.
Qed.

End Outcome.

Lemma elem_of_launches (evs : list Event) (p : LaunchParams) :
  p ∈ launches evs <-> ERunInstances p ∈ evs.
Proof.
  induction evs as [|e evs IH].
  - split; intros H; inversion H.
  - unfold launches in *. simpl. rewrite elem_of_app, elem_of_cons, IH.
    destruct e; simpl; rewrite ?elem_of_nil, ?list_elem_of_singleton;
      split; intros [H|H]; auto; try discriminate; try contradiction.
    + left. congruence.
    + left. congruence.
Qed.

(** X3.  One call of [execute_switch] makes at most one launch request,
    and exactly one when it returns [True].  The request is built from the
    instance the provider described under the agent's own instance id and
    from an image the provider created from that instance; it asks for
    one instance and tags it with the agent's instance id as parent. *)
Theorem switch_launches_once
    (w : World) (tm : string) (tp : option string) (trig : string)
    (s : Agent) (r : bool) (s' : Agent) :
  execute_switch w tm tp trig s = (r, s') ->
  exists evs,
    trace s' = (trace s ++ evs)%list
    /\ (length (launches evs) <= 1)%nat
    /\ (r = true -> length (launches evs) = 1%nat)
    /\ forall p,
         ERunInstances p ∈ evs ->
         launched_from w s tm p
         /\ lp_MinCount p = 1 /\ lp_MaxCount p = 1
         /\ ("spot-optimizer-parent", TagStr (instance_id (config s)))
            ∈ lp_Tags p.
Proof.
  intros H.
  apply execute_switch_requests in H as (evs & Ht & Hl & Hone & _).
  exists evs. split; [exact Ht|]. split; [|split].
  - destruct Hl as [[-> _]|(p & -> & _)]; simpl; lia.
  - intros Hr. destruct (Hone Hr) as (p & ->). reflexivity.
  - intros p Hin. apply elem_of_launches in Hin.
    destruct Hl as [[Hnil _]|(p0 & Hp0 & Hfrom)].
    + rewrite Hnil in Hin. inversion Hin.
    + rewrite Hp0 in Hin. apply list_elem_of_singleton in Hin. subst p0.
      split; [exact Hfrom|].
      destruct Hfrom as (n & i & o & rs & m & ts & ami & created & _ & _ & _ & ->).
      split; [reflexivity|]. split; [reflexivity|].
      exact (proj1 (proj2 (launch_params_tags
               (launch_config_of (details_of i) ami (instance_id (config s)))
               tm created))).
Qed.

Lemma switch_launches_once_witness :
  let w := scripted script1 in
  let s' := snd (execute_switch w "ondemand" None "manual" agent1) in
  execute_switch w "ondemand" None "manual" agent1 = (true, s')
  /\ exists evs,
       trace s' = (trace agent1 ++ evs)%list
       /\ length (launches evs) = 1%nat.
Proof.
  assert (Hrun : execute_switch (scripted script1) "ondemand" None "manual" agent1
                 = (true, snd (execute_switch (scripted script1) "ondemand"
                                 None "manual" agent1)))
    by (vm_compute; reflexivity).
  split; [exact Hrun|].
  destruct (switch_launches_once _ _ _ _ _ _ _ Hrun) as (evs & Ht & _ & Hone & _).
  exists evs. split; [exact Ht|exact (Hone eq_refl)].
Defined.

(** X4.  One call of [execute_switch] asks to terminate an instance only
    when it returns [True] with [auto_terminate_enabled] set, and then
    once, for the instance the agent described when the call began.  It
    sends one switch-report when it returns [True] and none otherwise, and
    never acknowledges a command itself.  So a call that fails after the
    successor was launched leaves both instances alone and tells the
    controller nothing. *)
Theorem switch_terminates_only_predecessor
    (w : World) (tm : string) (tp : option string) (trig : string)
    (s : Agent) (r : bool) (s' : Agent) :
  execute_switch w tm tp trig s = (r, s') ->
  exists evs,
    trace s' = (trace s ++ evs)%list
    /\ terminations evs
       = (if r && auto_terminate_enabled (config s)
          then [instance_id (config s)] else [])
    /\ length (reports evs) = (if r then 1 else 0)%nat
    /\ acks evs = [].
Proof.
  intros H.
  apply execute_switch_requests in H as (evs & Ht & _ & _ & Hterm & Hrep & Hack).
  exists evs. auto.
Qed.

Lemma switch_terminates_only_predecessor_witness :
  let s' := snd (execute_switch lost_successor "ondemand" None "manual" agent1) in
  execute_switch lost_successor "ondemand" None "manual" agent1 = (false, s')
  /\ exists evs,
       trace s' = (trace agent1 ++ evs)%list
       /\ length (launches evs) = 1%nat
       /\ terminations evs = [] /\ length (reports evs) = 0%nat.
Proof.
  assert (Hrun : execute_switch lost_successor "ondemand" None "manual" agent1
                 = (false, snd (execute_switch lost_successor "ondemand" None
                                  "manual" agent1)))
    by (vm_compute; reflexivity).
  split; [exact Hrun|].
  destruct (switch_terminates_only_predecessor _ _ _ _ _ _ _ Hrun)
    as (evs & Ht & Hterm & Hrep & _).
  exists evs. split; [exact Ht|]. split; [|split; [exact Hterm|exact Hrep]].
  vm_compute in Ht. subst evs. reflexivity.
Defined.

(** X5.  Every launch request that [execute_switch] makes names its
    network in exactly one way: by a single interface and then without
    top-level security groups and subnet, or by top-level security groups
    and subnet and then without an interface. *)
Theorem switch_launch_network_exclusive
    (w : World) (tm : string) (tp : option string) (trig : string)
    (s : Agent) (r : bool) (s' : Agent) (evs : list Event) (p : LaunchParams) :
  execute_switch w tm tp trig s = (r, s') ->
  trace s' = (trace s ++ evs)%list ->
  ERunInstances p ∈ evs ->
  (exists spec, lp_NetworkInterfaces p = Some [spec]
                /\ DeviceIndex spec = 0
                /\ lp_SecurityGroupIds p = None /\ lp_SubnetId p = None)
  \/ (lp_NetworkInterfaces p = None
      /\ lp_SecurityGroupIds p <> None /\ lp_SubnetId p <> None).
Proof.
  intros H Ht Hin.
  apply execute_switch_frame in H as (_ & evs' & Ht' & Hev & _).
  rewrite Ht' in Ht. apply app_inv_head in Ht. subst evs'.
  destruct (switch_events_launch _ _ _ Hev Hin) as (lc & t & ->).
  pose proof (launch_params_network lc tm t) as Hnet. cbv zeta in Hnet.
  destruct (lc_network_interfaces lc) as [|ni rest].
  - right. destruct Hnet as (-> & -> & ->). repeat split; discriminate.
  - left. destruct Hnet as (-> & -> & ->). eexists. repeat split.
Qed.

Lemma switch_launch_network_exclusive_witness :
  let w := scripted script1 in
  let s' := snd (execute_switch w "ondemand" None "manual" agent1) in
  exists p evs,
    execute_switch w "ondemand" None "manual" agent1 = (true, s')
    /\ trace s' = (trace agent1 ++ evs)%list
    /\ ERunInstances p ∈ evs
    /\ lp_SecurityGroupIds p = None.
Proof.
  assert (Hrun : execute_switch (scripted script1) "ondemand" None "manual" agent1
                 = (true, snd (execute_switch (scripted script1) "ondemand"
                                 None "manual" agent1)))
    by (vm_compute; reflexivity).
  assert (Htrace : exists evs p,
             trace (snd (execute_switch (scripted script1) "ondemand" None
                           "manual" agent1)) = (trace agent1 ++ evs)%list
             /\ ERunInstances p ∈ evs
             /\ NetworkInterfaces (instance_A false) <> []).
  { eexists _, _. split; [vm_compute; reflexivity|]. split; [|discriminate].
    do 6 apply list_elem_of_further. apply list_elem_of_here. }
  destruct Htrace as (evs & p & Ht & Hin & _).
  exists p, evs. split; [exact Hrun|]. split; [exact Ht|]. split; [exact Hin|].
  destruct (switch_launch_network_exclusive _ _ _ _ _ _ _ _ _ Hrun Ht Hin)
    as [(spec & _ & _ & Hsg & _)|(Hnone & _)]; [exact Hsg|].
  exfalso. revert Hnone. revert Hin. vm_compute in Ht. subst evs.
  intros Hin. repeat (apply elem_of_cons in Hin as [Hin|Hin];
                      [try discriminate|]).
  - injection Hin as ->. discriminate.
  - inversion Hin.
Defined.

Lemma dict_get_None {V} (d : dict V) (k : string) :
  dict_get d k = None <-> k ∉ map fst d.
Proof.
  induction d as [|[k0 v0] d IH]; simpl.
  - split; [intros _ H; inversion H|reflexivity].
  - destruct (String.eqb k0 k) eqn:Hk.
    + apply String.eqb_eq in Hk. subst k0. split; [discriminate|].
      intros Hnot. destruct Hnot. apply list_elem_of_here.
    + apply String.eqb_neq in Hk. rewrite IH, not_elem_of_cons.
      intuition congruence.
Qed.

Lemma dict_of_list_keys {V} (kvs : list (string * V)) (k : string) :
  k ∈ map fst (dict_of_list kvs) <-> k ∈ map fst kvs.
Proof.
  destruct (dict_fold_spec kvs [] NoDup_nil_2) as [_ Hget].
  specialize (Hget k). simpl in Hget. fold (dict_of_list kvs) in Hget.
  assert (Hrev : k ∈ map fst (rev kvs) <-> k ∈ map fst kvs).
  { rewrite map_rev, !list_elem_of_In. symmetry. apply in_rev. }
  rewrite <- Hrev.
  destruct (decide (k ∈ map fst (dict_of_list kvs))) as [Hin|Hnot],
           (decide (k ∈ map fst (rev kvs))) as [Hin'|Hnot']; try tauto.
  - apply dict_get_None in Hnot'. rewrite Hnot' in Hget.
    apply dict_get_None in Hget. tauto.
  - apply dict_get_None in Hnot. rewrite Hnot in Hget.
    destruct (dict_get (rev kvs) k) eqn:Hsome; [discriminate|].
    apply dict_get_None in Hsome. tauto.
Qed.

(** X6.  The tag keys of a launch request made by [execute_switch] are
    the keys of the described predecessor and the three operator keys.
    The request carries no key twice exactly when the predecessor has
    none of the operator keys; a predecessor that this agent launched
    has them. *)
Theorem switch_launch_tag_keys
    (w : World) (tm : string) (tp : option string) (trig : string)
    (s : Agent) (r : bool) (s' : Agent) (evs : list Event) (p : LaunchParams) :
  execute_switch w tm tp trig s = (r, s') ->
  trace s' = (trace s ++ evs)%list ->
  ERunInstances p ∈ evs ->
  exists n instance others reservations,
    ec2_describe_instances w n (instance_id (config s))
    = Some ((instance :: others) :: reservations)
    /\ (forall k, k ∈ map fst (lp_Tags p)
                  <-> k ∈ map fst (Tags instance) \/ k ∈ operator_tag_keys)
    /\ (NoDup (map fst (lp_Tags p))
        <-> forall k, k ∈ operator_tag_keys -> k ∉ map fst (Tags instance)).
Proof.
  intros H Ht Hin.
  apply execute_switch_requests in H as (evs' & Ht' & Hl & _).
  rewrite Ht' in Ht. apply app_inv_head in Ht. subst evs'.
  apply elem_of_launches in Hin.
  destruct Hl as [[Hnil _]|(p0 & Hp0 & Hfrom)];
    [rewrite Hnil in Hin; inversion Hin|].
  rewrite Hp0 in Hin. apply list_elem_of_singleton in Hin. subst p0.
  destruct Hfrom
    as (n & instance & others & reservations & m & ts & ami & created
        & Hdescribe & _ & _ & ->).
  exists n, instance, others, reservations. split; [exact Hdescribe|].
  destruct (launch_params_tags
              (launch_config_of (details_of instance) ami
                 (instance_id (config s))) tm created)
    as (Hkeys & _ & Hiff).
  cbn [lc_tags launch_config_of d_tags details_of] in Hkeys, Hiff.
  destruct (dict_fold_spec (Tags instance) [] NoDup_nil_2) as [Hnd _].
  simpl in Hnd. fold (dict_of_list (Tags instance)) in Hnd.
  split.
  - intros k. rewrite Hkeys, elem_of_app, dict_of_list_keys. reflexivity.
  - rewrite (Hiff Hnd). split; intros Hall k Hk; specialize (Hall k Hk);
      rewrite dict_of_list_keys in *; exact Hall.
Qed.

Lemma switch_launch_tag_keys_witness :
  let s' := snd (execute_switch second_generation "spot" None "manual" agent2) in
  exists evs p,
    trace s' = (trace agent2 ++ evs)%list
    /\ ERunInstances p ∈ evs
    /\ ~ NoDup (map fst (lp_Tags p)).
Proof.
  assert (Hrun : execute_switch second_generation "spot" None "manual" agent2
                 = (true, snd (execute_switch second_generation "spot" None
                                 "manual" agent2)))
    by (vm_compute; reflexivity).
  assert (Htrace : exists evs p,
             trace (snd (execute_switch second_generation "spot" None
                           "manual" agent2)) = (trace agent2 ++ evs)%list
             /\ ERunInstances p ∈ evs).
  { eexists _, _. split; [vm_compute; reflexivity|].
    do 6 apply list_elem_of_further. apply list_elem_of_here. }
  destruct Htrace as (evs & p & Ht & Hin).
  exists evs, p. split; [exact Ht|]. split; [exact Hin|].
  destruct (switch_launch_tag_keys _ _ _ _ _ _ _ _ _ Hrun Ht Hin)
    as (n & instance & others & reservations & Hdescribe & _ & Hiff).
  intros Hnd.
  assert (Hinst : instance = instance_relaunched).
  { simpl in Hdescribe. injection Hdescribe as ->. reflexivity. }
  subst instance.
  apply (proj1 Hiff Hnd "spot-optimizer-managed").
  - apply list_elem_of_here.
  - simpl. apply list_elem_of_further, list_elem_of_here.
Defined.

(** X7.  No call of [execute_switch] changes the region, the image id,
    the fixed-price poll interval or any of the three control flags, and
    each hands the in-progress flag back as it found it. *)
Theorem switch_keeps_settings
    (w : World) (tm : string) (tp : option string) (trig : string) (s : Agent) :
  let s' := snd (execute_switch w tm tp trig s) in
  region (config s') = region (config s)
  /\ ami_id (config s') = ami_id (config s)
  /\ ondemand_price_interval (config s') = ondemand_price_interval (config s)
  /\ enabled (config s') = enabled (config s)
  /\ auto_switch_enabled (config s') = auto_switch_enabled (config s)
  /\ auto_terminate_enabled (config s') = auto_terminate_enabled (config s)
  /\ switching_in_progress s' = switching_in_progress s.
Proof.
  cbv zeta.
  destruct (execute_switch w tm tp trig s) as [r s'] eqn:Hrun. simpl.
  pose proof (execute_switch_frame _ _ _ _ _ _ _ Hrun) as (Hflag & evs & _ & _ & Hfalse).
  destruct r.
  - clear Hfalse.
    apply execute_switch_true in Hrun as (_ & l & sg & t & s2 & Hg & Ht & Hs').
    subst s'.
    eapply local_inv in Hg; [|apply switch_gather_local].
    destruct Hg as (Hc & _).
    apply terminate_old_inv in Ht as ((Hc' & _) & _).
    simpl in Hc, Hc' |- *. rewrite Hc', Hc. repeat split.
    simpl in Hflag. exact Hflag.
  - destruct (Hfalse eq_refl) as (-> & _). repeat split. exact Hflag.
Qed.

Lemma spot_price_for_nonzero (mode pool : option string) (pools : list Pool) :
  spot_price_for mode pool pools <> 0%float ->
  mode = Some "spot"
  /\ exists pid sample,
       pool = Some pid /\ sample ∈ pools /\ pool_id sample = pid
       /\ spot_price_for mode pool pools = pool_price sample.
Proof.
  unfold spot_price_for.
  destruct mode as [m|]; [|congruence].
  destruct pool as [[|c pid]|]; try congruence.
  destruct (String.eqb m "spot") eqn:Hm; [|congruence].
  apply String.eqb_eq in Hm. subst m.
  destruct (find _ pools) as [sample|] eqn:Hfind; [|congruence].
  intros _. split; [reflexivity|].
  apply find_some in Hfind as [Hin Hid]. apply String.eqb_eq in Hid.
  exists (String c pid), sample. rewrite <- list_elem_of_In in Hin. auto.
Qed.

Section Record.

Context (w : World).

(** What steps 1 to 6 have observed when they complete. *)
Lemma switch_gather_observed tm tp s l s1 :
  switch_gather w tm tp s = (Some l, s1) ->
  price_truthy (sl_on_demand_price l) = true
  /\ sl_ami_id l <> "" /\ sl_new_instance_id l <> ""
  /\ (sl_new_mode l = "spot" <-> sl_new_pool_id l <> None)
  /\ (sl_new_mode l = "unknown" \/ sl_new_mode l = "spot"
      \/ sl_new_mode l = "ondemand")
  /\ exists pools,
       sl_old_spot_price l
       = spot_price_for (current_mode s) (current_pool_id s) pools
       /\ sl_new_spot_price l
          = spot_price_for (Some (sl_new_mode l)) (sl_new_pool_id l) pools.
Proof.
  unfold switch_gather. intros H.
  apply bind_inv in H as (s0 & s0' & [= <- <-] & H).
  apply bind_inv in H as (details & sa & _ & H).
  destruct details as [details|]; [|discriminate].
  apply bind_inv in H as (ami & sb & _ & H).
  destruct ami as [[|c ami]|]; try discriminate.
  apply bind_inv in H as (timing_start & sc & [= <- <-] & H).
  apply bind_inv in H as (new_id & sd & _ & H).
  destruct new_id as [[|c' new_id]|]; try discriminate.
  apply bind_inv in H as (timing_ready & se & [= <- <-] & H).
  apply bind_inv in H as (u & sf & [= <- <-] & H).
  apply bind_inv in H as (new_details & sg & _ & H).
  destruct new_details as [new_details|]; [|discriminate].
  apply bind_inv in H as (new_mode & sh & Hm & H).
  apply bind_inv in H as (price0 & si & Hp & H).
  apply bind_inv in H as (sj & sj' & [= <- <-] & H).
  apply bind_inv in H as (pools & sk & _ & H).
  injection H as <- <-. simpl.
  assert (Htruthy : price_truthy price0 = true).
  { pose proof (_get_ondemand_price_truthy w sh) as Htruthy.
    rewrite Hp in Htruthy. exact Htruthy. }
  unfold get_current_mode in Hm.
  apply bind_inv in Hm as (observed & sm & _ & [= <- <-]).
  split; [exact Htruthy|].
  split; [discriminate|]. split; [discriminate|].
  split; [|split; [|eauto]];
    destruct (mode_of_cases observed)
      as [(H1 & H2 & _)|[(H1 & H2 & _)|(H1 & d & _ & _ & H2)]];
    rewrite ?H1, ?H2; auto; split; congruence.
Qed.

End Record.

(** X8.  The record of a successful switch describes the switch that
    was made: its old side is the identity, mode and pool the agent had
    when the call began, its trigger is the caller's, the snapshot it
    names is the image of its new side, and its fixed price is not zero.
    A reclaimable price other than zero is only reported for a side whose
    mode is [spot]. *)
Theorem successful_switch_record
    (w : World) (tm : string) (tp : option string) (trig : string) (s s' : Agent) :
  execute_switch w tm tp trig s = (true, s') ->
  exists evs report,
    trace s' = (trace s ++ evs)%list
    /\ reports evs = [report]
    /\ is_instance_id (old_instance report) = instance_id (config s)
    /\ is_mode (old_instance report) = current_mode s
    /\ is_pool_id (old_instance report) = current_pool_id s
    /\ is_region (old_instance report) = region (config s)
    /\ is_region (new_instance report) = region (config s)
    /\ trigger report = trig
    /\ snapshot_used report = true
    /\ snapshot_id report = is_ami_id (new_instance report)
    /\ snapshot_id report <> ""
    /\ price_truthy (on_demand (prices report)) = true
    /\ (old_spot (prices report) <> 0%float ->
        current_mode s = Some "spot" /\ current_pool_id s <> None)
    /\ (new_spot (prices report) <> 0%float ->
        is_mode (new_instance report) = Some "spot"
        /\ is_pool_id (new_instance report) <> None).
Proof.
  intros Hrun.
  apply execute_switch_true in Hrun as (_ & l & sg & t & s2 & Hg & Ht & ->).
  destruct (switch_gather_some _ _ _ _ _ _ Hg) as (Hid & Hmode & Hpool & _).
  destruct (switch_gather_observed _ _ _ _ _ _ Hg)
    as (Hprice & Hami & _ & _ & _ & pools & Hold & Hnew).
  eapply local_inv in Hg; [|apply switch_gather_local].
  destruct Hg as (Hc & _ & _ & _ & pre & Hpre & Hgather).
  apply terminate_old_inv in Ht
    as ((Hc' & _ & _ & _ & post & Hpost & Hquiet) & _ & _).
  simpl in Hc, Hc', Hpre, Hpost, Hid, Hmode, Hpool, Hold.
  eexists (pre ++ [EUtcNow] ++ post ++ [ESwitchReport _])%list, _.
  split; [|split].
  - simpl. rewrite Hpost, Hpre. repeat (rewrite <- app_assoc; simpl).
    reflexivity.
  - rewrite !reports_app.
    destruct (gather_events_silent _ _ Hgather) as (_ & -> & _).
    rewrite (terminate_events_unreported _ Hquiet). reflexivity.
  - simpl. rewrite Hc', Hc, Hid, Hmode, Hpool.
    repeat (split; [first [reflexivity|assumption]|]).
    split.
    + rewrite Hold. intros Hnz.
      destruct (spot_price_for_nonzero _ _ _ Hnz) as (-> & pid & _ & -> & _).
      split; [reflexivity|discriminate].
    + rewrite Hnew. intros Hnz.
      destruct (spot_price_for_nonzero _ _ _ Hnz) as ([= ->] & pid & _ & -> & _).
      split; [reflexivity|discriminate].
Qed.

Lemma successful_switch_record_witness :
  let s' := snd (execute_switch (scripted script1) "ondemand" None "manual"
                   agent1) in
  execute_switch (scripted script1) "ondemand" None "manual" agent1 = (true, s')
  /\ exists evs report,
       trace s' = (trace agent1 ++ evs)%list
       /\ reports evs = [report]
       /\ is_instance_id (old_instance report) = "i-A"
       /\ trigger report = "manual".
Proof.
  assert (Hrun : execute_switch (scripted script1) "ondemand" None "manual" agent1
                 = (true, snd (execute_switch (scripted script1) "ondemand"
                                 None "manual" agent1)))
    by (vm_compute; reflexivity).
  split; [exact Hrun|].
  destruct (successful_switch_record _ _ _ _ _ _ Hrun)
    as (evs & report & Ht & Hr & Hid & _ & _ & _ & _ & Htrig & _).
  exists evs, report. auto.
Defined.

(** X9.  After a successful switch the agent has an instance id, its
    mode is one of [spot], [ondemand] and [unknown], and it has a pool id
    exactly when its mode is [spot]. *)
Theorem successful_switch_mode_and_pool
    (w : World) (tm : string) (tp : option string) (trig : string) (s s' : Agent) :
  execute_switch w tm tp trig s = (true, s') ->
  instance_id (config s') <> ""
  /\ (current_mode s' = Some "spot" \/ current_mode s' = Some "ondemand"
      \/ current_mode s' = Some "unknown")
  /\ (current_mode s' = Some "spot" <-> current_pool_id s' <> None).
Proof.
  intros Hrun.
  apply execute_switch_true in Hrun as (_ & l & sg & t & s2 & Hg & Ht & ->).
  destruct (switch_gather_observed _ _ _ _ _ _ Hg)
    as (_ & _ & Hid & Hiff & Hmode & _).
  simpl. split; [exact Hid|]. split.
  - destruct Hmode as [-> | [-> | ->]]; auto.
  - rewrite <- Hiff. split; intros Heq; congruence.
Qed.

Lemma successful_switch_mode_and_pool_witness :
  let s' := snd (execute_switch (scripted script2) "spot"
                   (Some "m5.large_apsouth1b") "manual" agent2) in
  execute_switch (scripted script2) "spot" (Some "m5.large_apsouth1b")
    "manual" agent2 = (true, s')
  /\ current_mode s' = Some "spot"
  /\ current_pool_id s' <> None.
Proof.
  assert (Hrun : execute_switch (scripted script2) "spot"
                   (Some "m5.large_apsouth1b") "manual" agent2
                 = (true, snd (execute_switch (scripted script2) "spot"
                                 (Some "m5.large_apsouth1b") "manual" agent2)))
    by (vm_compute; reflexivity).
  split; [exact Hrun|].
  destruct (successful_switch_mode_and_pool _ _ _ _ _ _ Hrun) as (_ & _ & Hiff).
  assert (Hmode : current_mode
                    (snd (execute_switch (scripted script2) "spot"
                            (Some "m5.large_apsouth1b") "manual" agent2))
                  = Some "spot") by (vm_compute; reflexivity).
  split; [exact Hmode|]. apply Hiff, Hmode.
Defined.

(** ** The command-drain turn as a whole *)

Lemma switch_event_drain tm e : switch_event tm e -> drain_event e.
Proof. destruct e; simpl; tauto. Qed.

Section DrainTurn.

Context (w : World).

Lemma process_command_drain c s :
  exists evs,
    trace (snd (process_command w c s)) = (trace s ++ evs)%list
    /\ Forall drain_event evs.
Proof.
  destruct (addressed c s) eqn:Haddr.
  - destruct (process_command_run w c s Haddr)
      as (r & s1 & evs & _ & -> & Ht & Hev).
    exists (evs ++ [EMarkCommandExecuted (cmd_id c)])%list. simpl.
    rewrite Ht, <- app_assoc. split; [reflexivity|].
    apply Forall_app. split; [|repeat constructor].
    eapply Forall_impl; [exact Hev|apply switch_event_drain].
  - rewrite process_command_skip by exact Haddr.
    exists []. rewrite app_nil_r. split; [reflexivity|constructor].
Qed.

Lemma for_each_drain cmds :
  forall s,
    exists evs,
      trace (snd (for_each cmds (process_command w) s)) = (trace s ++ evs)%list
      /\ Forall drain_event evs.
Proof.
  induction cmds as [|c rest IH]; intros s; simpl.
  - exists []. rewrite app_nil_r. split; [reflexivity|constructor].
  - unfold bind. destruct (process_command_drain c s) as (e1 & Ht1 & He1).
    destruct (process_command w c s) as [[] s1]. simpl in Ht1.
    destruct (IH s1) as (e2 & Ht2 & He2).
    exists (e1 ++ e2)%list. rewrite Ht2, Ht1, <- app_assoc.
    split; [reflexivity|]. apply Forall_app. auto.
Qed.

End DrainTurn.

(** X10.  A command-drain turn does nothing at all, not even the fetch,
    when the agent is disabled, when automatic switching is off or when a
    switch is in progress.  Otherwise it fetches the pending commands
    once, first, and when the fetch fails or returns no command it does
    nothing more. *)
Theorem command_tick_gate (w : World) (s : Agent) :
  let open := enabled (config s) && auto_switch_enabled (config s)
              && negb (switching_in_progress s) in
  (open = false -> command_tick w s = (tt, s))
  /\ (open = true ->
      exists evs,
        trace (snd (command_tick w s))
        = (trace s ++ EGetPendingCommands :: evs)%list
        /\ (EGetPendingCommands ∉ evs)
        /\ (default [] (http_pending_commands w (length (trace s))) = [] ->
            evs = []
            /\ command_tick w s = (tt, emit EGetPendingCommands s))).
Proof.
  cbv zeta. unfold command_tick, get_pending_commands, bind, get, call, ret.
  destruct (enabled (config s)), (auto_switch_enabled (config s)),
    (switching_in_progress s); simpl;
    (split; [try discriminate; reflexivity|]); try discriminate.
  intros _.
  destruct (for_each_drain w
              (default [] (http_pending_commands w (length (trace s))))
              (emit EGetPendingCommands s)) as (evs & Ht & Hev).
  exists evs. simpl in Ht. rewrite Ht, <- app_assoc. split; [reflexivity|].
  split.
  - intros Hin. rewrite Forall_forall in Hev. exact (Hev _ Hin).
  - intros Hnone. rewrite Hnone in Ht |- *. simpl in Ht |- *.
    split; [|reflexivity].
    apply (app_inv_head (trace s ++ [EGetPendingCommands])).
    rewrite app_nil_r. symmetry. exact Ht.
Qed.

Section CloudDown.

Context (w : World).

Hypothesis describe_fails :
  forall n id, ec2_describe_instances w n id = None.

Lemma execute_switch_cloud_down tm tp trig s r s' :
  execute_switch w tm tp trig s = (r, s') ->
  r = false /\ config s' = config s /\ current_mode s' = current_mode s
  /\ current_pool_id s' = current_pool_id s
  /\ exists evs,
       trace s' = (trace s ++ evs)%list
       /\ launches evs = [] /\ reports evs = [] /\ acks evs = []
       /\ terminations evs = [].
Proof.
  intros Hrun.
  pose proof (execute_switch_requests _ _ _ _ _ _ _ Hrun)
    as (evs & Ht & Hl & _ & Hterm & Hrep & Hack).
  destruct Hl as [[Hnil ->]|(p & _ & Hfrom)].
  - apply execute_switch_frame in Hrun as (_ & evs' & Ht' & _ & Habort).
    destruct (Habort eq_refl) as (Hc & Hm & Hp & _).
    split; [reflexivity|]. repeat (split; [assumption|]).
    exists evs. simpl in Hterm, Hrep.
    destruct (reports evs); [auto|discriminate].
  - destruct Hfrom as (n & i & o & rs & _ & _ & _ & _ & Hdescribe & _).
    rewrite describe_fails in Hdescribe. discriminate.
Qed.

Lemma for_each_cloud_down cmds :
  forall s,
    let s' := snd (for_each cmds (process_command w) s) in
    config s' = config s /\ current_mode s' = current_mode s
    /\ current_pool_id s' = current_pool_id s
    /\ exists evs,
         trace s' = (trace s ++ evs)%list
         /\ acks evs
            = map cmd_id (addressed_to (instance_id (config s)) cmds)
         /\ launches evs = [] /\ reports evs = [] /\ terminations evs = [].
Proof.
  induction cmds as [|c rest IH]; intros s; simpl.
  - repeat split. exists []. rewrite app_nil_r. auto.
  - unfold bind.
    assert (Hstep : exists s1 e1,
               process_command w c s = (tt, s1)
               /\ config s1 = config s /\ current_mode s1 = current_mode s
               /\ current_pool_id s1 = current_pool_id s
               /\ trace s1 = (trace s ++ e1)%list
               /\ acks e1 = (if addressed c s then [cmd_id c] else [])
               /\ launches e1 = [] /\ reports e1 = []
               /\ terminations e1 = []).
    { destruct (addressed c s) eqn:Haddr.
      - destruct (process_command_run w c s Haddr)
          as (r & s1 & evs & Hrun & Hp & _).
        apply execute_switch_cloud_down in Hrun
          as (_ & Hc & Hm & Hpool & e1 & Ht & Hl & Hr & Ha & Hterm).
        exists (emit (EMarkCommandExecuted (cmd_id c)) s1),
               (e1 ++ [EMarkCommandExecuted (cmd_id c)])%list.
        split; [exact Hp|]. simpl.
        rewrite Ht, acks_app, launches_app, reports_app, terminations_app,
          Ha, Hl, Hr, Hterm, <- app_assoc. auto 10.
      - exists s, []. rewrite process_command_skip by exact Haddr.
        rewrite app_nil_r. auto 10. }
    destruct Hstep as (s1 & e1 & -> & Hc & Hm & Hp & Ht & Ha & Hl & Hr & Hterm).
    destruct (IH s1) as (Hc' & Hm' & Hp' & e2 & Ht' & Ha' & Hl' & Hr' & Hterm').
    cbv zeta in *. simpl.
    split; [congruence|]. split; [congruence|]. split; [congruence|].
    exists (e1 ++ e2)%list.
    rewrite Ht', Ht, acks_app, launches_app, reports_app, terminations_app,
      Ha, Ha', Hl, Hl', Hr, Hr', Hterm, Hterm', Hc, <- app_assoc.
    split; [reflexivity|]. split; [|auto].
    unfold addressed_to, addressed. rewrite filter_cons.
    destruct (String.eqb (cmd_instance_id c) (instance_id (config s))) eqn:Heq.
    + apply String.eqb_eq in Heq. rewrite decide_True by exact Heq.
      reflexivity.
    + apply String.eqb_neq in Heq. rewrite decide_False by exact Heq.
      reflexivity.
Qed.

End CloudDown.

(** X11.  While the provider answers no [describe_instances], a
    command-drain turn acknowledges every fetched command that names the
    agent's instance, in order, and no other; it launches nothing,
    terminates nothing, reports nothing, and leaves the identity as it
    was.  The acknowledged commands are not retried. *)
Theorem cloud_down_acknowledges_without_switching (w : World) (s : Agent) :
  (forall n id, ec2_describe_instances w n id = None) ->
  enabled (config s) = true -> auto_switch_enabled (config s) = true ->
  switching_in_progress s = false ->
  let s' := snd (command_tick w s) in
  let cmds := default [] (http_pending_commands w (length (trace s))) in
  config s' = config s /\ current_mode s' = current_mode s
  /\ current_pool_id s' = current_pool_id s
  /\ exists evs,
       trace s' = (trace s ++ EGetPendingCommands :: evs)%list
       /\ acks evs = map cmd_id (addressed_to (instance_id (config s)) cmds)
       /\ launches evs = [] /\ reports evs = [] /\ terminations evs = [].
Proof.
  intros Hdown He Ha Hf. cbv zeta.
  unfold command_tick, get_pending_commands, bind, get, call, ret.
  rewrite He, Ha, Hf. simpl.
  destruct (for_each_cloud_down w Hdown
              (default [] (http_pending_commands w (length (trace s))))
              (emit EGetPendingCommands s))
    as (Hc & Hm & Hp & evs & Ht & Hacks & Hrest).
  cbv zeta in *. simpl in Hc, Hm, Hp, Ht, Hacks.
  split; [exact Hc|]. split; [exact Hm|]. split; [exact Hp|].
  exists evs. rewrite Ht, <- app_assoc. auto.
Qed.

Lemma cloud_down_acknowledges_without_switching_witness :
  let s' := snd (command_tick cloud_down agent1) in
  (forall n id, ec2_describe_instances cloud_down n id = None)
  /\ config s' = config agent1
  /\ exists evs,
       trace s' = (trace agent1 ++ EGetPendingCommands :: evs)%list
       /\ acks evs = [7] /\ launches evs = [].
Proof.
  assert (Hdown : forall n id, ec2_describe_instances cloud_down n id = None)
    by reflexivity.
  split; [exact Hdown|].
  destruct (cloud_down_acknowledges_without_switching cloud_down agent1 Hdown
              eq_refl eq_refl eq_refl)
    as (Hc & _ & _ & evs & Ht & Hacks & Hl & _).
  split; [exact Hc|]. exists evs. split; [exact Ht|]. split; [|exact Hl].
  rewrite Hacks. vm_compute. reflexivity.
Defined.

(** ** The two price monitors *)

Lemma emit_length e s : length (trace (emit e s)) = S (length (trace s)).
Proof. simpl. rewrite length_app. simpl. lia. Qed.

Lemma ondemand_price_tick_run (w : World) (s : Agent) :
  let answer := fst (get_ondemand_price w (instance_type (config s)) s) in
  let asked := emit (EGetProducts (instance_type (config s))
                       (location_of (region (config s)))) s in
  ondemand_price_tick w s
  = (tt, if opt_price_truthy answer
         then set_last_ondemand answer
                (Some (utcnow w (S (length (trace s))))) (emit EUtcNow asked)
         else asked).
Proof.
  cbv zeta. unfold ondemand_price_tick, bind, get.
  rewrite get_ondemand_price_run. cbn [fst].
  destruct (opt_price_truthy _); [|reflexivity].
  unfold call, modify. rewrite emit_length. reflexivity.
Qed.

(** X12.  One turn of the fixed-price monitor asks the catalog once.  An
    answer without a price, or with the price zero, leaves the cached price
    and its time stamp as they were.  A price that is not zero is cached
    with the clock reading taken right after the answer, and a
    [_get_ondemand_price] that follows within the refresh interval returns
    that price without asking the catalog.  The turn changes nothing else
    of the agent. *)
Theorem probe_then_read (w : World) (s : Agent) :
  let answer := fst (get_ondemand_price w (instance_type (config s)) s) in
  let asked := emit (EGetProducts (instance_type (config s))
                       (location_of (region (config s)))) s in
  let s' := snd (ondemand_price_tick w s) in
  config s' = config s /\ current_mode s' = current_mode s
  /\ current_pool_id s' = current_pool_id s
  /\ switching_in_progress s' = switching_in_progress s
  /\ (opt_price_truthy answer = false -> s' = asked)
  /\ (forall p, answer = Some p -> price_truthy p = true ->
      s' = set_last_ondemand (Some p)
             (Some (utcnow w (S (length (trace s))))) (emit EUtcNow asked)
      /\ (utcnow w (S (S (length (trace s)))) - utcnow w (S (length (trace s)))
          < seconds (ondemand_price_interval (config s)) ->
          _get_ondemand_price w s' = (p, emit EUtcNow s'))).
Proof.
  cbv zeta. rewrite ondemand_price_tick_run. cbv zeta. cbn [snd].
  rewrite get_ondemand_price_run. cbn [fst].
  set (answer := ondemand_price_of _).
  set (asked := emit _ s).
  assert (Hlen : length (trace asked) = S (length (trace s)))
    by apply emit_length.
  destruct (opt_price_truthy answer) eqn:Htruthy.
  - repeat (split; [reflexivity|]). split; [discriminate|].
    intros p Hp Hnz. rewrite Hp. split; [reflexivity|]. intros Hage.
    unfold _get_ondemand_price.
    rewrite (bind_run _ _ _ (Some p) (emit EUtcNow
               (set_last_ondemand (Some p)
                  (Some (utcnow w (S (length (trace s)))))
                  (emit EUtcNow asked)))); [reflexivity|].
    apply cached_ondemand_price_fresh.
    split; [reflexivity|]. split; [exact Hnz|].
    eexists. split; [reflexivity|].
    cbn [trace set_last_ondemand config]. rewrite emit_length, Hlen.
    exact Hage.
  - repeat (split; [reflexivity|]).
    intros p Hp Hnz. rewrite Hp in Htruthy. simpl in Htruthy. congruence.
Qed.

(** *** The metadata client leaves the agent alone *)

Lemma fetched_refl s : fetched s s.
Proof.
  repeat split. exists []. split; [symmetry; apply app_nil_r|constructor].
Qed.

Lemma fetched_emit s s1 e :
  fetched s s1 -> metadata_event e -> fetched s (emit e s1).
Proof.
  intros (Hc & Hp & Hf & Hm & Hpool & Hflag & evs & Ht & Hev) He.
  repeat split; try assumption.
  exists (evs ++ [e])%list. simpl. rewrite Ht, <- app_assoc.
  split; [reflexivity|]. apply Forall_app. split; [exact Hev|].
  constructor; [exact He|constructor].
Qed.

Lemma fetched_set_token s s1 t e :
  fetched s s1 -> fetched s (set_token t e s1).
Proof. intros H. exact H. Qed.

Section Metadata.

Context (w : World).

Lemma _get_token_fetched s : fetched s (snd (_get_token w s)).
Proof.
  unfold _get_token. unfold bind at 1. unfold get at 1. unfold bind at 1.
  assert (Hfetch : forall s1, fetched s s1 ->
            fetched s
              (snd ((let! response := call (imds_put_token w) EPutToken in
                     match response with
                     | Some text =>
                         let! t := call (now w) ENow in
                         let! _ := modify (set_token (Some text)
                                             (Some (t + seconds 21600))) in
                         ret (Some text)
                     | None => ret None
                     end) s1))).
  { intros s1 H1. unfold bind at 1. unfold call at 1.
    destruct (imds_put_token w (length (trace s1))).
    - unfold bind, call, modify, ret. cbn [snd].
      apply fetched_set_token, fetched_emit; [|exact I].
      apply fetched_emit; [exact H1|exact I].
    - unfold ret. cbn [snd]. apply fetched_emit; [exact H1|exact I]. }
  destruct (token s) as [[|c r]|]; [| |];
    try (unfold ret at 1; apply Hfetch, fetched_refl).
  destruct (token_expiry s) as [expiry|];
    [|unfold ret at 1; apply Hfetch, fetched_refl].
  unfold bind at 1. unfold call at 1. unfold ret at 1.
  destruct (now w (length (trace s)) <? expiry)%Z.
  - unfold ret. cbn [snd]. apply fetched_emit; [apply fetched_refl|exact I].
  - apply Hfetch. apply fetched_emit; [apply fetched_refl|exact I].
Qed.

Lemma _fetch_metadata_fetched path s :
  fetched s (snd (_fetch_metadata w path s)).
Proof.
  unfold _fetch_metadata, bind.
  pose proof (_get_token_fetched s) as Htoken.
  destruct (_get_token w s) as [tok s1]. cbn [snd] in Htoken.
  unfold call. cbn [snd]. apply fetched_emit; [exact Htoken|exact I].
Qed.

End Metadata.

Lemma metadata_events_plain evs :
  Forall metadata_event evs ->
  launches evs = [] /\ terminations evs = [] /\ reports evs = []
  /\ acks evs = [] /\ pricing_reports evs = [].
Proof.
  induction 1 as [|e evs He _ IH]; [repeat split|].
  destruct e; simpl in He; try contradiction; exact IH.
Qed.

Lemma pricing_reports_app a b :
  pricing_reports (a ++ b) = (pricing_reports a ++ pricing_reports b)%list.
Proof. apply flat_map_app. Qed.

Lemma preparation_events_unpriced evs :
  Forall preparation_event evs -> pricing_reports evs = [].
Proof.
  induction 1 as [|e evs He _ IH]; [reflexivity|].
  destruct e; simpl in He; try contradiction; exact IH.
Qed.

Section SpotMonitor.

Context (w : World).

(** The turn, step by step. *)
Lemma spot_price_tick_run s :
  let t := fst (get_instance_type w s) in
  let s1 := snd (get_instance_type w s) in
  let s2 :=
    if str_truthy t
       && negb (String.eqb (default "" t) (instance_type (config s1)))
    then set_config (with_instance_type (default "" t) (config s1)) s1
    else s1 in
  let pools := fst (get_spot_prices w (instance_type (config s2)) s2) in
  let s3 := snd (get_spot_prices w (instance_type (config s2)) s2) in
  let p := fst (_get_ondemand_price w s3) in
  let s4 := snd (_get_ondemand_price w s3) in
  let id := instance_id (config s4) in
  let m := fst (get_current_mode w id s4) in
  let s5 := set_mode (Some (fst m)) (snd m) (emit (EDescribeInstances id) s4) in
  spot_price_tick w s
  = (tt,
     match pools with
     | [] => s3
     | _ :: _ =>
         emit (EPricingReport
           {| pr_instance :=
                {| id_instance_id := instance_id (config s5);
                   id_instance_type := instance_type (config s5);
                   id_region := region (config s5);
                   id_az := availability_zone (config s5);
                   id_ami_id := ami_id (config s5);
                   id_current_mode := current_mode s5;
                   id_current_pool_id := current_pool_id s5 |};
              pr_on_demand_price := p;
              pr_source := "api";
              pr_spot_pools := pools |}) s5
     end).
Proof.
  cbv zeta. unfold spot_price_tick. unfold bind at 1.
  destruct (get_instance_type w s) as [t s1]. cbn [fst snd].
  unfold bind at 1. unfold get at 1. unfold bind at 1.
  set (s2 := if str_truthy t
                && negb (String.eqb (default "" t) (instance_type (config s1)))
             then set_config (with_instance_type (default "" t) (config s1)) s1
             else s1).
  assert (Hs2 : (if str_truthy t
                    && negb (String.eqb (default "" t)
                               (instance_type (config s1)))
                 then modify (set_config
                                (with_instance_type (default "" t) (config s1)))
                 else ret tt) s1 = (tt, s2)).
  { subst s2. destruct (_ && _); reflexivity. }
  rewrite Hs2. unfold bind at 1. unfold get at 1. unfold bind at 1.
  destruct (get_spot_prices w (instance_type (config s2)) s2)
    as [pools s3]. cbn [fst snd].
  destruct pools as [|pool pools]; [reflexivity|].
  unfold bind at 1.
  destruct (_get_ondemand_price w s3) as [p s4]. cbn [fst snd].
  unfold bind at 1. unfold get at 1. unfold bind at 1.
  unfold get_current_mode, get_instance_details, bind, call, ret, get,
    modify, send_pricing_report. cbn [fst snd].
  destruct (mode_of _). reflexivity.
Qed.

Lemma with_instance_type_same c : with_instance_type (instance_type c) c = c.
Proof. destruct c. reflexivity. Qed.

Lemma spot_price_tick_shape s :
  let t := fst (get_instance_type w s) in
  let T := if str_truthy t then default "" t else instance_type (config s) in
  let s' := snd (spot_price_tick w s) in
  exists s4 e1 e2,
    config s4 = with_instance_type T (config s)
    /\ last_ondemand_price s' = last_ondemand_price s4
    /\ last_ondemand_fetch s' = last_ondemand_fetch s4
    /\ current_mode s4 = current_mode s
    /\ current_pool_id s4 = current_pool_id s
    /\ switching_in_progress s4 = switching_in_progress s
    /\ trace s4 = (trace s ++ e1 ++ e2)%list
    /\ Forall metadata_event e1 /\ Forall pricing_event e2
    /\ (s' = s4
        \/ exists pools p,
             pools <> [] /\ Forall (well_named T) pools
             /\ NoDup (map az pools) /\ price_truthy p = true
             /\ let id := instance_id (config s) in
                let m := fst (get_current_mode w id s4) in
                let s5 := set_mode (Some (fst m)) (snd m)
                            (emit (EDescribeInstances id) s4) in
                s' = emit (EPricingReport
                       {| pr_instance :=
                            {| id_instance_id := id;
                               id_instance_type := T;
                               id_region := region (config s);
                               id_az := availability_zone (config s);
                               id_ami_id := ami_id (config s);
                               id_current_mode := Some (fst m);
                               id_current_pool_id := snd m |};
                          pr_on_demand_price := p;
                          pr_source := "api";
                          pr_spot_pools := pools |}) s5).
Proof.
  cbv zeta. rewrite spot_price_tick_run. cbv zeta. cbn [snd].
  pose proof (_fetch_metadata_fetched w "instance-type" s) as Hfetched.
  fold (get_instance_type w) in Hfetched.
  destruct (get_instance_type w s) as [t s1]. cbn [fst snd] in *.
  destruct Hfetched as (Hc1 & Hp1 & Hf1 & Hm1 & Hpool1 & Hflag1 & e1 & Ht1 & He1).
  set (s2 := if str_truthy t
                && negb (String.eqb (default "" t) (instance_type (config s1)))
             then set_config (with_instance_type (default "" t) (config s1)) s1
             else s1).
  set (T := if str_truthy t then default "" t else instance_type (config s)).
  assert (Hs2 : config s2 = with_instance_type T (config s)
                /\ current_mode s2 = current_mode s
                /\ current_pool_id s2 = current_pool_id s
                /\ switching_in_progress s2 = switching_in_progress s
                /\ trace s2 = (trace s ++ e1)%list).
  { subst s2 T. rewrite Hc1.
    destruct (str_truthy t); simpl.
    - destruct (String.eqb (default "" t) (instance_type (config s))) eqn:Heq;
        simpl; [|auto].
      apply String.eqb_eq in Heq. rewrite Heq, Hc1, with_instance_type_same.
      auto.
    - rewrite Hc1, with_instance_type_same. auto. }
  clearbody s2. destruct Hs2 as (Hc2 & Hm2 & Hpool2 & Hflag2 & Ht2).
  assert (HT : instance_type (config s2) = T) by (rewrite Hc2; reflexivity).
  rewrite HT.
  pose proof (get_spot_prices_pricing w T s2)
    as (Hc3 & Hm3 & Hpool3 & Hflag3 & e2 & Ht3 & He2).
  pose proof (spot_pools_of_spec T
                (ec2_describe_spot_price_history w
                   (length (trace (emit EUtcNow s2))) T
                   (utcnow w (length (trace s2)) - seconds 300)))
    as (Hnamed & Hdistinct & _).
  change (spot_pools_of T _) with (fst (get_spot_prices w T s2))
    in Hnamed, Hdistinct.
  destruct (get_spot_prices w T s2) as [pools s3]. cbn [fst snd] in *.
  destruct pools as [|pool pools].
  - exists s3, e1, e2. rewrite Hc3, Hm3, Hpool3, Hflag3, Ht3, Ht2, <- app_assoc.
    auto 15.
  - pose proof (_get_ondemand_price_pricing w s3)
      as (Hc4 & Hm4 & Hpool4 & Hflag4 & e3 & Ht4 & He3).
    pose proof (_get_ondemand_price_truthy w s3) as Hprice.
    destruct (_get_ondemand_price w s3) as [p s4]. cbn [fst snd] in *.
    exists s4, e1, (e2 ++ e3)%list.
    assert (Hc : config s4 = with_instance_type T (config s)) by congruence.
    split; [exact Hc|]. split; [reflexivity|]. split; [reflexivity|].
    split; [congruence|]. split; [congruence|]. split; [congruence|].
    split; [rewrite Ht4, Ht3, Ht2, <- !app_assoc; reflexivity|].
    split; [exact He1|]. split; [apply Forall_app; auto|].
    right. exists (pool :: pools), p.
    split; [discriminate|]. split; [exact Hnamed|]. split; [exact Hdistinct|].
    split; [exact Hprice|]. cbv zeta. cbn [config set_mode emit].
    rewrite Hc. reflexivity.
Qed.

End SpotMonitor.

(** X13.  One turn of the price monitor never launches or terminates an
    instance, sends no switch report and acknowledges no command.  It keeps
    the instance id, the region, the zone, the image, the refresh interval,
    the three flags and the in-progress flag.  The instance type after the
    turn is the one the metadata service gave, when it gave one, and the
    old one otherwise.  When the turn sends no pricing report, the lease
    class and the pool are as before. *)
Theorem price_monitor_frame (w : World) (s : Agent) :
  let t := fst (get_instance_type w s) in
  let s' := snd (spot_price_tick w s) in
  config s'
  = with_instance_type
      (if str_truthy t then default "" t else instance_type (config s))
      (config s)
  /\ switching_in_progress s' = switching_in_progress s
  /\ exists evs,
       trace s' = (trace s ++ evs)%list
       /\ launches evs = [] /\ terminations evs = [] /\ reports evs = []
       /\ acks evs = []
       /\ (pricing_reports evs = [] ->
           current_mode s' = current_mode s
           /\ current_pool_id s' = current_pool_id s).
Proof.
  cbv zeta.
  destruct (spot_price_tick_shape w s)
    as (s4 & e1 & e2 & Hc & _ & _ & Hm & Hpool & Hflag & Ht & He1 & He2 & Hs').
  cbv zeta in *.
  apply metadata_events_plain in He1 as (Hl1 & Ht1 & Hr1 & Ha1 & Hp1).
  assert (He2' : Forall preparation_event e2)
    by (eapply Forall_impl; [exact He2|apply pricing_event_preparation]).
  pose proof (preparation_events_unpriced _ He2') as Hp2.
  apply preparation_events_plain in He2' as (Hl2 & Ht2 & Hr2 & Ha2).
  destruct Hs' as [-> | (pools & p & _ & _ & _ & _ & ->)].
  - split; [exact Hc|]. split; [exact Hflag|].
    exists (e1 ++ e2)%list. split; [exact Ht|].
    rewrite launches_app, terminations_app, reports_app, acks_app,
      Hl1, Hl2, Ht1, Ht2, Hr1, Hr2, Ha1, Ha2. simpl. auto 10.
  - split; [exact Hc|]. split; [exact Hflag|].
    eexists (e1 ++ e2 ++ [EDescribeInstances _] ++ [EPricingReport _])%list.
    split; [cbn [trace emit set_mode]; rewrite Ht, <- !app_assoc; reflexivity|].
    rewrite !launches_app, !terminations_app, !reports_app, !acks_app,
      !pricing_reports_app, Hl1, Hl2, Ht1, Ht2, Hr1, Hr2, Ha1, Ha2, Hp1, Hp2.
    simpl. repeat (split; [reflexivity|]). discriminate.
Qed.

(** X14.  One turn of the price monitor sends at most one pricing report.
    A report carries at least one pool sample; its samples are named after
    the instance type in the report and their own zone, with no zone
    twice; its fixed price is not zero; its source is [api].  The instance
    in it is the agent's own as the turn leaves it: same id, region, zone
    and image as before the turn, the type, lease class and pool of the
    state after the turn.  That lease class is one of [spot], [ondemand]
    and [unknown], and a pool is named exactly for [spot]. *)
Theorem pricing_report_contents (w : World) (s : Agent) :
  let s' := snd (spot_price_tick w s) in
  exists evs,
    trace s' = (trace s ++ evs)%list
    /\ (pricing_reports evs = []
        \/ exists r,
             pricing_reports evs = [r]
             /\ pr_spot_pools r <> []
             /\ Forall (well_named (id_instance_type (pr_instance r)))
                  (pr_spot_pools r)
             /\ NoDup (map az (pr_spot_pools r))
             /\ price_truthy (pr_on_demand_price r) = true
             /\ pr_source r = "api"
             /\ pr_instance r
                = {| id_instance_id := instance_id (config s);
                     id_instance_type := instance_type (config s');
                     id_region := region (config s);
                     id_az := availability_zone (config s);
                     id_ami_id := ami_id (config s);
                     id_current_mode := current_mode s';
                     id_current_pool_id := current_pool_id s' |}
             /\ (exists mode, current_mode s' = Some mode
                              /\ (mode = "spot" \/ mode = "ondemand"
                                  \/ mode = "unknown")
                              /\ (mode = "spot" <-> current_pool_id s' <> None))).
Proof.
  cbv zeta.
  destruct (spot_price_tick_shape w s)
    as (s4 & e1 & e2 & Hc & _ & _ & Hm & Hpool & Hflag & Ht & He1 & He2 & Hs').
  cbv zeta in *.
  apply metadata_events_plain in He1 as (_ & _ & _ & _ & Hp1).
  assert (He2' : Forall preparation_event e2)
    by (eapply Forall_impl; [exact He2|apply pricing_event_preparation]).
  pose proof (preparation_events_unpriced _ He2') as Hp2.
  destruct Hs' as [-> | (pools & p & Hne & Hnamed & Hdistinct & Hprice & ->)].
  - exists (e1 ++ e2)%list. split; [exact Ht|]. left.
    rewrite pricing_reports_app, Hp1, Hp2. reflexivity.
  - eexists (e1 ++ e2 ++ [EDescribeInstances _] ++ [EPricingReport _])%list.
    split; [cbn [trace emit set_mode]; rewrite Ht, <- !app_assoc; reflexivity|].
    right. eexists. rewrite !pricing_reports_app, Hp1, Hp2.
    split; [reflexivity|]. cbn [pr_spot_pools pr_instance pr_on_demand_price
      pr_source id_instance_type config emit set_mode current_mode
      current_pool_id].
    rewrite Hc. cbn [instance_type with_instance_type].
    repeat (split; [first [assumption|reflexivity]|]).
    unfold get_current_mode, get_instance_details, bind, call, ret.
    cbn [fst snd].
    set (d := match ec2_describe_instances w _ _ with
              | Some ((instance :: _) :: _) => Some (details_of instance)
              | _ => None
              end).
    exists (fst (mode_of d)). split; [reflexivity|].
    destruct (mode_of_cases d)
      as [(-> & -> & _) | [(-> & -> & _) | (-> & d0 & _ & _ & ->)]];
      (split; [tauto|]); split; try discriminate; try congruence; auto.
Qed.

Lemma scenario1_pricing_report :
  exists r,
    pricing_reports (trace (snd (spot_price_tick (scripted script1) agent1)))
    = [r]
    /\ map pool_id (pr_spot_pools r)
       = ["m5.large_apsouth1a"; "m5.large_apsouth1b"].
Proof. eexists. split; vm_compute; reflexivity. Qed.

Lemma probe_then_read_witness :
  let s' := snd (ondemand_price_tick (scripted script1) agent1) in
  _get_ondemand_price (scripted script1) s' = (0.09375%float, emit EUtcNow s').
Proof.
  destruct (probe_then_read (scripted script1) agent1)
    as (_ & _ & _ & _ & _ & Hread).
  destruct (Hread 0.09375%float eq_refl eq_refl) as (_ & Hnext).
  apply Hnext. vm_compute. reflexivity.
Defined.

(** ** The metadata client *)

Section Token.

Context (w : World).

Lemma _get_token_cached s tok expiry :
  token s = Some tok -> tok <> "" -> token_expiry s = Some expiry ->
  now w (length (trace s)) < expiry ->
  _get_token w s = (Some tok, emit ENow s).
Proof.
  intros Htok Hne Hexp Hfresh. unfold _get_token, bind, get, call, ret.
  rewrite Htok, Hexp. destruct tok as [|c r]; [congruence|].
  apply Z.ltb_lt in Hfresh. rewrite Hfresh. reflexivity.
Qed.

(** What [_get_token] does once the cached token is of no use. *)
Lemma _get_token_cases s :
  (exists tok expiry,
     token s = Some tok /\ tok <> "" /\ token_expiry s = Some expiry
     /\ now w (length (trace s)) < expiry
     /\ _get_token w s = (Some tok, emit ENow s))
  \/ (exists s1,
        (s1 = s \/ (s1 = emit ENow s /\ token s <> None))
        /\ _get_token w s
           = match imds_put_token w (length (trace s1)) with
             | Some text =>
                 (Some text,
                  set_token (Some text)
                    (Some (now w (S (length (trace s1))) + seconds 21600))
                    (emit ENow (emit EPutToken s1)))
             | None => (None, emit EPutToken s1)
             end).
Proof.
  assert (Hput : forall s1,
            (let! response := call (imds_put_token w) EPutToken in
             match response with
             | Some text =>
                 let! t := call (now w) ENow in
                 let! _ := modify (set_token (Some text)
                                     (Some (t + seconds 21600))) in
                 ret (Some text)
             | None => ret None
             end) s1
            = match imds_put_token w (length (trace s1)) with
              | Some text =>
                  (Some text,
                   set_token (Some text)
                     (Some (now w (S (length (trace s1))) + seconds 21600))
                     (emit ENow (emit EPutToken s1)))
              | None => (None, emit EPutToken s1)
              end).
  { intros s1. unfold bind at 1. unfold call at 1.
    destruct (imds_put_token w (length (trace s1))); [|reflexivity].
    unfold bind, call, modify, ret. rewrite emit_length. reflexivity. }
  destruct (_get_token w s) as [r s'] eqn:Hrun.
  unfold _get_token in Hrun. unfold bind at 1 in Hrun.
  unfold get at 1 in Hrun. unfold bind at 1 in Hrun.
  destruct (token s) as [[|c t]|] eqn:Htok;
    try (right; exists s; split; [left; reflexivity|];
         unfold ret at 1 in Hrun; rewrite <- Hrun; apply Hput).
  destruct (token_expiry s) as [expiry|] eqn:Hexp;
    [|right; exists s; split; [left; reflexivity|];
      unfold ret at 1 in Hrun; rewrite <- Hrun; apply Hput].
  unfold bind at 1 in Hrun. unfold call at 1 in Hrun.
  unfold ret at 1 in Hrun.
  destruct (now w (length (trace s)) <? expiry)%Z eqn:Hfresh.
  - left. exists (String c t), expiry. apply Z.ltb_lt in Hfresh.
    repeat (split; [first [reflexivity|assumption|discriminate]|]).
    rewrite <- Hrun. reflexivity.
  - right. exists (emit ENow s).
    split; [right; split; [reflexivity|discriminate]|].
    rewrite <- Hrun. apply Hput.
Qed.

End Token.

(** X15.  [_get_token] answers from the cache, without a request, exactly
    when it holds a non-empty token that has not expired.  Whenever it
    returns a token, that token is the cached one afterwards, and a second
    call before the expiry returns it again after reading the clock only,
    provided the token is not empty.  When it returns nothing, the request
    for a token failed and the cache is as it was. *)
Theorem metadata_token_cache (w : World) (s : Agent) :
  let r := fst (_get_token w s) in
  let s' := snd (_get_token w s) in
  (forall tok,
     r = Some tok ->
     token s' = Some tok
     /\ exists expiry,
          token_expiry s' = Some expiry
          /\ (tok <> "" -> now w (length (trace s')) < expiry ->
              _get_token w s' = (Some tok, emit ENow s')))
  /\ (r = None ->
      token s' = token s /\ token_expiry s' = token_expiry s
      /\ exists pre, trace s' = (trace s ++ pre ++ [EPutToken])%list
                     /\ imds_put_token w (length (trace s ++ pre)) = None)
  /\ (forall tok expiry,
        token s = Some tok -> tok <> "" -> token_expiry s = Some expiry ->
        now w (length (trace s)) < expiry ->
        r = Some tok /\ s' = emit ENow s).
Proof.
  cbv zeta. split; [|split].
  - intros tok Hr.
    destruct (_get_token_cases w s)
      as [(tok0 & expiry & Htok & Hne & Hexp & Hfresh & Hrun)
         |(s1 & Hs1 & Hrun)];
      rewrite Hrun in Hr |- *; cbn [fst snd] in *.
    + injection Hr as ->. split; [exact Htok|].
      exists expiry. split; [exact Hexp|]. intros _ Hnext.
      apply _get_token_cached with (expiry := expiry); assumption.
    + destruct (imds_put_token w (length (trace s1))) as [text|];
        [|discriminate].
      cbn [fst snd] in *. injection Hr as ->. split; [reflexivity|].
      eexists. split; [reflexivity|]. intros Hne Hnext.
      apply _get_token_cached with (expiry := now w (S (length (trace s1)))
                                              + seconds 21600);
        [reflexivity|exact Hne|reflexivity|exact Hnext].
  - intros Hr.
    destruct (_get_token_cases w s)
      as [(tok0 & expiry & Htok & Hne & Hexp & Hfresh & Hrun)
         |(s1 & Hs1 & Hrun)];
      rewrite Hrun in Hr |- *; cbn [fst snd] in *; [discriminate|].
    destruct (imds_put_token w (length (trace s1))) as [text|] eqn:Hput;
      [discriminate|].
    cbn [snd]. destruct Hs1 as [-> | [-> _]].
    + repeat (split; [reflexivity|]). exists []. rewrite app_nil_r.
      split; [reflexivity|exact Hput].
    + repeat (split; [reflexivity|]). exists [ENow].
      split; [simpl; rewrite <- app_assoc; reflexivity|exact Hput].
  - intros tok expiry Htok Hne Hexp Hfresh.
    rewrite (_get_token_cached w s tok expiry) by assumption.
    split; reflexivity.
Qed.

(** X16.  [_fetch_metadata] makes one request for the path, as its last
    call, whatever the token service did before: at most one request for a
    token and at most two readings of the clock.  The request carries
    either no token or a non-empty token that is the cached one
    afterwards; without a cached token and with a token service that does
    not answer, it carries none.  The result is the answer to that
    request, and the agent's configuration, price cache, lease class, pool
    and in-progress flag are untouched. *)
Theorem fetch_metadata_request (w : World) (path : string) (s : Agent) :
  let r := fst (_fetch_metadata w path s) in
  let s' := snd (_fetch_metadata w path s) in
  fetched s s'
  /\ exists pre header,
       trace s' = (trace s ++ pre ++ [EGetMetadata path header])%list
       /\ sublist pre [ENow; EPutToken; ENow]
       /\ (header = None
           \/ exists tok, header = Some tok /\ tok <> ""
                          /\ token s' = Some tok)
       /\ r = imds_get w (length (trace s ++ pre)) path header
       /\ (token s = None ->
           imds_put_token w (length (trace s)) = None -> header = None).
Proof.
  cbv zeta. split; [apply _fetch_metadata_fetched|].
  unfold _fetch_metadata, bind, call.
  destruct (_get_token_cases w s)
    as [(tok0 & expiry & Htok & Hne & Hexp & Hfresh & Hrun)
       |(s1 & Hs1 & Hrun)]; rewrite Hrun.
  - exists [ENow], (Some tok0). cbn [fst snd emit trace].
    destruct tok0 as [|c t]; [congruence|]. cbn [str_truthy].
    split; [rewrite <- app_assoc; reflexivity|].
    split; [apply sublist_skip, sublist_nil_l|].
    split; [right; exists (String c t); auto|].
    split; [reflexivity|]. intros Hnone. congruence.
  - assert (Hpre : exists pre0,
              trace s1 = (trace s ++ pre0)%list
              /\ (pre0 = [] \/ pre0 = [ENow])
              /\ (token s = None -> pre0 = [])).
    { destruct Hs1 as [-> | [-> Hsome]].
      - exists []. rewrite app_nil_r. auto.
      - exists [ENow]. split; [reflexivity|]. split; [auto|].
        intros Hnone. contradiction. }
    destruct Hpre as (pre0 & Ht1 & Hshape & Hnone).
    destruct (imds_put_token w (length (trace s1))) as [text|] eqn:Hput.
    + exists (pre0 ++ [EPutToken; ENow])%list,
             (if str_truthy (Some text) then Some text else None).
      cbn [fst snd emit trace set_token token]. rewrite Ht1.
      split; [rewrite <- !app_assoc; reflexivity|].
      split; [destruct Hshape as [-> | ->]; simpl;
              [apply sublist_cons, sublist_skip, sublist_skip, sublist_nil_l
              |apply sublist_skip, sublist_skip, sublist_skip, sublist_nil_l]|].
      split; [destruct text as [|c t]; simpl;
              [left; reflexivity|right; exists (String c t); auto]|].
      split; [rewrite <- !app_assoc, !length_app; reflexivity|].
      intros Htok Hdown. rewrite (Hnone Htok), app_nil_r in Ht1.
      rewrite Ht1 in Hput. congruence.
    + exists (pre0 ++ [EPutToken])%list, None.
      cbn [fst snd emit trace str_truthy]. rewrite Ht1.
      split; [rewrite <- !app_assoc; reflexivity|].
      split; [destruct Hshape as [-> | ->]; simpl;
              [apply sublist_cons, sublist_skip, sublist_nil_l
              |apply sublist_skip, sublist_skip, sublist_nil_l]|].
      split; [left; reflexivity|].
      split; [rewrite <- !app_assoc, !length_app; reflexivity|].
      reflexivity.
Qed.

(** ** Startup, heartbeat and shutdown *)

Lemma sbind_inv {A B} (m : SM A) (k : A -> SM B) sv b sv' :
  sbind m k sv = (b, sv') ->
  exists a sv1, m sv = (a, sv1) /\ k a sv1 = (b, sv').
Proof. unfold sbind. destruct (m sv) as [a sv1]. eauto. Qed.

Lemma lift_inv {A} (m : M A) sv a sv1 :
  lift m sv = (a, sv1) ->
  exists s', m (agent sv) = (a, s') /\ sv1 = set_agent s' sv.
Proof.
  unfold lift. destruct (m (agent sv)) as [a' s']. intros [= <- <-]. eauto.
Qed.

Lemma starting_refl sv : starting sv sv.
Proof.
  repeat split; (exists []; rewrite app_nil_r; auto).
Qed.

Lemma starting_trans sv1 sv2 sv3 :
  starting sv1 sv2 -> starting sv2 sv3 -> starting sv1 sv3.
Proof.
  intros (Ht & Hi & Hc & Hp & Hf & Hs & (evs & He & Hev) & cs & Hcs & Hr & Hh)
         (Ht' & Hi' & Hc' & Hp' & Hf' & Hs' & (evs' & He' & Hev') & cs' & Hcs'
          & Hr' & Hh').
  repeat split; try congruence.
  - exists (evs ++ evs')%list. rewrite He', He, <- app_assoc.
    split; [reflexivity|]. apply Forall_app. auto.
  - exists (cs ++ cs')%list. rewrite Hcs', Hcs, <- app_assoc.
    unfold registrations, heartbeats in *. rewrite !flat_map_app.
    rewrite Hr, Hr', Hh, Hh'. auto.
Qed.

Lemma metadata_event_startup e : metadata_event e -> startup_event e.
Proof. destruct e; simpl; tauto. Qed.

Lemma starting_fetched sv s' : fetched (agent sv) s' -> starting sv (set_agent s' sv).
Proof.
  intros (Hc & Hp & Hf & Hm & Hpool & Hflag & evs & Ht & Hev).
  repeat split; simpl; try congruence.
  - exists evs. split; [exact Ht|].
    eapply Forall_impl; [exact Hev|apply metadata_event_startup].
  - exists []. rewrite app_nil_r. auto.
Qed.

Lemma starting_call sv e :
  registrations [e] = [] -> heartbeats [e] = [] ->
  starting sv (record_control e sv).
Proof.
  intros Hr Hh. repeat split.
  - exists []. rewrite app_nil_r. split; [reflexivity|constructor].
  - exists [e]. auto.
Qed.

Lemma str_truthy_default o : str_truthy o = true -> default "" o <> "".
Proof. destruct o as [[|c r]|]; simpl; congruence. Qed.

Section Startup.

Context (w : World) (h : Host).

Lemma lift_fetch_starting path sv a sv1 :
  lift (_fetch_metadata w path) sv = (a, sv1) -> starting sv sv1.
Proof.
  intros Hrun. apply lift_inv in Hrun as (s' & Hrun & ->).
  apply starting_fetched.
  pose proof (_fetch_metadata_fetched w path (agent sv)) as H.
  rewrite Hrun in H. exact H.
Qed.

Lemma get_hostname_starting sv name sv1 :
  get_hostname w h sv = (name, sv1) ->
  starting sv sv1 /\ is_ec2 sv1 = is_ec2 sv /\ hostname sv1 = hostname sv
  /\ config (agent sv1) = config (agent sv)
  /\ current_mode (agent sv1) = current_mode (agent sv)
  /\ current_pool_id (agent sv1) = current_pool_id (agent sv).
Proof.
  unfold get_hostname. intros Hrun.
  apply sbind_inv in Hrun as (name0 & sv0 & Hfetch & Hrun).
  pose proof (lift_fetch_starting _ _ _ _ Hfetch) as Hstart.
  apply lift_inv in Hfetch as (s' & Hfetch & ->).
  pose proof (_fetch_metadata_fetched w "hostname" (agent sv))
    as (Hc & _ & _ & Hm & Hp & _).
  rewrite Hfetch in Hc, Hm, Hp. cbn [snd] in *.
  destruct (str_truthy name0).
  - injection Hrun as <- <-. auto 10.
  - unfold scall in Hrun. injection Hrun as <- <-.
    split; [|auto 10].
    eapply starting_trans; [exact Hstart|]. apply starting_call; reflexivity.
Qed.

Lemma register_agent_run sv :
  let req := registration_of sv in
  let asked := record_control (CRegister req) sv in
  register_agent h sv
  = match http_register h (length (trace (agent sv)) + length (control sv)) req
    with
    | Some {| rs_agent_id := Some id; rs_config := flags |} =>
        (Some {| rs_agent_id := Some id; rs_config := flags |},
         set_agent
           (set_config (with_flags flags (fun _ _ => true) (config (agent sv)))
              (agent sv))
           (set_agent_id id asked))
    | _ => (None, asked)
    end.
Proof.
  cbv zeta. unfold register_agent, sbind, sget, scall, smodify, sret.
  fold (registration_of sv).
  destruct (http_register h _ (registration_of sv)) as [[[id|] flags]|];
    reflexivity.
Qed.

(** [initialize], up to the registration. *)
Lemma initialize_inv sv r sv' :
  initialize w h sv = (r, sv') ->
  (r = Exited 1 /\ starting sv sv')
  \/ exists svc answer,
       starting sv svc /\ is_ec2 svc = true
       /\ complete_identity (config (agent svc)) /\ known_lease (agent svc)
       /\ register_agent h svc = (answer, sv')
       /\ r = match answer with
              | Some _ => Started
              | None => Exited 1
              end.
Proof.
  unfold initialize. intros Hrun.
  apply sbind_inv in Hrun as (on_ec2 & sv1 & Hcheck & Hrun).
  assert (H1 : starting sv sv1).
  { apply lift_inv in Hcheck as (s' & Hcheck & ->).
    apply starting_fetched. unfold check_ec2_environment, bind in Hcheck.
    pose proof (_fetch_metadata_fetched w "instance-id" (agent sv)) as H.
    unfold get_instance_id in Hcheck.
    destruct (_fetch_metadata w "instance-id" (agent sv)) as [i s1].
    injection Hcheck as _ <-. exact H. }
  apply sbind_inv in Hrun as ([] & sv2 & [= <-] & Hrun).
  assert (H2 : starting sv (set_is_ec2 on_ec2 sv1)) by exact H1.
  destruct on_ec2; cbn [negb] in Hrun;
    [|injection Hrun as <- <-; left; auto].
  apply sbind_inv in Hrun as (id & sv3 & Hid & Hrun).
  apply sbind_inv in Hrun as (type & sv4 & Htype & Hrun).
  apply sbind_inv in Hrun as (az & sv5 & Haz & Hrun).
  apply sbind_inv in Hrun as (ami & sv6 & Hami & Hrun).
  apply sbind_inv in Hrun as (name & sv7 & Hname & Hrun).
  apply sbind_inv in Hrun as ([] & sv8 & [= <-] & Hrun).
  apply sbind_inv in Hrun as ([] & sv9 & Hident & Hrun).
  assert (Hec2 : forall path sva a svb,
            lift (_fetch_metadata w path) sva = (a, svb) ->
            is_ec2 svb = is_ec2 sva).
  { intros path sva a svb Hl. apply lift_inv in Hl as (s' & _ & ->).
    reflexivity. }
  pose proof (Hec2 _ _ _ _ Hid) as E3. pose proof (Hec2 _ _ _ _ Htype) as E4.
  pose proof (Hec2 _ _ _ _ Haz) as E5. pose proof (Hec2 _ _ _ _ Hami) as E6.
  apply lift_fetch_starting in Hid, Htype, Haz, Hami.
  apply get_hostname_starting in Hname as (Hname & E7 & _).
  unfold lift, modify in Hident. injection Hident as <-.
  set (sv9 := set_agent _ (set_hostname name sv7)) in *.
  assert (H9 : starting sv sv9).
  { eapply starting_trans; [exact H2|].
    eapply starting_trans; [exact Hid|].
    eapply starting_trans; [exact Htype|].
    eapply starting_trans; [exact Haz|].
    eapply starting_trans; [exact Hami|].
    eapply starting_trans; [exact Hname|].
    subst sv9. repeat split.
    - exists []. rewrite app_nil_r. split; [reflexivity|constructor].
    - exists []. rewrite app_nil_r. auto. }
  assert (E9 : is_ec2 sv9 = true).
  { subst sv9. cbn [is_ec2 set_agent set_hostname set_is_ec2] in *.
    congruence. }
  assert (C9 : config (agent sv9)
               = with_identity id type az ami (config (agent sv7)))
    by reflexivity.
  clearbody sv9.
  destruct (str_truthy id && str_truthy type && str_truthy az
            && str_truthy ami) eqn:Hall; cbn [negb] in Hrun;
    [|injection Hrun as <- <-; left; auto].
  apply andb_prop in Hall as (Hall & Tami).
  apply andb_prop in Hall as (Hall & Taz).
  apply andb_prop in Hall as (Tid & Ttype).
  apply sbind_inv in Hrun as (sv10 & sv10' & [= <- <-] & Hrun).
  apply sbind_inv in Hrun as (built & svb & Hbuilt & Hrun).
  unfold scall in Hbuilt. injection Hbuilt as _ <-.
  assert (Hb : starting sv (record_control
                              (CBoto3Clients (region (config (agent sv9)))) sv9)).
  { eapply starting_trans; [exact H9|]. apply starting_call; reflexivity. }
  destruct built; cbn [negb] in Hrun;
    [|injection Hrun as <- <-; left; auto].
  apply sbind_inv in Hrun as (mode & svm & Hmode & Hrun).
  apply sbind_inv in Hrun as ([] & svc & Hset & Hrun).
  apply sbind_inv in Hrun as (answer & sv'' & Hreg & Hrun).
  right. exists svc, answer.
  apply lift_inv in Hmode as (sm & Hmode & ->).
  unfold lift, modify in Hset. injection Hset as <-.
  unfold get_current_mode, get_instance_details, bind, call, ret in Hmode.
  injection Hmode as <- <-.
  assert (Hsv' : sv'' = sv' /\ r = match answer with
                                  | Some _ => Started
                                  | None => Exited 1
                                  end).
  { destruct answer; injection Hrun as <- <-; auto. }
  destruct Hsv' as (-> & ->).
  split; [|split; [|split; [|split; [|split; [exact Hreg|reflexivity]]]]].
  - eapply starting_trans; [exact Hb|]. repeat split.
    + eexists [_]. split; [reflexivity|]. repeat constructor.
    + exists []. rewrite app_nil_r. auto.
  - exact E9.
  - cbn [agent set_agent config set_mode emit record_control]. rewrite C9.
    repeat split; cbn [instance_id instance_type availability_zone ami_id
                       with_identity]; apply str_truthy_default; assumption.
  - cbn [agent set_agent current_mode current_pool_id set_mode].
    match goal with
    | |- known_lease (set_mode (Some (fst (mode_of ?d))) _ _) =>
        exists (fst (mode_of d)); split; [reflexivity|];
        destruct (mode_of_cases d)
          as [(-> & -> & _) | [(-> & -> & _) | (-> & d0 & _ & _ & ->)]]
    end;
      (split; [tauto|]); cbn [current_pool_id set_mode]; split;
      try discriminate; try congruence; auto.
Qed.

End Startup.

Lemma str_truthy_Some s : str_truthy (Some s) = true <-> s <> "".
Proof. destruct s; simpl; split; congruence. Qed.

Lemma main_inv (w : World) (h : Host) url sv r sv' :
  main w h url sv = (r, sv') ->
  (r = Exited 1 /\ sv' = sv /\ (client_token sv = "" \/ url = ""))
  \/ (client_token sv <> "" /\ url <> "" /\ run w h sv = (r, sv')).
Proof.
  unfold main, sbind, sget, sret.
  destruct (str_truthy (Some (client_token sv))) eqn:Htoken; cbn [negb].
  - destruct (str_truthy (Some url)) eqn:Hurl; cbn [negb].
    + apply str_truthy_Some in Htoken, Hurl. auto.
    + intros [= <- <-]. left. destruct url; [auto|discriminate].
  - intros [= <- <-]. left.
    destruct (client_token sv); [auto|discriminate].
Qed.

Lemma run_inv (w : World) (h : Host) sv r sv' :
  run w h sv = (r, sv') ->
  (r = Started /\ initialize w h sv = (Started, sv'))
  \/ exists code sv1,
       r = Exited code /\ initialize w h sv = (Exited code, sv1)
       /\ sv' = record_control (CHeartbeat "offline" []) sv1.
Proof.
  unfold run. intros Hrun.
  apply sbind_inv in Hrun as (outcome & sv1 & Hinit & Hrun).
  destruct outcome as [|code].
  - injection Hrun as <- <-. auto.
  - right. exists code, sv1. unfold shutdown, send_heartbeat, sbind, scall, sret
      in Hrun.
    injection Hrun as <- <-. auto.
Qed.

(** X17.  When [main] gets as far as starting the threads, the token and
    the server address were set, the process is on EC2, and the four
    identity fields are not empty.  The controller has received one
    registration and no heartbeat; the registration names the identity,
    host name and client token that the agent holds afterwards.  The agent
    id is the one in the answer, and each of the three flags is the one in
    the answer or, where the answer has none, true -- whatever it was
    before.  The lease class is one of [spot], [ondemand] and [unknown],
    with a pool exactly for [spot]. *)
Theorem startup_registers_identity (w : World) (h : Host) (url : string)
    (sv sv' : Supervisor) :
  main w h url sv = (Started, sv') ->
  client_token sv <> "" /\ url <> ""
  /\ client_token sv' = client_token sv
  /\ is_ec2 sv' = true
  /\ complete_identity (config (agent sv'))
  /\ known_lease (agent sv')
  /\ region (config (agent sv')) = region (config (agent sv))
  /\ (exists evs, trace (agent sv') = (trace (agent sv) ++ evs)%list
                  /\ Forall startup_event evs)
  /\ exists cs n answer id,
       control sv' = (control sv ++ cs)%list
       /\ registrations cs = [registration_of sv']
       /\ heartbeats cs = []
       /\ http_register h n (registration_of sv') = Some answer
       /\ rs_agent_id answer = Some id
       /\ agent_id sv' = id
       /\ enabled (config (agent sv'))
          = default true (cf_enabled (rs_config answer))
       /\ auto_switch_enabled (config (agent sv'))
          = default true (cf_auto_switch_enabled (rs_config answer))
       /\ auto_terminate_enabled (config (agent sv'))
          = default true (cf_auto_terminate_enabled (rs_config answer)).
Proof.
  intros Hmain.
  apply main_inv in Hmain as [(Hr & _) | (Htoken & Hurl & Hrun)];
    [discriminate|].
  apply run_inv in Hrun as [(_ & Hinit) | (code & sv1 & Hr & _)];
    [|discriminate].
  apply initialize_inv in Hinit
    as [(Hr & _) | (svc & answer & Hstart & Hec2 & Hid & Hlease & Hreg & Hr)];
    [discriminate|].
  destruct answer as [answer|]; [clear Hr|discriminate].
  rewrite register_agent_run in Hreg. cbv zeta in Hreg.
  destruct (http_register h _ (registration_of svc))
    as [[[id|] flags]|] eqn:Hanswer; try discriminate.
  injection Hreg as <- <-.
  destruct Hstart
    as (Ht & Hi & Hc & _ & _ & _ & (evs & He & Hev) & cs & Hcs & Hrs & Hhs).
  split; [exact Htoken|]. split; [exact Hurl|]. split; [exact Ht|].
  split; [exact Hec2|]. split; [exact Hid|]. split; [exact Hlease|].
  split; [exact (f_equal region Hc)|].
  split; [exists evs; auto|].
  eexists (cs ++ [CRegister _])%list, _, _, id.
  split; [cbn [control set_agent set_agent_id record_control];
          rewrite Hcs, <- app_assoc; reflexivity|].
  split; [unfold registrations in *; rewrite flat_map_app, Hrs; reflexivity|].
  split; [unfold heartbeats in *; rewrite flat_map_app, Hhs; reflexivity|].
  split; [exact Hanswer|]. repeat split.
Qed.

Lemma startup_registers_identity_witness :
  exists sv',
    main on_instance_A (demo_host (Some demo_answer)) "http://controller"
      (unstarted "secret") = (Started, sv')
    /\ agent_id sv' = "agent-1"
    /\ enabled (config (agent sv')) = true
    /\ auto_switch_enabled (config (agent sv')) = false.
Proof.
  eexists. split; [vm_compute; reflexivity|].
  assert (Hmain :
    main on_instance_A (demo_host (Some demo_answer)) "http://controller"
      (unstarted "secret")
    = (Started,
       snd (main on_instance_A (demo_host (Some demo_answer))
              "http://controller" (unstarted "secret"))))
    by (vm_compute; reflexivity).
  destruct (startup_registers_identity _ _ _ _ _ Hmain)
    as (_ & _ & _ & _ & _ & _ & _ & _ & cs & n & answer & id & _ & _ & _
        & Hanswer & Hid & Hagent & Henabled & Hswitch & _).
  injection Hanswer as <-. injection Hid as <-.
  split; [exact Hagent|]. split; [exact Henabled|exact Hswitch].
Defined.

(** X18.  When [main] exits instead, the exit code is 1 and the agent id,
    the client token, the region, the refresh interval and the three flags
    are as they were.  Without a client token or without a server address
    nothing at all was called.  Otherwise the last call to the controller
    is one [offline] heartbeat that names no instance, it is the only
    heartbeat, and at most one registration went before it; a registration
    was sent only with all four identity fields filled in. *)
Theorem startup_failure_goes_offline (w : World) (h : Host) (url : string)
    (sv sv' : Supervisor) (code : Z) :
  main w h url sv = (Exited code, sv') ->
  code = 1
  /\ client_token sv' = client_token sv
  /\ agent_id sv' = agent_id sv
  /\ with_identity None None None None (config (agent sv'))
     = with_identity None None None None (config (agent sv))
  /\ (client_token sv = "" \/ url = "" -> sv' = sv)
  /\ (client_token sv <> "" -> url <> "" ->
      exists cs,
        control sv' = (control sv ++ cs ++ [CHeartbeat "offline" []])%list
        /\ heartbeats cs = []
        /\ (registrations cs = []
            \/ exists req,
                 registrations cs = [req]
                 /\ rq_client_token req = client_token sv
                 /\ rq_instance_id req <> "" /\ rq_instance_type req <> ""
                 /\ rq_az req <> "" /\ rq_ami_id req <> "")).
Proof.
  intros Hmain.
  apply main_inv in Hmain as [(Hr & -> & Hmissing) | (Htoken & Hurl & Hrun)].
  - injection Hr as ->. repeat (split; [reflexivity|]).
    intros Ht Hu. destruct Hmissing; contradiction.
  - apply run_inv in Hrun as [(Hr & _) | (code0 & sv1 & Hr & Hinit & ->)];
      [discriminate|].
    injection Hr as <-.
    assert (Hcases :
      code = 1
      /\ client_token sv1 = client_token sv
      /\ agent_id sv1 = agent_id sv
      /\ with_identity None None None None (config (agent sv1))
         = with_identity None None None None (config (agent sv))
      /\ exists cs,
           control sv1 = (control sv ++ cs)%list
           /\ heartbeats cs = []
           /\ (registrations cs = []
               \/ exists req,
                    registrations cs = [req]
                    /\ rq_client_token req = client_token sv
                    /\ rq_instance_id req <> "" /\ rq_instance_type req <> ""
                    /\ rq_az req <> "" /\ rq_ami_id req <> "")).
    { apply initialize_inv in Hinit
        as [(Hr & Hstart)
           |(svc & answer & Hstart & _ & Hid & _ & Hreg & Hr)].
      - injection Hr as ->.
        destruct Hstart as (Ht & Hi & Hc & _ & _ & _ & _ & cs & Hcs & Hrs & Hhs).
        repeat (split; [first [reflexivity|assumption]|]).
        exists cs. auto.
      - destruct answer as [answer|]; [discriminate|]. injection Hr as ->.
        rewrite register_agent_run in Hreg. cbv zeta in Hreg.
        destruct Hstart
          as (Ht & Hi & Hc & _ & _ & _ & _ & cs & Hcs & Hrs & Hhs).
        destruct Hid as (I1 & I2 & I3 & I4).
        assert (Hsv1 : sv1 = record_control (CRegister (registration_of svc))
                               svc).
        { destruct (http_register h _ (registration_of svc))
            as [[[id|] flags]|]; try discriminate;
            injection Hreg as <-; reflexivity. }
        subst sv1. repeat (split; [first [reflexivity|assumption]|]).
        exists (cs ++ [CRegister (registration_of svc)])%list.
        split; [cbn [control record_control]; rewrite Hcs, <- app_assoc;
                reflexivity|].
        split; [unfold heartbeats in *; rewrite flat_map_app, Hhs;
                reflexivity|].
        right. exists (registration_of svc).
        split; [unfold registrations in *; rewrite flat_map_app, Hrs;
                reflexivity|].
        cbn [registration_of rq_client_token rq_instance_id rq_instance_type
             rq_az rq_ami_id]. auto 10. }
    destruct Hcases as (-> & Ht & Hi & Hc & cs & Hcs & Hhs & Hrs).
    repeat (split; [first [reflexivity|assumption]|]).
    split; [intros [?|?]; contradiction|]. intros _ _.
    exists cs. cbn [control record_control].
    rewrite Hcs, <- app_assoc. auto.
Qed.

Lemma startup_failure_goes_offline_witness :
  exists sv' cs,
    main (scripted script1) (demo_host None) "http://controller"
      (unstarted "secret") = (Exited 1, sv')
    /\ control sv' = (cs ++ [CHeartbeat "offline" []])%list
    /\ heartbeats cs = [].
Proof.
  assert (Hmain :
    main (scripted script1) (demo_host None) "http://controller"
      (unstarted "secret")
    = (Exited 1,
       snd (main (scripted script1) (demo_host None) "http://controller"
              (unstarted "secret"))))
    by (vm_compute; reflexivity).
  destruct (startup_failure_goes_offline _ _ _ _ _ _ Hmain)
    as (_ & _ & _ & _ & _ & Hlast).
  destruct (Hlast ltac:(discriminate) ltac:(discriminate))
    as (cs & Hcs & Hhs & _).
  eexists _, cs. split; [exact Hmain|]. split; [exact Hcs|exact Hhs].
Defined.

(** *** The heartbeat *)

Lemma with_flags_keep_twice c cfg :
  with_flags c (fun _ current => current)
    (with_flags c (fun _ current => current) cfg)
  = with_flags c (fun _ current => current) cfg.
Proof.
  unfold with_flags. simpl.
  destruct (cf_enabled c), (cf_auto_switch_enabled c),
    (cf_auto_terminate_enabled c); reflexivity.
Qed.

Lemma heartbeat_tick_run (h : Host) (sv : Supervisor) :
  let n := (length (trace (agent sv)) + length (control sv))%nat in
  let beat := CHeartbeat "online" [instance_id (config (agent sv))] in
  heartbeat_tick h sv
  = (tt,
     if http_heartbeat h n "online" [instance_id (config (agent sv))]
     then
       let asked := record_control CGetConfig (record_control beat sv) in
       match http_get_config h (S n) with
       | Some flags =>
           set_agent
             (set_config
                (with_flags flags (fun _ current => current)
                   (config (agent sv)))
                (agent sv)) asked
       | None => asked
       end
     else record_control beat sv).
Proof.
  cbv zeta.
  unfold heartbeat_tick, send_heartbeat, get_config, sbind, sget, scall,
    smodify, sret.
  destruct (http_heartbeat h _ "online" _); [|reflexivity].
  cbn [agent record_control control trace]. rewrite length_app. cbn [length].
  rewrite Nat.add_assoc, Nat.add_1_r.
  destruct (http_get_config h _); reflexivity.
Qed.

(** X19.  One turn of the heartbeat sends one [online] heartbeat naming
    the agent's instance.  When the heartbeat fails the controller is not
    asked for flags and nothing changes.  When it succeeds the flags are
    asked for once, and each of the three flags takes the value in the
    answer, or stays as it is where the answer has none or there is no
    answer.  The turn touches nothing else: identity, region, interval,
    lease class, pool, price cache, token, agent id and the agent's own
    calls are as before.  A disabling answer makes the next command-drain
    turn do nothing, and the same answer a second time changes nothing
    more. *)
Theorem heartbeat_refreshes_flags (h : Host) (sv : Supervisor) :
  let n := (length (trace (agent sv)) + length (control sv))%nat in
  let id := instance_id (config (agent sv)) in
  let alive := http_heartbeat h n "online" [id] in
  let answer := if alive then http_get_config h (S n) else None in
  let flags := default {| cf_enabled := None; cf_auto_switch_enabled := None;
                          cf_auto_terminate_enabled := None |} answer in
  let sv' := snd (heartbeat_tick h sv) in
  let n' := (length (trace (agent sv')) + length (control sv'))%nat in
  agent sv'
  = set_config (with_flags flags (fun _ current => current)
                  (config (agent sv))) (agent sv)
  /\ client_token sv' = client_token sv /\ hostname sv' = hostname sv
  /\ agent_id sv' = agent_id sv /\ is_ec2 sv' = is_ec2 sv
  /\ control sv'
     = (control sv ++ CHeartbeat "online" [id]
          :: (if alive then [CGetConfig] else []))%list
  /\ (answer = None -> config (agent sv') = config (agent sv))
  /\ (cf_enabled flags = Some false \/ cf_auto_switch_enabled flags = Some false
      -> forall w, command_tick w (agent sv') = (tt, agent sv'))
  /\ (answer <> None ->
      http_heartbeat h n' "online" [id] = true ->
      http_get_config h (S n') = answer ->
      config (agent (snd (heartbeat_tick h sv'))) = config (agent sv')).
Proof.
  cbv zeta. rewrite heartbeat_tick_run. cbv zeta. cbn [snd].
  assert (Hsame : forall a : Agent,
            set_config
              (with_flags {| cf_enabled := None; cf_auto_switch_enabled := None;
                             cf_auto_terminate_enabled := None |}
                 (fun _ current => current) (config a)) a = a).
  { intros [[] ? ? ? ? ? ? ? ?]. reflexivity. }
  destruct (http_heartbeat h _ "online" _) eqn:Halive.
  - destruct (http_get_config h _) as [flags|] eqn:Hflags.
    + change (default _ (Some flags)) with flags.
      split; [reflexivity|]. repeat (split; [reflexivity|]).
      split; [cbn [control set_agent record_control];
              rewrite <- app_assoc; reflexivity|].
      split; [discriminate|]. split.
      * intros Hoff w. cbn [agent set_agent].
        unfold command_tick, bind, get, ret.
        cbn [config set_config enabled auto_switch_enabled with_flags].
        destruct Hoff as [-> | ->]; [reflexivity|].
        destruct (default _ (cf_enabled flags)); reflexivity.
      * intros _ Hbeat Hagain. rewrite heartbeat_tick_run. cbv zeta.
        cbn [agent set_agent set_config config instance_id with_flags trace
             control record_control] in Hbeat, Hagain |- *.
        rewrite Hbeat, Hagain.
        cbn [snd agent set_agent config set_config].
        apply (with_flags_keep_twice flags).
    + change (default ?d None) with d. rewrite Hsame.
      repeat (split; [first [reflexivity
                            |cbn [control record_control];
                             rewrite <- app_assoc; reflexivity]|]).
      split; [intros [?|?]; discriminate|].
      intros Hsome. contradiction.
  - change (default ?d None) with d. rewrite Hsame.
    repeat (split; [reflexivity|]).
    split; [intros [?|?]; discriminate|].
    intros Hsome. contradiction.
Qed.

(** ** Pool samples, the other direction *)

Lemma spot_price_loop_total T items :
  forall pools seen_azs,
    Forall (fun it => SpotPrice it <> None) items ->
    exists added,
      spot_price_loop T items pools seen_azs = Some (pools ++ added)%list
      /\ (forall z, z ∈ map az added
                    <-> z ∈ map AvailabilityZone items /\ z ∉ seen_azs)
      /\ (length added <= length items)%nat.
Proof.
  induction items as [|item rest IH]; intros pools seen_azs Hall; simpl.
  - exists []. rewrite app_nil_r. split; [reflexivity|].
    split; [|simpl; lia]. intros z. simpl. rewrite !elem_of_nil. tauto.
  - apply Forall_cons in Hall as (Hitem & Hrest).
    case_bool_decide as Hseen.
    + destruct (IH pools seen_azs Hrest) as (added & -> & Hzones & Hlen).
      exists added. split; [reflexivity|]. split; [|simpl; lia].
      intros z. rewrite Hzones, elem_of_cons.
      split; [tauto|]. intros [[-> | Hin] Hnot]; [contradiction|auto].
    + destruct (SpotPrice item) as [p|]; [|congruence].
      destruct (IH (pools ++ [{| az := AvailabilityZone item;
                                 pool_id := make_pool_id T (AvailabilityZone item);
                                 pool_price := p |}])%list
                   ({[AvailabilityZone item]} ∪ seen_azs) Hrest)
        as (added & -> & Hzones & Hlen).
      eexists (_ :: added). rewrite <- app_assoc.
      split; [reflexivity|]. split; [|simpl; lia].
      intros z. cbn [map az]. rewrite !elem_of_cons, Hzones.
      rewrite not_elem_of_union, not_elem_of_singleton.
      destruct (decide (z = AvailabilityZone item)) as [-> | Hne]; tauto.
Qed.

Lemma spot_price_loop_fails T before item after :
  forall pools seen_azs,
    SpotPrice item = None ->
    AvailabilityZone item ∉ map AvailabilityZone before ->
    AvailabilityZone item ∉ seen_azs ->
    spot_price_loop T (before ++ item :: after) pools seen_azs = None.
Proof.
  induction before as [|first before IH]; intros pools seen_azs Hprice Hnew Hseen;
    simpl.
  - rewrite bool_decide_eq_false_2 by exact Hseen. rewrite Hprice. reflexivity.
  - cbn [map] in Hnew. apply not_elem_of_cons in Hnew as (Hne & Hnew).
    case_bool_decide; [apply IH; assumption|].
    destruct (SpotPrice first); [|reflexivity].
    apply IH; [assumption|assumption|].
    rewrite not_elem_of_union, not_elem_of_singleton. auto.
Qed.

(** X20.  [get_spot_prices] is all or nothing.  When the provider's call
    fails the result is empty.  When every item of the history carries a
    price, the zones of the samples are exactly the zones of the history,
    and there are no more samples than items.  When the first item of some
    zone carries no readable price, the result is empty, whatever the
    other zones hold. *)
Theorem get_spot_prices_all_or_nothing (w : World) (instance_type : string)
    (s : Agent) :
  let pools := fst (get_spot_prices w instance_type s) in
  let response :=
    ec2_describe_spot_price_history w (length (trace s ++ [EUtcNow]))
      instance_type (utcnow w (length (trace s)) - seconds 300) in
  (response = None -> pools = [])
  /\ forall items,
       response = Some items ->
       (Forall (fun it => SpotPrice it <> None) items ->
        (forall z, z ∈ map az pools <-> z ∈ map AvailabilityZone items)
        /\ (length pools <= length items)%nat)
       /\ (forall before item after,
             items = (before ++ item :: after)%list ->
             SpotPrice item = None ->
             AvailabilityZone item ∉ map AvailabilityZone before ->
             pools = []).
Proof.
  cbv zeta. unfold get_spot_prices, bind, call, ret. cbn [fst snd trace emit].
  split; [intros ->; reflexivity|].
  intros items ->. unfold spot_pools_of. split.
  - intros Hall.
    destruct (spot_price_loop_total instance_type items [] ∅ Hall)
      as (added & -> & Hzones & Hlen).
    cbn [default app]. split; [|exact Hlen].
    intros z. rewrite Hzones. split; [tauto|].
    intros Hin. split; [exact Hin|]. apply not_elem_of_empty.
  - intros before item after -> Hprice Hnew.
    rewrite spot_price_loop_fails;
      [reflexivity|exact Hprice|exact Hnew|apply not_elem_of_empty].
Qed.
